(** * RentenDashboard: the OAuth authentication subsystem

    A shallow embedding of [src/auth/oauth_manager.py],
    [src/auth/callback_server.py] and the grant selection of [main.py],
    with the properties of the specification stated over it.

    Layout:
    - [Py]: the Python values the code handles (None, bool, int, str,
      list, dict), truthiness and dict access;
    - [Json]: [json.dumps] / [json.loads] on those values;
    - [Utf8]: [str.encode('utf-8')] / [bytes.decode('utf-8')];
    - [OAuth]: the token store and the grants of [OAuthManager],
      parameterised by the Fernet cipher;
    - [Callback]: the polling loop of [run_https_callback_server];
    - [Main]: the grant selection of [main]. *)

From Stdlib Require Import ZArith List Ascii String Lia Bool.
From Stdlib Require Import Strings.Byte.
From Stdlib Require Import DecimalString DecimalZ DecimalPos DecimalFacts.
From stdpp Require Import gmap strings.
Import ListNotations.

(** ** Python values *)

Module Py.

(** The values that travel through the token code: what [response.json()]
    returns, what [os.getenv] puts into the configuration.  A [dict] keeps
    its insertion order and has string keys, as every dict of this code
    does.  Strings hold the code points below 256; floats are left out. *)
#[local] Unset Elimination Schemes.
Inductive value : Type :=
| VNone
| VBool (b : bool)
| VInt (n : Z)
| VStr (s : string)
| VList (l : list value)
| VDict (d : list (string * value)).
#[local] Set Elimination Schemes.

(** Induction with the hypotheses for the elements of lists and dicts. *)
Fixpoint value_nested_ind (P : value → Prop)
    (HNone : P VNone) (HBool : ∀ b, P (VBool b)) (HInt : ∀ n, P (VInt n))
    (HStr : ∀ s, P (VStr s))
    (HList : ∀ l, Forall P l → P (VList l))
    (HDict : ∀ d, Forall (λ kv, P (snd kv)) d → P (VDict d))
    (v : value) {struct v} : P v :=
  let rec := value_nested_ind P HNone HBool HInt HStr HList HDict in
  match v with
  | VNone => HNone
  | VBool b => HBool b
  | VInt n => HInt n
  | VStr s => HStr s
  | VList l =>
      HList l ((fix go (l : list value) : Forall P l :=
                  match l with
                  | [] => @List.Forall_nil _ P
                  | x :: l' => @List.Forall_cons _ P x l' (rec x) (go l')
                  end) l)
  | VDict d =>
      HDict d ((fix go (d : list (string * value)) : Forall (λ kv, P (snd kv)) d :=
                  match d with
                  | [] => @List.Forall_nil _ _
                  | kv :: d' => @List.Forall_cons _ _ kv d' (rec (snd kv)) (go d')
                  end) d)
  end.

(** [bool(v)]: None, False, 0, the empty string, list and dict are falsy. *)
Definition truthy (v : value) : bool :=
  match v with
  | VNone => false
  | VBool b => b
  | VInt n => negb (n =? 0)%Z
  | VStr s => negb (String.eqb s "")
  | VList l => match l with [] => false | _ => true end
  | VDict d => match d with [] => false | _ => true end
  end.

(** [v is not None] *)
Definition is_not_none (v : value) : bool :=
  match v with VNone => false | _ => true end.

(** [d[k]]: [None] stands for the [KeyError]. *)
Fixpoint dict_item (d : list (string * value)) (k : string) : option value :=
  match d with
  | [] => None
  | (k', v) :: d' => if String.eqb k' k then Some v else dict_item d' k
  end.

(** [d.get(k)]: Python's None when the key is missing. *)
Definition dict_get (d : list (string * value)) (k : string) : value :=
  match dict_item d k with Some v => v | None => VNone end.

(** [d[k] = v]: an existing key keeps its place, a new one goes last. *)
Fixpoint dict_set (d : list (string * value)) (k : string) (v : value)
    : list (string * value) :=
  match d with
  | [] => [(k, v)]
  | (k', v') :: d' =>
      if String.eqb k' k then (k', v) :: d' else (k', v') :: dict_set d' k v
  end.

(** [dict(pairs)] *)
Definition dict_of_pairs (pairs : list (string * value)) : list (string * value) :=
  fold_left (λ d kv, dict_set d (fst kv) (snd kv)) pairs [].

Fixpoint mem_key (k : string) (d : list (string * value)) : bool :=
  match d with
  | [] => false
  | (k', _) :: d' => String.eqb k' k || mem_key k d'
  end.

Fixpoint unique_keys (d : list (string * value)) : bool :=
  match d with
  | [] => true
  | (k, _) :: d' => negb (mem_key k d') && unique_keys d'
  end.

(** A value that exists in Python: no dict in it has a key twice. *)
Fixpoint well_formed (v : value) : bool :=
  match v with
  | VList l => forallb well_formed l
  | VDict d => unique_keys d && forallb (λ kv, well_formed (snd kv)) d
  | _ => true
  end.

End Py.
Export Py.

(** ** Exceptions *)

(** The subclasses of [Exception] that this code raises or meets. *)
Inductive exn : Type :=
| OAuthError (error : string)
| KeyError (key : string)
| AttributeError
| TypeError
| ValueError
| TimeoutError                  (* asyncio.TimeoutError *)
| InvalidToken                  (* cryptography.fernet *)
| UnicodeDecodeError
| JSONDecodeError
| RecursionError
| OtherError (name : string).   (* OSError, ssl.SSLError, aiohttp.ClientError, ... *)

Inductive result (A : Type) : Type :=
| Ok (a : A)
| Raise (e : exn).
Arguments Ok {A} a.
Arguments Raise {A} e.

Definition is_oauth_error (e : exn) : bool :=
  match e with OAuthError _ => true | _ => false end.

(** ** [json.dumps] and [json.loads]

    The encoder and the decoder of Python's [json] module with their default
    settings ([ensure_ascii=True], separators [", "] and [": "], strict
    string scanning), on the values of [Py.value].  Both refuse an int of
    more than 4300 digits and a nesting deeper than the interpreter lets
    them enter.  A number with a fraction or an exponent, and the
    constants [NaN] and [Infinity], would be a float: the decoder here has
    no value for them and answers as for a malformed document. *)

Module Json.

Definition dquote : ascii := "034"%char.
Definition bslash : ascii := "\"%char.

(** *** Encoder *)

Definition hex_digit (n : nat) : ascii :=
  match n with
  | 0 => "0" | 1 => "1" | 2 => "2" | 3 => "3" | 4 => "4" | 5 => "5"
  | 6 => "6" | 7 => "7" | 8 => "8" | 9 => "9" | 10 => "a" | 11 => "b"
  | 12 => "c" | 13 => "d" | 14 => "e" | _ => "f"
  end%char.

(** [ESCAPE_DCT], and [\u00xx] for whatever else lies outside [' '..'~']. *)
Definition escape_char (c : ascii) : string :=
  if (c =? dquote)%char then String bslash (String dquote "")
  else if (c =? bslash)%char then String bslash (String bslash "")
  else if (c =? "008")%char then "\b"
  else if (c =? "012")%char then "\f"
  else if (c =? "010")%char then "\n"
  else if (c =? "013")%char then "\r"
  else if (c =? "009")%char then "\t"
  else
    let n := nat_of_ascii c in
    if (n <? 32) || (126 <? n) then
      "\u00" +:+ String (hex_digit (n / 16)) (String (hex_digit (n mod 16)) "")
    else String c "".

Fixpoint escape (s : string) : string :=
  match s with
  | EmptyString => ""
  | String c r => escape_char c +:+ escape r
  end.

(** [py_encode_basestring_ascii] *)
Definition encode_str (s : string) : string :=
  String dquote (escape s +:+ String dquote "").

(** [repr] of an int, as long as it may be converted *)
Definition encode_int (n : Z) : string := NilZero.string_of_int (Z.to_int n).

(** What [json.dumps] writes for a value that it accepts. *)
Fixpoint encode (v : value) : string :=
  match v with
  | VNone => "null"
  | VBool true => "true"
  | VBool false => "false"
  | VInt n => encode_int n
  | VStr s => encode_str s
  | VList l =>
      match l with
      | [] => "[]"
      | x :: l' =>
          "[" +:+ encode x +:+
          (fix more (l : list value) : string :=
             match l with
             | [] => "]"
             | y :: l'' => ", " +:+ encode y +:+ more l''
             end) l'
      end
  | VDict d =>
      match d with
      | [] => "{}"
      | (k, x) :: d' =>
          "{" +:+ encode_str k +:+ ": " +:+ encode x +:+
          (fix more (d : list (string * value)) : string :=
             match d with
             | [] => "}"
             | (k', y) :: d'' => ", " +:+ encode_str k' +:+ ": " +:+ encode y +:+ more d''
             end) d'
      end
  end.

(** The items after the first one, up to the closing bracket. *)
Fixpoint encode_items (l : list value) : string :=
  match l with
  | [] => "]"
  | y :: l' => ", " +:+ encode y +:+ encode_items l'
  end.

Fixpoint encode_members (d : list (string * value)) : string :=
  match d with
  | [] => "}"
  | (k, y) :: d' => ", " +:+ encode_str k +:+ ": " +:+ encode y +:+ encode_members d'
  end.

(** [sys.get_int_max_str_digits()], by default: an int with more digits
    is not converted to text, nor text to it. *)
Definition int_max_str_digits : N := 4300.

(** The decimal digits of an int, without its sign. *)
Definition int_digits (n : Z) : nat :=
  match Z.to_int n with
  | Decimal.Pos d | Decimal.Neg d => Decimal.nb_digits d
  end.

Definition too_long (digits : nat) : bool :=
  (int_max_str_digits <? N.of_nat digits)%N.

(** What makes the encoder give up, met in the order in which it writes:
    [ValueError] for an int that is too long, [RecursionError] for a list
    or dict when it can enter no further one.  [depth] counts the lists
    and dicts, one inside the other, that it can still enter. *)
Fixpoint refused (depth : nat) (v : value) {struct v} : option exn :=
  match v with
  | VInt n => if too_long (int_digits n) then Some ValueError else None
  | VList l =>
      match depth with
      | O => Some RecursionError
      | S depth' =>
          (fix first (l : list value) : option exn :=
             match l with
             | [] => None
             | x :: l' =>
                 match refused depth' x with
                 | Some e => Some e
                 | None => first l'
                 end
             end) l
      end
  | VDict d =>
      match depth with
      | O => Some RecursionError
      | S depth' =>
          (fix first (d : list (string * value)) : option exn :=
             match d with
             | [] => None
             | (_, x) :: d' =>
                 match refused depth' x with
                 | Some e => Some e
                 | None => first d'
                 end
             end) d
      end
  | _ => None
  end.

Fixpoint refused_items (depth : nat) (l : list value) : option exn :=
  match l with
  | [] => None
  | x :: l' =>
      match refused depth x with
      | Some e => Some e
      | None => refused_items depth l'
      end
  end.

Fixpoint refused_members (depth : nat) (d : list (string * value)) : option exn :=
  match d with
  | [] => None
  | (_, x) :: d' =>
      match refused depth x with
      | Some e => Some e
      | None => refused_members depth d'
      end
  end.

(** [json.dumps] *)
Definition dumps (depth : nat) (v : value) : result string :=
  match refused depth v with
  | Some e => Raise e
  | None => Ok (encode v)
  end.

(** *** Decoder *)

Definition is_ws (c : ascii) : bool :=
  (c =? " ")%char || (c =? "009")%char || (c =? "010")%char || (c =? "013")%char.

Fixpoint skip_ws (s : string) : string :=
  match s with
  | String c r => if is_ws c then skip_ws r else s
  | EmptyString => s
  end.

Definition hex_value (c : ascii) : option nat :=
  let n := nat_of_ascii c in
  if (48 <=? n) && (n <=? 57) then Some (n - 48)
  else if (97 <=? n) && (n <=? 102) then Some (n - 87)
  else if (65 <=? n) && (n <=? 70) then Some (n - 55)
  else None.

(** [\uXXXX]; a code point from 256 on does not fit a [string] here. *)
Definition unescape_u (a b c d : ascii) : option ascii :=
  match hex_value a, hex_value b, hex_value c, hex_value d with
  | Some x, Some y, Some z, Some w =>
      let n := ((x * 16 + y) * 16 + z) * 16 + w in
      if n <? 256 then Some (ascii_of_nat n) else None
  | _, _, _, _ => None
  end.

(** The [BACKSLASH] table of the decoder. *)
Definition unescape (e : ascii) : option ascii :=
  if (e =? dquote)%char then Some dquote
  else if (e =? bslash)%char then Some bslash
  else if (e =? "/")%char then Some "/"%char
  else if (e =? "b")%char then Some "008"%char
  else if (e =? "f")%char then Some "012"%char
  else if (e =? "n")%char then Some "010"%char
  else if (e =? "r")%char then Some "013"%char
  else if (e =? "t")%char then Some "009"%char
  else None.

Definition cons_char (c : ascii) (r : option (string * string))
    : option (string * string) :=
  match r with
  | Some (s, rest) => Some (String c s, rest)
  | None => None
  end.

(** [py_scanstring], entered after the opening quote: the string scanned
    and the input after the closing quote. *)
Fixpoint scan_string (s : string) : option (string * string) :=
  match s with
  | EmptyString => None
  | String c r =>
      if (c =? dquote)%char then Some (EmptyString, r)
      else if (c =? bslash)%char then
        match r with
        | String e r1 =>
            if (e =? "u")%char then
              match r1 with
              | String h1 (String h2 (String h3 (String h4 r2))) =>
                  match unescape_u h1 h2 h3 h4 with
                  | Some ch => cons_char ch (scan_string r2)
                  | None => None
                  end
              | _ => None
              end
            else
              match unescape e with
              | Some ch => cons_char ch (scan_string r1)
              | None => None
              end
        | EmptyString => None
        end
      else if nat_of_ascii c <? 32 then None
      else cons_char c (scan_string r)
  end.

Definition digit (c : ascii) : option (Decimal.uint → Decimal.uint) :=
  if (c =? "0")%char then Some Decimal.D0
  else if (c =? "1")%char then Some Decimal.D1
  else if (c =? "2")%char then Some Decimal.D2
  else if (c =? "3")%char then Some Decimal.D3
  else if (c =? "4")%char then Some Decimal.D4
  else if (c =? "5")%char then Some Decimal.D5
  else if (c =? "6")%char then Some Decimal.D6
  else if (c =? "7")%char then Some Decimal.D7
  else if (c =? "8")%char then Some Decimal.D8
  else if (c =? "9")%char then Some Decimal.D9
  else None.

Fixpoint read_digits (s : string) : Decimal.uint * string :=
  match s with
  | String c r =>
      match digit c with
      | Some D => let (d, r') := read_digits r in (D d, r')
      | None => (Decimal.Nil, s)
      end
  | EmptyString => (Decimal.Nil, s)
  end.

(** The integer part of [NUMBER_RE]: [0] or [[1-9][0-9]*]. *)
Definition scan_unsigned (s : string) : option (Decimal.uint * string) :=
  match s with
  | String c r =>
      if (c =? "0")%char then Some (Decimal.D0 Decimal.Nil, r)
      else
        match read_digits s with
        | (Decimal.Nil, _) => None
        | (d, r') => Some (d, r')
        end
  | EmptyString => None
  end.

(** A fraction or an exponent makes the number a float, which [Py.value]
    does not have. *)
Definition float_follows (s : string) : bool :=
  match s with
  | String c _ => (c =? ".")%char || (c =? "e")%char || (c =? "E")%char
  | EmptyString => false
  end.

Definition scan_number (s : string) : result (Z * string) :=
  let (neg, s1) :=
    match s with
    | String c r => if (c =? "-")%char then (true, r) else (false, s)
    | EmptyString => (false, s)
    end in
  match scan_unsigned s1 with
  | Some (d, r) =>
      if float_follows r then Raise JSONDecodeError
      else if too_long (Decimal.nb_digits d) then Raise ValueError
      else Ok (if neg then (- Z.of_uint d)%Z else Z.of_uint d, r)
  | None => Raise JSONDecodeError
  end.

Fixpoint strip_prefix (p s : string) : option string :=
  match p, s with
  | EmptyString, _ => Some s
  | String a p', String b s' => if (a =? b)%char then strip_prefix p' s' else None
  | String _ _, EmptyString => None
  end.

Definition literal (p : string) (v : value) (s : string) : result (value * string) :=
  match strip_prefix p s with
  | Some r => Ok (v, r)
  | None => Raise JSONDecodeError
  end.

(** [scan_once], [JSONArray] and [JSONObject].  The recursion of the
    decoder is on the input, which the fuel bounds from above; [depth]
    counts the lists and dicts, one inside the other, that the decoder can
    still enter. *)
Fixpoint parse_value (fuel depth : nat) (s : string) : result (value * string) :=
  match fuel with
  | O => Raise JSONDecodeError
  | S fuel =>
      match s with
      | EmptyString => Raise JSONDecodeError
      | String c r =>
          if (c =? dquote)%char then
            match scan_string r with
            | Some (str, r') => Ok (VStr str, r')
            | None => Raise JSONDecodeError
            end
          else if (c =? "{")%char then
            match depth with
            | O => Raise RecursionError
            | S depth =>
                match skip_ws r with
                | String c1 r1 =>
                    if (c1 =? dquote)%char then
                      match parse_members fuel depth r1 with
                      | Ok (pairs, r') => Ok (VDict (dict_of_pairs pairs), r')
                      | Raise e => Raise e
                      end
                    else if (c1 =? "}")%char then Ok (VDict [], r1)
                    else Raise JSONDecodeError
                | EmptyString => Raise JSONDecodeError
                end
            end
          else if (c =? "[")%char then
            match depth with
            | O => Raise RecursionError
            | S depth =>
                match skip_ws r with
                | String c1 r1 =>
                    if (c1 =? "]")%char then Ok (VList [], r1)
                    else
                      match parse_items fuel depth (String c1 r1) with
                      | Ok (l, r') => Ok (VList l, r')
                      | Raise e => Raise e
                      end
                | EmptyString => Raise JSONDecodeError
                end
            end
          else if (c =? "n")%char then literal "ull" VNone r
          else if (c =? "t")%char then literal "rue" (VBool true) r
          else if (c =? "f")%char then literal "alse" (VBool false) r
          else
            match scan_number s with
            | Ok (n, r') => Ok (VInt n, r')
            | Raise e => Raise e
            end
      end
  end
with parse_items (fuel depth : nat) (s : string) : result (list value * string) :=
  match fuel with
  | O => Raise JSONDecodeError
  | S fuel =>
      match parse_value fuel depth s with
      | Ok (v, r) =>
          match skip_ws r with
          | String c r1 =>
              if (c =? "]")%char then Ok ([v], r1)
              else if (c =? ",")%char then
                match parse_items fuel depth (skip_ws r1) with
                | Ok (l, r') => Ok (v :: l, r')
                | Raise e => Raise e
                end
              else Raise JSONDecodeError
          | EmptyString => Raise JSONDecodeError
          end
      | Raise e => Raise e
      end
  end
with parse_members (fuel depth : nat) (s : string)
    : result (list (string * value) * string) :=
  match fuel with
  | O => Raise JSONDecodeError
  | S fuel =>
      match scan_string s with
      | Some (k, r) =>
          match skip_ws r with
          | String c r1 =>
              if (c =? ":")%char then
                match parse_value fuel depth (skip_ws r1) with
                | Ok (v, r2) =>
                    match skip_ws r2 with
                    | String c2 r3 =>
                        if (c2 =? "}")%char then Ok ([(k, v)], r3)
                        else if (c2 =? ",")%char then
                          match skip_ws r3 with
                          | String c3 r4 =>
                              if (c3 =? dquote)%char then
                                match parse_members fuel depth r4 with
                                | Ok (m, r') => Ok ((k, v) :: m, r')
                                | Raise e => Raise e
                                end
                              else Raise JSONDecodeError
                          | EmptyString => Raise JSONDecodeError
                          end
                        else Raise JSONDecodeError
                    | EmptyString => Raise JSONDecodeError
                    end
                | Raise e => Raise e
                end
              else Raise JSONDecodeError
          | EmptyString => Raise JSONDecodeError
          end
      | None => Raise JSONDecodeError
      end
  end.

(** [json.loads]: one value between optional white space. *)
Definition loads (depth : nat) (s : string) : result value :=
  match parse_value (String.length s) depth (skip_ws s) with
  | Ok (v, r) =>
      match skip_ws r with
      | EmptyString => Ok v
      | String _ _ => Raise JSONDecodeError
      end
  | Raise e => Raise e
  end.

End Json.

(** ** [str.encode('utf-8')] and [bytes.decode('utf-8')]

    On the code points below 256 that a [string] holds: one byte below 128,
    two bytes from there on. *)

Module Utf8.

Definition encode_char (c : ascii) : list byte :=
  let n := nat_of_ascii c in
  if n <? 128 then [byte_of_ascii c]
  else [byte_of_ascii (ascii_of_nat (192 + n / 64));
        byte_of_ascii (ascii_of_nat (128 + n mod 64))].

Fixpoint encode (s : string) : list byte :=
  match s with
  | EmptyString => []
  | String c r => encode_char c ++ encode r
  end.

(** [None] stands for the [UnicodeDecodeError], and for a code point that a
    [string] cannot hold. *)
Fixpoint decode (b : list byte) : option string :=
  match b with
  | [] => Some EmptyString
  | x :: r =>
      let n := nat_of_ascii (ascii_of_byte x) in
      if n <? 128 then option_map (String (ascii_of_byte x)) (decode r)
      else if (n =? 194) || (n =? 195) then
        match r with
        | y :: r' =>
            let m := nat_of_ascii (ascii_of_byte y) in
            if (128 <=? m) && (m <? 192) then
              option_map (String (ascii_of_nat ((n - 192) * 64 + (m - 128))))
                         (decode r')
            else None
        | [] => None
        end
      else None
  end.

End Utf8.

(** ** The callback listener ([src/auth/callback_server.py]) *)

Module Callback.

(** A request as the handler sees it: [request.query] is a multi-dict. *)
Record request := {
  method : string;
  path : string;
  query : list (string * string)
}.

(** [request.query.get(k)]: the first value of the key, or None. *)
Definition query_get (q : list (string * string)) (k : string) : value :=
  match List.find (λ kv, String.eqb (fst kv) k) q with
  | Some kv => VStr (snd kv)
  | None => VNone
  end.

(** The dict that [_handle_callback] stores into [app['auth_result']]. *)
Definition _handle_callback (r : request) : value :=
  VDict [("code", query_get (query r) "code");
         ("state", query_get (query r) "state");
         ("error", query_get (query r) "error");
         ("error_description", query_get (query r) "error_description")].

(** The application object: [app['auth_result']], and whether the site is
    up (between [site.start()] and [runner.cleanup()]). *)
Record application := {
  auth_result : value;
  running : bool
}.

(** [web.get('/callback', _handle_callback)]: the route serves GET, and HEAD
    with it; the two other routes leave the application as it is. *)
Definition routes_to_callback (r : request) : bool :=
  (String.eqb (method r) "GET" || String.eqb (method r) "HEAD")
  && String.eqb (path r) "/callback".

(** One request reaching the port. *)
Definition deliver (a : application) (r : request) : application :=
  if running a then
    if routes_to_callback r then
      {| auth_result := _handle_callback r; running := true |}
    else a
  else a.

Definition timeout_result : value :=
  VDict [("error", VStr "timeout");
         ("error_description", VStr "No callback received")].

(** The [for _ in range(timeout)] loop.  [arrivals] lists, second by
    second, the requests handled while the loop sleeps; the result is what
    the loop returns, the application, and the seconds not waited for. *)
Fixpoint poll (n : nat) (a : application) (arrivals : list (list request))
    : value * application * list (list request) :=
  match n with
  | O => (timeout_result, a, arrivals)
  | S n' =>
      let a' := fold_left deliver (hd [] arrivals) a in
      if is_not_none (auth_result a') then (auth_result a', a', tl arrivals)
      else poll n' a' (tl arrivals)
  end.

(** What the outside does to one run of the listener. *)
Record world := {
  setup : option exn;                (* load_cert_chain, runner.setup, site.start *)
  arrivals : list (list request)
}.

(** [run_https_callback_server]: the result or the exception, the
    application when the function is left, and the requests still to come. *)
Definition run_https_callback_server (w : world)
    (host port cert_path key_path : value) (timeout : Z)
    : result value * application * list (list request) :=
  let app0 := {| auth_result := VNone; running := false |} in
  match setup w with
  | Some e => (Raise e, app0, arrivals w)
  | None =>
      let '(r, a, later) :=
        poll (Z.to_nat timeout) {| auth_result := VNone; running := true |}
             (arrivals w) in
      (* finally: await runner.cleanup() *)
      (Ok r, {| auth_result := auth_result a; running := false |}, later)
  end.

(** Two requests that differ at most in their [state] parameters. *)
Definition drop_state (q : list (string * string)) : list (string * string) :=
  List.filter (λ kv, negb (String.eqb (fst kv) "state")) q.

Definition same_but_state (r1 r2 : request) : Prop :=
  method r1 = method r2 ∧ path r1 = path r2
  ∧ drop_state (query r1) = drop_state (query r2).

(** No request of these seconds goes to [/callback]. *)
Definition elsewhere (r : request) : bool := negb (String.eqb (path r) "/callback").

Definition no_callback (ticks : list (list request)) : bool :=
  forallb (forallb elsewhere) ticks.

End Callback.

(** ** The OAuth manager ([src/auth/oauth_manager.py]) *)

Module OAuth.

(** What the code takes from its libraries and does not define itself. *)
Record library := {
  (** [Fernet(key).encrypt], from the IV and time stamp it draws and the
      plaintext; [Fernet(key).decrypt], [None] for [InvalidToken]. *)
  fernet_encrypt : list byte → list byte → list byte;
  fernet_decrypt : list byte → option (list byte);
  (** [urllib.parse]: [urlencode], and [urlparse(u).hostname] / [.port]. *)
  urlencode : list (string * value) → string;
  hostname : value → result value;
  port : value → result value;
  (** [repr] of a value that is not a string, [str] of an exception. *)
  repr : value → string;
  str_exn : exn → string;
  (** The lists and dicts, one inside the other, that [json.dumps] and
      [json.loads] can enter below the outermost one before the interpreter
      answers with [RecursionError]. *)
  encoder_depth : nat;
  decoder_depth : nat
}.

(** A value inside an f-string. *)
Definition fmt (lib : library) (v : value) : string :=
  match v with
  | VStr s => s
  | _ => repr lib v
  end.

Inductive level : Type := INFO | WARNING | ERROR.

(** What the manager does to the outside. *)
Inductive event : Type :=
| Log (l : level) (msg : string)
| Post (url : value) (data : list (string * value))   (* session.post *)
| Browser (url : string)                              (* webbrowser.open *)
| Listen (host port cert key : value).                (* run_https_callback_server *)

(** The manager: [self._tokens], and the events so far. *)
Record manager := {
  _tokens : gmap string (list byte);
  trace : list event
}.

Definition init : manager := {| _tokens := ∅; trace := [] |}.

(** *** Computations that change the manager and may raise *)

Definition M (A : Type) : Type := manager → result A * manager.

Definition ret {A} (a : A) : M A := λ m, (Ok a, m).

Definition raise {A} (e : exn) : M A := λ m, (Raise e, m).

Definition bind {A B} (c : M A) (k : A → M B) : M B :=
  λ m, match c m with
       | (Ok a, m') => k a m'
       | (Raise e, m') => (Raise e, m')
       end.

(** [try: c  except Exception as e: h e] *)
Definition try_except {A} (c : M A) (h : exn → M A) : M A :=
  λ m, match c m with
       | (Ok a, m') => (Ok a, m')
       | (Raise e, m') => h e m'
       end.

Definition lift {A} (r : result A) : M A := λ m, (r, m).

Notation "'let*' x ':=' c 'in' k" := (bind c (λ x, k))
  (at level 10, x name, c at level 100, k at level 200).
Notation "c ';;' k" := (bind c (λ _, k))
  (at level 100, k at level 200, right associativity).

Definition emit (ev : event) : M unit :=
  λ m, (Ok tt, {| _tokens := _tokens m; trace := trace m ++ [ev] |}).

Definition log (l : level) (msg : string) : M unit := emit (Log l msg).

(** [d[k]] *)
Definition item (d : list (string * value)) (k : string) : M value :=
  match dict_item d k with
  | Some v => ret v
  | None => raise (KeyError k)
  end.

(** [v.get(k)]: only a dict has the method. *)
Definition get_method (v : value) (k : string) : result value :=
  match v with
  | VDict d => Ok (dict_get d k)
  | _ => Raise AttributeError
  end.

(** [self._tokens[bank_name] = c].  The store is declared a
    [Dict[str, bytes]] and is modelled with string keys.  Python itself
    takes any hashable name; here a name that is not a string stops the
    operation with [TypeError], and what is stated of a stored token is
    stated for names that are strings. *)
Definition set_token (bank_name : value) (c : list byte) : M unit :=
  match bank_name with
  | VStr k => λ m, (Ok tt, {| _tokens := <[k := c]> (_tokens m); trace := trace m |})
  | _ => raise TypeError
  end.

(** *** The token endpoint *)

Record response := {
  status : Z;
  json : result value;      (* await response.json() *)
  text : result string      (* await response.text() *)
}.

Inductive http_outcome : Type :=
| Responds (r : response)
| Fails (e : exn).          (* raised by session.post: time-out, connection *)

(** [session.post(url, data=data, headers=headers)] *)
Definition post (reply : http_outcome) (url : value)
    (data : list (string * value)) : M response :=
  emit (Post url data);;
  match reply with
  | Responds r => ret r
  | Fails e => raise e
  end.

Section WithLibrary.

Context (lib : library).

(** *** Token cipher *)

Definition _encrypt_token (iv : list byte) (token : value) : result (list byte) :=
  match Json.dumps (S (encoder_depth lib)) token with
  | Ok text =>
      let token_str := Utf8.encode text in
      Ok (fernet_encrypt lib iv token_str)
  | Raise e => Raise e
  end.

Definition _decrypt_token (encrypted_token : list byte) : result value :=
  match fernet_decrypt lib encrypted_token with
  | None => Raise InvalidToken
  | Some plain =>
      match Utf8.decode plain with
      | None => Raise UnicodeDecodeError
      | Some token_str =>
          Json.loads (S (decoder_depth lib)) token_str
      end
  end.

(** *** Grants *)

Definition generate_authorization_url (nonce : string)
    (bank_config : list (string * value)) : M (string * string) :=
  let state := nonce in
  let* client_id := item bank_config "client_id" in
  let* redirect_uri := item bank_config "redirect_uri" in
  let params := [("response_type", VStr "code"); ("client_id", client_id);
                 ("redirect_uri", redirect_uri); ("state", VStr state)] in
  let scope := dict_get bank_config "scope" in
  let params := if truthy scope then dict_set params "scope" scope else params in
  let* base := item bank_config "authorization_url" in
  let authorization_url := fmt lib base +:+ "?" +:+ urlencode lib params in
  let* name := item bank_config "name" in
  log INFO ("Generated authorization URL for bank: " +:+ fmt lib name);;
  ret (authorization_url, state).

Definition exchange_code_for_token (reply : http_outcome) (iv : list byte)
    (authorization_code : value) (bank_config : list (string * value))
    (state : string) : M value :=
  let* redirect_uri := item bank_config "redirect_uri" in
  let* client_id := item bank_config "client_id" in
  let* client_secret := item bank_config "client_secret" in
  let token_data := [("grant_type", VStr "authorization_code");
                     ("code", authorization_code);
                     ("redirect_uri", redirect_uri);
                     ("client_id", client_id);
                     ("client_secret", client_secret)] in
  try_except
    (let* token_url := item bank_config "token_url" in
     let* response := post reply token_url token_data in
     if (status response =? 200)%Z then
       let* token_response := lift (json response) in
       let* bank_name := item bank_config "name" in
       let* encrypted_token := lift (_encrypt_token iv token_response) in
       set_token bank_name encrypted_token;;
       log INFO ("Successfully obtained token for " +:+ fmt lib bank_name);;
       ret token_response
     else
       let* error_text := lift (text response) in
       raise (OAuthError ("Token exchange failed: "
                          +:+ Json.encode_int (status response)
                          +:+ " - " +:+ error_text)))
    (λ e,
       match e with
       | TimeoutError => raise (OAuthError "Token exchange timed out")
       | _ =>
           log ERROR ("Token exchange error: " +:+ str_exn lib e);;
           raise (OAuthError ("Token exchange failed: " +:+ str_exn lib e))
       end).

Definition password_grant_for_token (reply : http_outcome) (iv : list byte)
    (bank_config : list (string * value)) : M value :=
  if negb (truthy (dict_get bank_config "username"))
     || negb (truthy (dict_get bank_config "password"))
  then raise (OAuthError "Username/password not provided for password grant")
  else
    let* username := item bank_config "username" in
    let* password := item bank_config "password" in
    let* client_id := item bank_config "client_id" in
    let* client_secret := item bank_config "client_secret" in
    let data := [("grant_type", VStr "password");
                 ("username", username);
                 ("password", password);
                 ("client_id", client_id);
                 ("client_secret", client_secret)] in
    let* token_url := item bank_config "token_url" in
    let* resp := post reply token_url data in
    if (status resp =? 200)%Z then
      let* token_response := lift (json resp) in
      let* bank_name := item bank_config "name" in
      let* encrypted_token := lift (_encrypt_token iv token_response) in
      set_token bank_name encrypted_token;;
      log INFO ("Obtained token via password grant for " +:+ fmt lib bank_name);;
      ret token_response
    else
      let* txt := lift (text resp) in
      raise (OAuthError ("Password grant failed: "
                         +:+ Json.encode_int (status resp) +:+ " - " +:+ txt)).

Definition refresh_token (reply : http_outcome) (iv : list byte)
    (bank_name : string) (bank_config : list (string * value)) : M value :=
  λ m,
    match _tokens m !! bank_name with
    | None => raise (OAuthError ("No stored token found for " +:+ bank_name)) m
    | Some stored =>
        try_except
          (let* current_token := lift (_decrypt_token stored) in
           let* refresh_token := lift (get_method current_token "refresh_token") in
           if negb (truthy refresh_token) then
             raise (OAuthError ("No refresh token available for " +:+ bank_name))
           else
             let* client_id := item bank_config "client_id" in
             let* client_secret := item bank_config "client_secret" in
             let token_data := [("grant_type", VStr "refresh_token");
                                ("refresh_token", refresh_token);
                                ("client_id", client_id);
                                ("client_secret", client_secret)] in
             let* token_url := item bank_config "token_url" in
             let* response := post reply token_url token_data in
             if (status response =? 200)%Z then
               let* token_response := lift (json response) in
               let* encrypted_token := lift (_encrypt_token iv token_response) in
               set_token (VStr bank_name) encrypted_token;;
               log INFO ("Successfully refreshed token for " +:+ bank_name);;
               ret token_response
             else
               let* error_text := lift (text response) in
               raise (OAuthError ("Token refresh failed: "
                                  +:+ Json.encode_int (status response)
                                  +:+ " - " +:+ error_text)))
          (λ e,
             log ERROR ("Token refresh error for " +:+ bank_name +:+ ": "
                        +:+ str_exn lib e);;
             raise (OAuthError ("Token refresh failed: " +:+ str_exn lib e)))
          m
    end.

(** The random parts of the mock token and the entropy of its encryption. *)
Record sim_world := {
  mock_access : string;      (* secrets.token_urlsafe(16) *)
  mock_refresh : string;     (* secrets.token_urlsafe(16) *)
  sim_iv : list byte
}.

Definition simulate_oauth_flow (w : sim_world) (bank_name : value)
    (bank_config : list (string * value)) : M value :=
  log WARNING ("SIMULATION: Simulating OAuth flow for " +:+ fmt lib bank_name
               +:+ " - NOT FOR PRODUCTION");;
  let mock_token :=
    VDict [("access_token", VStr ("mock_access_token_" +:+ mock_access w));
           ("token_type", VStr "Bearer");
           ("expires_in", VInt 3600);
           ("refresh_token", VStr ("mock_refresh_token_" +:+ mock_refresh w));
           ("scope", VStr "accounts transactions balances")] in
  let* encrypted_token := lift (_encrypt_token (sim_iv w) mock_token) in
  set_token bank_name encrypted_token;;
  log INFO ("Mock OAuth token generated for " +:+ fmt lib bank_name);;
  ret mock_token.

(** What the outside does to one authorization-code flow. *)
Record flow_world := {
  nonce : string;                    (* secrets.token_urlsafe(32) *)
  browser : result bool;             (* webbrowser.open(auth_url) *)
  listener : Callback.world;
  token_endpoint : http_outcome;
  flow_iv : list byte
}.

Definition authorization_code_flow (w : flow_world)
    (bank_config app_config : list (string * value)) : M value :=
  let* url_state := generate_authorization_url (nonce w) bank_config in
  let '(auth_url, state) := url_state in
  let* redirect := item bank_config "redirect_uri" in
  let* parsed_hostname := lift (hostname lib redirect) in
  let host := if truthy parsed_hostname then parsed_hostname else VStr "localhost" in
  let* parsed_port := lift (port lib redirect) in
  let port := if truthy parsed_port then parsed_port else VInt 8443 in
  let cert := dict_get app_config "tls_cert_path" in
  let key := dict_get app_config "tls_key_path" in
  if negb (truthy cert) || negb (truthy key) then
    raise (OAuthError "TLS_CERT_PATH/TLS_KEY_PATH must be configured for HTTPS redirect")
  else
    log INFO ("Open this URL to authenticate (copy/paste if it doesn't open automatically): "
              +:+ auth_url);;
    try_except
      (emit (Browser auth_url);;
       let* opened := lift (browser w) in
       if negb opened then
         log WARNING "Couldn't launch a browser automatically. Please copy/paste the URL above into your browser."
       else ret tt)
      (λ e,
         log WARNING ("Browser launch failed: " +:+ str_exn lib e
                      +:+ ". Please copy/paste the URL above into your browser."));;
    emit (Listen host port cert key);;
    let* result :=
      lift (fst (fst (Callback.run_https_callback_server
                        (listener w) host port cert key 120))) in
    let* error := lift (get_method result "error") in
    if truthy error then
      let* description := lift (get_method result "error_description") in
      let shown := if truthy description then description else error in
      raise (OAuthError ("Authorization error: " +:+ fmt lib shown))
    else
      let* code := lift (get_method result "code") in
      if negb (truthy code) then
        raise (OAuthError "No authorization code received")
      else
        exchange_code_for_token (token_endpoint w) (flow_iv w) code bank_config state.

(** *** Token store *)

Definition get_access_token (bank_name : string) : M value :=
  λ m,
    match _tokens m !! bank_name with
    | None => ret VNone m
    | Some stored =>
        try_except
          (let* token_data := lift (_decrypt_token stored) in
           lift (get_method token_data "access_token"))
          (λ e,
             log ERROR ("Error retrieving token for " +:+ bank_name +:+ ": "
                        +:+ str_exn lib e);;
             ret VNone)
          m
    end.

Definition is_token_valid (bank_name : string) : M bool :=
  λ m,
    match _tokens m !! bank_name with
    | None => ret false m
    | Some _ =>
        (let* token := get_access_token bank_name in
         ret (is_not_none token)) m
    end.

(** Two flows that meet the same outside, but for the [state] parameters
    of the requests that reach the listener. *)
Definition differ_in_state_only (w1 w2 : flow_world) : Prop :=
  nonce w1 = nonce w2 ∧ browser w1 = browser w2
  ∧ token_endpoint w1 = token_endpoint w2 ∧ flow_iv w1 = flow_iv w2
  ∧ Callback.setup (listener w1) = Callback.setup (listener w2)
  ∧ Forall2 (Forall2 Callback.same_but_state)
            (Callback.arrivals (listener w1)) (Callback.arrivals (listener w2)).

(** *** The operations that write to the store *)

Inductive operation : Type :=
| Exchange (reply : http_outcome) (iv : list byte) (authorization_code : value)
           (bank_config : list (string * value)) (state : string)
| Password (reply : http_outcome) (iv : list byte)
           (bank_config : list (string * value))
| Refresh (reply : http_outcome) (iv : list byte) (bank_name : string)
          (bank_config : list (string * value))
| Simulate (w : sim_world) (bank_name : value)
           (bank_config : list (string * value)).

Definition perform (op : operation) : M value :=
  match op with
  | Exchange reply iv code bank_config state =>
      exchange_code_for_token reply iv code bank_config state
  | Password reply iv bank_config =>
      password_grant_for_token reply iv bank_config
  | Refresh reply iv bank_name bank_config =>
      refresh_token reply iv bank_name bank_config
  | Simulate w bank_name bank_config =>
      simulate_oauth_flow w bank_name bank_config
  end.

End WithLibrary.

End OAuth.

(** ** Grant selection ([main.py]) *)

Module Main.
Import OAuth.

Record world := {
  flow : flow_world;
  simulation : sim_world
}.

(** The part of [main] that obtains the token, from [config['banks']
    ['primary']] and [config['app']]. *)
Definition main (lib : library) (w : world)
    (primary app_cfg : list (string * value)) : M unit :=
  if truthy (dict_get primary "client_id")
     && truthy (dict_get primary "client_secret")
     && truthy (dict_get app_cfg "tls_cert_path")
     && truthy (dict_get app_cfg "tls_key_path")
  then
    try_except
      (authorization_code_flow lib (flow w) primary app_cfg;; ret tt)
      (λ e,
         log WARNING ("Auth code flow failed (" +:+ str_exn lib e
                      +:+ "); continuing with simulated token for development");;
         let* name := item primary "name" in
         simulate_oauth_flow lib (simulation w) name primary;;
         ret tt)
  else
    let* name := item primary "name" in
    simulate_oauth_flow lib (simulation w) name primary;;
    ret tt.

(** The warning that [simulate_oauth_flow] opens with is among the events. *)
Definition simulated (events : list event) : bool :=
  existsb (λ ev, match ev with
                 | Log WARNING msg => String.prefix "SIMULATION:" msg
                 | _ => false
                 end) events.

Definition listened (events : list event) : bool :=
  existsb (λ ev, match ev with Listen _ _ _ _ => true | _ => false end) events.

End Main.

(** ** A library to run the model with

    A reversible stand-in for the cipher (a version byte, one byte of the
    IV, the plaintext reversed) and constant stand-ins for the rest. *)

Module Demo.

Definition encrypt (iv plain : list byte) : list byte :=
  x80 :: hd x00 iv :: rev plain.

Definition decrypt (c : list byte) : option (list byte) :=
  match c with
  | x80 :: _ :: body => Some (rev body)
  | _ => None
  end.

Definition lib : OAuth.library := {|
  OAuth.fernet_encrypt := encrypt;
  OAuth.fernet_decrypt := decrypt;
  OAuth.urlencode := λ _, "response_type=code";
  OAuth.hostname := λ _, Ok (VStr "localhost");
  OAuth.port := λ _, Ok (VInt 8443);
  OAuth.repr := λ _, "<value>";
  OAuth.str_exn := λ _, "<exception>";
  OAuth.encoder_depth := 990;
  OAuth.decoder_depth := 990
|}.

End Demo.

(** ** The step of the bank connector that looks for a token
    ([src/data/bank_connector.py]) *)

Module Connector.
Import OAuth.

(** [bank_config.get('name') or bank_name] *)
Definition token_key (bank_name : string) (bank_config : list (string * value))
    : value :=
  let name := dict_get bank_config "name" in
  if truthy name then name else VStr bank_name.

(** [BankConnector._ensure_valid_token].  As in [set_token], the key is
    taken to be a string: Python goes on with any hashable key, the model
    stops at another one with [TypeError]. *)
Definition _ensure_valid_token (lib : library) (w : sim_world)
    (bank_name : string) (bank_config : list (string * value)) : M unit :=
  match token_key bank_name bank_config with
  | VStr key =>
      let* valid := is_token_valid lib key in
      if negb valid then
        log INFO ("No valid token found for " +:+ key +:+ " (bank '"
                  +:+ bank_name +:+ "'), initiating OAuth flow...");;
        simulate_oauth_flow lib w (VStr key) bank_config;;
        ret tt
      else ret tt
  | _ => raise TypeError
  end.

(** [BankConnector.connect_all_accounts].  [_fetch_accounts] is taken as it
    comes: its result or exception and what it does to the manager.
    [draws] gives the random parts of the simulated grant of each bank. *)
Section Accounts.

Context {account : Type} (lib : library).
Context (_fetch_accounts : string → list (string * value) → M (list account)).
Context (draws : string → sim_world).

(** [all_accounts[bank_name]] and [all_accounts[bank_name] = accounts] *)
Fixpoint accounts_of (all : list (string * list account)) (bank_name : string)
    : option (list account) :=
  match all with
  | [] => None
  | (k, v) :: rest => if String.eqb k bank_name then Some v else accounts_of rest bank_name
  end.

Fixpoint set_accounts (all : list (string * list account)) (bank_name : string)
    (accounts : list account) : list (string * list account) :=
  match all with
  | [] => [(bank_name, accounts)]
  | (k, v) :: rest =>
      if String.eqb k bank_name then (k, accounts) :: rest
      else (k, v) :: set_accounts rest bank_name accounts
  end.

(** One round of the loop: the [try] block and its handler. *)
Definition connect_bank (all : list (string * list account)) (bank_name : string)
    (bank_config : value) : M (list (string * list account)) :=
  try_except
    (log INFO ("Connecting to " +:+ bank_name +:+ "...");;
     let* config :=
       match bank_config with
       | VDict d => ret d
       | _ => raise AttributeError           (* bank_config.get *)
       end in
     _ensure_valid_token lib (draws bank_name) bank_name config;;
     let* accounts := _fetch_accounts bank_name config in
     log INFO ("Successfully connected to " +:+ bank_name +:+ ", found "
               +:+ repr lib (VInt (Z.of_nat (length accounts))) +:+ " accounts");;
     ret (set_accounts all bank_name accounts))
    (λ e,
       log ERROR ("Failed to connect to " +:+ bank_name +:+ ": " +:+ str_exn lib e);;
       ret (set_accounts all bank_name [])).

Fixpoint connect_banks (banks : list (string * value))
    (all : list (string * list account)) : M (list (string * list account)) :=
  match banks with
  | [] => ret all
  | (bank_name, bank_config) :: rest =>
      let* all' := connect_bank all bank_name bank_config in
      connect_banks rest all'
  end.

Definition connect_all_accounts (banks_config : list (string * value))
    : M (list (string * list account)) :=
  log INFO "Connecting to all configured banks...";;
  let* all_accounts := connect_banks banks_config [] in
  let total_accounts :=
    fold_right (λ kv n, length (snd kv) + n) 0 all_accounts in
  log INFO ("Connected to " +:+ repr lib (VInt (Z.of_nat (length all_accounts)))
            +:+ " banks, total accounts: "
            +:+ repr lib (VInt (Z.of_nat total_accounts)));;
  ret all_accounts.

End Accounts.

End Connector.

(** ** Configuration ([config/settings.py]) *)

Module Settings.
Import OAuth.

(** What [load_config] takes from Python itself. *)
Record platform := {
  int_of_str : string → option Z;     (* int(s); None for the ValueError *)
  lower : string → string             (* s.lower() *)
}.

(** What [load_config] finds outside. *)
Record world := {
  dotenv : option string;             (* the path of the .env file, if it exists *)
  environ : gmap string string;       (* os.environ once load_dotenv has run *)
  token_hex : string                  (* secrets.token_hex(32) *)
}.

(** [os.getenv(k)] and [os.getenv(k, default)] *)
Definition getenv (w : world) (k : string) : value :=
  match environ w !! k with
  | Some s => VStr s
  | None => VNone
  end.

Definition getenv_or (w : world) (k : string) (default : value) : value :=
  match environ w !! k with
  | Some s => VStr s
  | None => default
  end.

(** [int(v)] for a string or an int *)
Definition int (p : platform) (v : value) : M value :=
  match v with
  | VInt n => ret (VInt n)
  | VBool b => ret (VInt (if b then 1 else 0))
  | VStr s =>
      match int_of_str p s with
      | Some n => ret (VInt n)
      | None => raise ValueError
      end
  | _ => raise TypeError
  end.

(** [v[k]] for a value that should be a dict *)
Definition at_key (v : value) (k : string) : M value :=
  match v with
  | VDict d => item d k
  | _ => raise TypeError
  end.

(** [config['banks']['primary'][k]] *)
Definition primary_item (config : value) (k : string) : M value :=
  let* banks := at_key config "banks" in
  let* primary := at_key banks "primary" in
  at_key primary k.

Definition _validate_config (config : value) : M unit :=
  let* client_id := primary_item config "client_id" in
  let* missing :=
    (if negb (truthy client_id) then ret true
     else
       let* client_secret := primary_item config "client_secret" in
       ret (negb (truthy client_secret))) in
  (if (missing : bool) then
     log WARNING "BANK_CLIENT_ID/SECRET not set. Will use simulated OAuth unless sandbox username/password are provided."
   else ret tt);;
  let* api_base_url := primary_item config "api_base_url" in
  if negb (truthy api_base_url) then raise ValueError
  else log INFO "Configuration validation completed".

Definition sandbox_api_base : string :=
  "https://api-sandbox.commerzbank.com/securities-api/v4".
Definition sandbox_auth_url : string :=
  "https://api-sandbox.commerzbank.com/auth/realms/sandbox/protocol/openid-connect/auth".
Definition sandbox_token_url : string :=
  "https://api-sandbox.commerzbank.com/auth/realms/sandbox/protocol/openid-connect/token".

(** [config['banks']['primary']] as the dict display of [load_config]
    builds it. *)
Definition primary_of (w : world) : list (string * value) :=
  [("name", getenv_or w "BANK_NAME" (VStr "commerzbank_sandbox"));
   ("client_id", getenv w "BANK_CLIENT_ID");
   ("client_secret", getenv w "BANK_CLIENT_SECRET");
   ("redirect_uri", getenv_or w "BANK_REDIRECT_URI"
                      (VStr "https://localhost:8443/callback"));
   ("api_base_url", getenv_or w "BANK_API_BASE_URL" (VStr sandbox_api_base));
   ("authorization_url", getenv_or w "BANK_AUTH_URL" (VStr sandbox_auth_url));
   ("token_url", getenv_or w "BANK_TOKEN_URL" (VStr sandbox_token_url));
   ("scope", getenv_or w "BANK_SCOPE" (VStr ""));
   ("username", getenv w "BANK_USERNAME");
   ("password", getenv w "BANK_PASSWORD");
   ("api_type", getenv_or w "BANK_API_TYPE" (VStr "commerzbank_securities"))].

(** [os.getenv('DEBUG', 'False').lower() == 'true'] *)
Definition debug_of (p : platform) (w : world) : bool :=
  String.eqb
    (lower p (match environ w !! "DEBUG" with Some s => s | None => "False" end))
    "true".

Definition load_config (p : platform) (w : world) : M value :=
  match dotenv w with
  | Some env_path => log INFO ("Loaded configuration from " +:+ env_path)
  | None => log WARNING "No .env file found, using environment variables only"
  end;;
  let* timeout := int p (getenv_or w "OAUTH_TIMEOUT" (VInt 30)) in
  let* retry_attempts := int p (getenv_or w "OAUTH_RETRY_ATTEMPTS" (VInt 3)) in
  let* data_refresh_interval :=
    int p (getenv_or w "DATA_REFRESH_INTERVAL" (VInt 300)) in
  let app :=
    [("debug", VBool (debug_of p w));
     ("log_level", getenv_or w "LOG_LEVEL" (VStr "INFO"));
     ("console_output_format", getenv_or w "CONSOLE_OUTPUT_FORMAT" (VStr "table"));
     ("data_refresh_interval", data_refresh_interval);
     ("tls_cert_path", getenv_or w "TLS_CERT_PATH" (VStr ""));
     ("tls_key_path", getenv_or w "TLS_KEY_PATH" (VStr ""))] in
  let secret_key := getenv w "SECRET_KEY" in
  let* secret_key :=
    (if negb (truthy secret_key) then
       log WARNING "No SECRET_KEY found; generated an ephemeral key for this run.";;
       ret (VStr (token_hex w))
     else ret secret_key) in
  let config :=
    VDict [("oauth", VDict [("timeout", timeout);
                            ("retry_attempts", retry_attempts)]);
           ("banks", VDict [("primary", VDict (primary_of w))]);
           ("security", VDict [("secret_key", secret_key);
                               ("token_encryption_key",
                                getenv w "TOKEN_ENCRYPTION_KEY")]);
           ("app", VDict app)] in
  _validate_config config;;
  ret config.

(** [get_bank_config]: [config['banks'].get(bank_name)] *)
Definition get_bank_config (bank_name : string) (config : value) : M value :=
  let* banks := at_key config "banks" in
  lift (get_method banks bank_name).

End Settings.

(** ** The decoder reads back what the encoder writes *)

Module JsonFacts.
Import Json.

#[local] Arguments String.append !_ _ : simpl nomatch.

Lemma append_assoc (a b c : string) : (a +:+ b) +:+ c = a +:+ (b +:+ c).
Proof. induction a as [|x a IH]; simpl; congruence. Qed.

Lemma length_append (a b : string) :
  String.length (a +:+ b) = String.length a + String.length b.
Proof. induction a as [|x a IH]; simpl; congruence. Qed.

(** Strings *)

Lemma scan_escape_char (c : ascii) (r : string) :
  scan_string (escape_char c +:+ r) = cons_char c (scan_string r).
Proof.
  destruct c as [[|] [|] [|] [|] [|] [|] [|] [|]]; reflexivity.
Qed.

Lemma scan_escape (s rest : string) :
  scan_string (escape s +:+ String dquote rest) = Some (s, rest).
Proof.
  induction s as [|c s IH]; cbn [escape].
  - reflexivity.
  - rewrite append_assoc, scan_escape_char, IH. reflexivity.
Qed.

Lemma scan_encode_str (s rest : string) :
  ∃ body, encode_str s +:+ rest = String dquote body
          ∧ scan_string body = Some (s, rest).
Proof.
  exists (escape s +:+ String dquote rest). split.
  - unfold encode_str. simpl. now rewrite append_assoc.
  - apply scan_escape.
Qed.


(** Integers *)

(** What follows a value inside a document: its end, or one of [,] []] [}]. *)
Definition closes (rest : string) : bool :=
  match rest with
  | EmptyString => true
  | String c _ => (c =? ",")%char || (c =? "]")%char || (c =? "}")%char
  end.

Lemma closes_cases (rest : string) :
  closes rest = true →
  rest = "" ∨ ∃ r, rest = String "," r ∨ rest = String "]" r ∨ rest = String "}" r.
Proof.
  destruct rest as [|c r]; [now left | right]. exists r. simpl in H.
  apply orb_true_iff in H as [H | H]; [apply orb_true_iff in H as [H | H] |];
    apply Ascii.eqb_eq in H; subst; auto.
Qed.

Ltac closes_split H :=
  apply closes_cases in H as [-> | [? [-> | [-> | ->]]]].

Lemma read_digits_uint (d : Decimal.uint) (rest : string) :
  closes rest = true →
  read_digits (NilEmpty.string_of_uint d +:+ rest) = (d, rest).
Proof.
  intros H. induction d; simpl; try (rewrite IHd; reflexivity).
  closes_split H; reflexivity.
Qed.

(** The first digit of a positive number is not [0]. *)
Definition leading (d : Decimal.uint) : bool :=
  match d with
  | Decimal.Nil | Decimal.D0 _ => false
  | _ => true
  end.

Lemma nzhead_leading (d : Decimal.uint) :
  Decimal.nzhead d = Decimal.Nil ∨ leading (Decimal.nzhead d) = true.
Proof. induction d; simpl; auto. Qed.

Lemma to_uint_leading (p : positive) : leading (Pos.to_uint p) = true.
Proof.
  assert (Hn : Decimal.unorm (Pos.to_uint p) = Pos.to_uint p).
  { rewrite <- DecimalPos.Unsigned.to_of, DecimalPos.Unsigned.of_to. reflexivity. }
  pose proof (DecimalPos.Unsigned.to_uint_nonzero p) as Hz.
  revert Hn Hz. generalize (Pos.to_uint p) as d. intros d Hn Hz.
  unfold Decimal.unorm in Hn.
  destruct (nzhead_leading d) as [E | E].
  - rewrite E in Hn. congruence.
  - destruct (Decimal.nzhead d) eqn:Hd; simpl in E; try discriminate;
      rewrite <- Hn; reflexivity.
Qed.

Lemma scan_unsigned_uint (d : Decimal.uint) (rest : string) :
  leading d = true → closes rest = true →
  scan_unsigned (NilEmpty.string_of_uint d +:+ rest) = Some (d, rest).
Proof.
  intros Hl Hc. pose proof (read_digits_uint d rest Hc) as Hr.
  destruct d; try discriminate; simpl in *;
    destruct (read_digits _) as [d' r'] eqn:E; injection Hr as <- <-; reflexivity.
Qed.

Lemma string_of_leading (d : Decimal.uint) :
  leading d = true →
  NilZero.string_of_uint d = NilEmpty.string_of_uint d
  ∧ ∃ c r, NilEmpty.string_of_uint d = String c r ∧ (c =? "-")%char = false.
Proof. destruct d; try discriminate; intros _; simpl; eauto. Qed.

Lemma float_follows_closes (rest : string) :
  closes rest = true → float_follows rest = false.
Proof. intros H. closes_split H; reflexivity. Qed.

Lemma scan_number_int (n : Z) (rest : string) :
  closes rest = true → too_long (int_digits n) = false →
  scan_number (encode_int n +:+ rest) = Ok (n, rest).
Proof.
  intros Hc Hd. unfold encode_int. unfold int_digits in Hd. unfold Z.to_int in *.
  destruct n as [|p|p].
  - simpl. unfold scan_number. simpl. now rewrite float_follows_closes.
  - pose proof (to_uint_leading p) as Hl.
    destruct (string_of_leading _ Hl) as [E (c & r & Er & Hm)].
    assert (Hs : NilEmpty.string_of_uint (Pos.to_uint p) +:+ rest
                 = String c (r +:+ rest)) by now rewrite Er.
    unfold NilZero.string_of_int. rewrite E. unfold scan_number.
    rewrite Hs, Hm, <- Hs.
    rewrite scan_unsigned_uint by assumption.
    rewrite float_follows_closes by assumption. rewrite Hd.
    unfold Z.of_uint. now rewrite DecimalPos.Unsigned.of_to.
  - pose proof (to_uint_leading p) as Hl.
    destruct (string_of_leading _ Hl) as [E _].
    unfold NilZero.string_of_int. rewrite E. unfold scan_number. simpl.
    rewrite scan_unsigned_uint by assumption.
    rewrite float_follows_closes by assumption. rewrite Hd.
    unfold Z.of_uint. now rewrite DecimalPos.Unsigned.of_to.
Qed.


(** Values *)

(** A bound on the depth of the decoder's recursion on [encode v]. *)
Fixpoint weight (v : value) : nat :=
  match v with
  | VList l => S (list_sum (map (λ x, S (weight x)) l))
  | VDict d => S (list_sum (map (λ kv, S (weight (snd kv))) d))
  | _ => 1
  end.

(** The first character of an encoded value: no white space, no bracket
    that would close the enclosing list. *)
Definition opens (s : string) : bool :=
  match s with
  | String c _ => negb (is_ws c) && negb (c =? "]")%char
  | EmptyString => false
  end.

Definition number_head (s : string) : bool :=
  match s with
  | String c _ => (c =? "-")%char || match digit c with Some _ => true | None => false end
  | EmptyString => false
  end.

Lemma number_head_opens (s : string) : number_head s = true → opens s = true.
Proof.
  destruct s as [|c r]; [discriminate |].
  destruct c as [[|] [|] [|] [|] [|] [|] [|] [|]]; simpl; intros H;
    try discriminate; reflexivity.
Qed.

Lemma parse_value_number (fuel depth : nat) (s : string) :
  number_head s = true →
  parse_value (S fuel) depth s =
    match scan_number s with
    | Ok (n, r) => Ok (VInt n, r)
    | Raise e => Raise e
    end.
Proof.
  destruct s as [|c r]; [discriminate |].
  destruct c as [[|] [|] [|] [|] [|] [|] [|] [|]]; simpl; intros H;
    try discriminate; reflexivity.
Qed.

Lemma encode_int_head (n : Z) (rest : string) :
  number_head (encode_int n +:+ rest) = true.
Proof.
  unfold encode_int, Z.to_int. destruct n as [|p|p]; try reflexivity.
  pose proof (to_uint_leading p) as Hl. unfold NilZero.string_of_int, NilZero.string_of_uint.
  destruct (Pos.to_uint p); try discriminate; reflexivity.
Qed.

Lemma encode_str_opens (s rest : string) : opens (encode_str s +:+ rest) = true.
Proof. reflexivity. Qed.

Lemma encode_opens (v : value) (rest : string) : opens (encode v +:+ rest) = true.
Proof.
  destruct v as [| [|] | n | s | [|x l] | [|[k x] d]]; try reflexivity.
  apply number_head_opens, encode_int_head.
Qed.

Lemma skip_ws_opens (s : string) : opens s = true → skip_ws s = s.
Proof.
  destruct s as [|c r]; [reflexivity |]. simpl.
  destruct (is_ws c); [discriminate | reflexivity].
Qed.

Lemma skip_ws_comma (s : string) : skip_ws (String "," s) = String "," s.
Proof. reflexivity. Qed.

Lemma skip_ws_space (s : string) : skip_ws (String " " s) = skip_ws s.
Proof. reflexivity. Qed.

Lemma skip_ws_closes (s : string) : closes s = true → skip_ws s = s.
Proof. intros H. closes_split H; reflexivity. Qed.

Lemma closes_items (l : list value) (rest : string) :
  closes (encode_items l +:+ rest) = true.
Proof. destruct l; reflexivity. Qed.

Lemma closes_members (d : list (string * value)) (rest : string) :
  closes (encode_members d +:+ rest) = true.
Proof. destruct d as [|[k x] d]; reflexivity. Qed.

Lemma encode_list (x : value) (l : list value) :
  encode (VList (x :: l)) = "[" +:+ encode x +:+ encode_items l.
Proof. reflexivity. Qed.

Lemma encode_dict (k : string) (x : value) (d : list (string * value)) :
  encode (VDict ((k, x) :: d))
  = "{" +:+ encode_str k +:+ ": " +:+ encode x +:+ encode_members d.
Proof. reflexivity. Qed.

Lemma parse_value_list (fuel depth : nat) (s : string) :
  opens s = true →
  parse_value (S fuel) (S depth) (String "[" s) =
    match parse_items fuel depth s with
    | Ok (l, r) => Ok (VList l, r)
    | Raise e => Raise e
    end.
Proof.
  intros H. cbn [parse_value]. simpl Ascii.eqb. cbv iota.
  rewrite (skip_ws_opens s H). destruct s as [|c r]; [discriminate |].
  simpl in H. apply andb_true_iff in H as [_ H].
  apply negb_true_iff in H. rewrite H. reflexivity.
Qed.

Lemma parse_value_dict (fuel depth : nat) (s : string) :
  parse_value (S fuel) (S depth) (String "{" (String dquote s)) =
    match parse_members fuel depth s with
    | Ok (pairs, r) => Ok (VDict (dict_of_pairs pairs), r)
    | Raise e => Raise e
    end.
Proof. reflexivity. Qed.

Lemma parse_items_step (fuel depth : nat) (s : string) :
  parse_items (S fuel) depth s =
    match parse_value fuel depth s with
    | Ok (v, r) =>
        match skip_ws r with
        | String c r1 =>
            if (c =? "]")%char then Ok ([v], r1)
            else if (c =? ",")%char then
              match parse_items fuel depth (skip_ws r1) with
              | Ok (l, r') => Ok (v :: l, r')
              | Raise e => Raise e
              end
            else Raise JSONDecodeError
        | EmptyString => Raise JSONDecodeError
        end
    | Raise e => Raise e
    end.
Proof. reflexivity. Qed.

Lemma parse_members_step (fuel depth : nat) (s : string) :
  parse_members (S fuel) depth s =
    match scan_string s with
    | Some (k, r) =>
        match skip_ws r with
        | String c r1 =>
            if (c =? ":")%char then
              match parse_value fuel depth (skip_ws r1) with
              | Ok (v, r2) =>
                  match skip_ws r2 with
                  | String c2 r3 =>
                      if (c2 =? "}")%char then Ok ([(k, v)], r3)
                      else if (c2 =? ",")%char then
                        match skip_ws r3 with
                        | String c3 r4 =>
                            if (c3 =? dquote)%char then
                              match parse_members fuel depth r4 with
                              | Ok (m, r') => Ok ((k, v) :: m, r')
                              | Raise e => Raise e
                              end
                            else Raise JSONDecodeError
                        | EmptyString => Raise JSONDecodeError
                        end
                      else Raise JSONDecodeError
                  | EmptyString => Raise JSONDecodeError
                  end
              | Raise e => Raise e
              end
            else Raise JSONDecodeError
        | EmptyString => Raise JSONDecodeError
        end
    | None => Raise JSONDecodeError
    end.
Proof. reflexivity. Qed.

(** The ints of the value are short enough to be written and read. *)
Fixpoint fits (v : value) : bool :=
  match v with
  | VInt n => negb (too_long (int_digits n))
  | VList l => forallb fits l
  | VDict d => forallb (λ kv, fits (snd kv)) d
  | _ => true
  end.

(** The lists and dicts of the value, one inside the other. *)
Fixpoint nesting (v : value) : nat :=
  match v with
  | VList l => S (list_max (map nesting l))
  | VDict d => S (list_max (map (λ kv, nesting (snd kv)) d))
  | _ => 0
  end.

(** What the induction proves of one value. *)
Definition reads_back (v : value) : Prop :=
  ∀ fuel depth rest, weight v ≤ fuel → nesting v ≤ depth → closes rest = true →
    parse_value fuel depth (encode v +:+ rest) = Ok (v, rest).

Lemma parse_items_encode (l : list value) :
  Forall reads_back l →
  ∀ x fuel depth rest, reads_back x →
    S (weight x) + list_sum (map (λ y, S (weight y)) l) ≤ fuel →
    list_max (map nesting (x :: l)) ≤ depth →
    parse_items fuel depth (encode x +:+ encode_items l +:+ rest) = Ok (x :: l, rest).
Proof.
  induction 1 as [|y l Hy Hl IH]; intros x fuel depth rest Hx Hf Hd;
    cbn [map list_max fold_right] in Hd.
  - destruct fuel as [|fuel]; [simpl in Hf; lia |].
    rewrite parse_items_step, Hx; [reflexivity | simpl in Hf; lia | lia | reflexivity].
  - destruct fuel as [|fuel]; [simpl in Hf; lia |].
    change (list_sum (map ?f (y :: l))) with (f y + list_sum (map f l)) in Hf.
    cbv beta in Hf.
    rewrite parse_items_step, Hx; [| lia | lia | apply closes_items].
    cbn [encode_items]. simpl String.append.
    rewrite skip_ws_comma. simpl Ascii.eqb. cbv beta iota.
    rewrite skip_ws_space, append_assoc, (skip_ws_opens _ (encode_opens y _)).
    rewrite (IH y fuel depth rest Hy); [reflexivity | lia |].
    cbn [map list_max fold_right]. lia.
Qed.


Lemma skip_ws_colon (s : string) : skip_ws (String ":" s) = String ":" s.
Proof. reflexivity. Qed.

Lemma skip_ws_dquote (s : string) : skip_ws (String dquote s) = String dquote s.
Proof. reflexivity. Qed.

Lemma value_text (x : value) (rest : string) :
  ": " +:+ encode x +:+ rest = String ":" (String " " (encode x +:+ rest)).
Proof. reflexivity. Qed.

Lemma members_text (k : string) (y : value) (d : list (string * value)) (rest : string) :
  encode_members ((k, y) :: d) +:+ rest
  = String "," (String " " (String dquote
      (escape k +:+ String dquote (": " +:+ encode y +:+ encode_members d +:+ rest)))).
Proof.
  cbn [encode_members]. unfold encode_str.
  repeat (rewrite ?append_assoc; simpl String.append). reflexivity.
Qed.

Lemma dict_text (k : string) (x : value) (d : list (string * value)) (rest : string) :
  encode (VDict ((k, x) :: d)) +:+ rest
  = String "{" (String dquote
      (escape k +:+ String dquote (": " +:+ encode x +:+ encode_members d +:+ rest))).
Proof.
  rewrite encode_dict. unfold encode_str.
  repeat (rewrite ?append_assoc; simpl String.append). reflexivity.
Qed.

Lemma parse_members_encode (d : list (string * value)) :
  Forall (λ kv, reads_back (snd kv)) d →
  ∀ k x fuel depth rest, reads_back x →
    S (weight x) + list_sum (map (λ kv, S (weight (snd kv))) d) ≤ fuel →
    list_max (map (λ kv, nesting (snd kv)) ((k, x) :: d)) ≤ depth →
    parse_members fuel depth
      (escape k +:+ String dquote (": " +:+ encode x +:+ encode_members d +:+ rest))
    = Ok ((k, x) :: d, rest).
Proof.
  induction 1 as [|[k' y] d Hy Hd IH]; intros k x fuel depth rest Hx Hf Hn;
    cbn [map list_max fold_right snd] in Hn;
    (destruct fuel as [|fuel]; [simpl in Hf; lia |]);
    rewrite parse_members_step, scan_escape, value_text;
    rewrite skip_ws_colon; simpl Ascii.eqb; cbv beta iota;
    rewrite skip_ws_space, (skip_ws_opens _ (encode_opens x _)).
  - rewrite Hx; [reflexivity | simpl in Hf; lia | lia | reflexivity].
  - change (list_sum (map ?f ((k', y) :: d))) with (f (k', y) + list_sum (map f d)) in Hf.
    cbv beta in Hf. cbn [snd] in Hf, Hy.
    rewrite Hx; [| lia | lia | apply closes_members].
    rewrite members_text, skip_ws_comma. simpl Ascii.eqb. cbv beta iota.
    rewrite skip_ws_space, skip_ws_dquote. simpl Ascii.eqb. cbv beta iota.
    rewrite (IH k' y fuel depth rest Hy); [reflexivity | lia |].
    cbn [map list_max fold_right snd]. lia.
Qed.

(** [dict(pairs)] of pairs with distinct keys is the pairs. *)
Lemma mem_key_app (k : string) (a b : list (string * value)) :
  mem_key k (a ++ b) = mem_key k a || mem_key k b.
Proof.
  induction a as [|[k' v'] a IH]; simpl; [reflexivity |].
  now rewrite IH, orb_assoc.
Qed.

Lemma unique_keys_middle (acc : list (string * value)) k v d :
  unique_keys (acc ++ (k, v) :: d) = true → mem_key k acc = false.
Proof.
  induction acc as [|[k0 v0] acc IH]; simpl; [reflexivity |].
  intros H. apply andb_true_iff in H as [H1 H2].
  rewrite (IH H2), orb_false_r.
  apply negb_true_iff in H1. rewrite mem_key_app in H1. simpl in H1.
  apply orb_false_iff in H1 as [_ H1]. apply orb_false_iff in H1 as [H1 _].
  now rewrite String.eqb_sym.
Qed.

Lemma dict_set_fresh (acc : list (string * value)) k v :
  mem_key k acc = false → dict_set acc k v = acc ++ [(k, v)].
Proof.
  induction acc as [|[k0 v0] acc IH]; simpl; [reflexivity |].
  intros H. apply orb_false_iff in H as [H1 H2]. now rewrite H1, IH.
Qed.

Lemma fold_dict_set_unique (d acc : list (string * value)) :
  unique_keys (acc ++ d) = true →
  fold_left (λ m kv, dict_set m (fst kv) (snd kv)) d acc = acc ++ d.
Proof.
  revert acc. induction d as [|[k v] d IH]; intros acc H; simpl.
  - now rewrite app_nil_r.
  - rewrite (dict_set_fresh acc k v (unique_keys_middle acc k v d H)).
    rewrite IH; rewrite <- app_assoc; [reflexivity | exact H].
Qed.

Lemma dict_of_pairs_unique (d : list (string * value)) :
  unique_keys d = true → dict_of_pairs d = d.
Proof. intros H. apply (fold_dict_set_unique d [] H). Qed.

Definition sound (v : value) : bool := well_formed v && fits v.

Lemma forallb_reads_back (l : list value) :
  Forall (λ v, sound v = true → reads_back v) l →
  forallb well_formed l = true → forallb fits l = true → Forall reads_back l.
Proof.
  induction 1 as [|x l Hx Hl IH]; simpl; intros H F; constructor;
    apply andb_true_iff in H as [H1 H2]; apply andb_true_iff in F as [F1 F2];
    [apply Hx; unfold sound; now rewrite H1, F1 | auto].
Qed.

Lemma forallb_reads_back_snd (d : list (string * value)) :
  Forall (λ kv, sound (snd kv) = true → reads_back (snd kv)) d →
  forallb (λ kv, well_formed (snd kv)) d = true →
  forallb (λ kv, fits (snd kv)) d = true →
  Forall (λ kv, reads_back (snd kv)) d.
Proof.
  induction 1 as [|x l Hx Hl IH]; simpl; intros H F; constructor;
    apply andb_true_iff in H as [H1 H2]; apply andb_true_iff in F as [F1 F2];
    [apply Hx; unfold sound; now rewrite H1, F1 | auto].
Qed.

(** The decoder, given the encoding of [v], fuel for its size and room for
    its nesting, returns [v] and the input that follows. *)
Lemma parse_value_encode (v : value) : sound v = true → reads_back v.
Proof.
  induction v as [| b | n | s | l IH | d IH] using value_nested_ind;
    intros Hs fuel depth rest Hf Hn Hc;
    apply andb_true_iff in Hs as [Hwf Hfit];
    (destruct fuel as [|fuel]; [simpl in Hf; lia |]).
  - reflexivity.
  - destruct b; reflexivity.
  - cbn [encode]. rewrite parse_value_number by apply encode_int_head.
    cbn [fits] in Hfit. apply negb_true_iff in Hfit.
    now rewrite scan_number_int.
  - cbn [encode]. destruct (scan_encode_str s rest) as (body & -> & Hb).
    cbn [parse_value]. simpl Ascii.eqb. cbv beta iota. now rewrite Hb.
  - cbn [nesting] in Hn. destruct depth as [|depth]; [lia |].
    destruct l as [|x l]; [reflexivity |].
    apply List.Forall_cons_iff in IH as [Hx Hl].
    cbn [well_formed forallb] in Hwf. apply andb_true_iff in Hwf as [Wx Wl].
    cbn [fits forallb] in Hfit. apply andb_true_iff in Hfit as [Fx Fl].
    rewrite encode_list. simpl String.append. rewrite append_assoc.
    rewrite parse_value_list by apply encode_opens.
    rewrite (parse_items_encode l (forallb_reads_back l Hl Wl Fl) x fuel depth rest);
      [reflexivity | apply Hx; unfold sound; now rewrite Wx, Fx | | lia].
    cbn [weight] in Hf.
    change (list_sum (map ?f (x :: l))) with (f x + list_sum (map f l)) in Hf.
    cbv beta in Hf. lia.
  - cbn [nesting] in Hn. destruct depth as [|depth]; [lia |].
    destruct d as [|[k x] d]; [reflexivity |].
    apply List.Forall_cons_iff in IH as [Hx Hd]. cbn [snd] in Hx.
    pose proof Hwf as Hu. cbn [well_formed] in Hu.
    apply andb_true_iff in Hu as [Hu Wd].
    cbn [forallb snd] in Wd. apply andb_true_iff in Wd as [Wx Wd].
    cbn [fits forallb snd] in Hfit. apply andb_true_iff in Hfit as [Fx Fd].
    rewrite dict_text, parse_value_dict.
    rewrite (parse_members_encode d (forallb_reads_back_snd d Hd Wd Fd) k x fuel depth rest).
    + now rewrite dict_of_pairs_unique.
    + apply Hx. unfold sound. now rewrite Wx, Fx.
    + cbn [weight] in Hf.
      change (list_sum (map ?f ((k, x) :: d))) with (f (k, x) + list_sum (map f d)) in Hf.
      cbv beta in Hf. cbn [snd] in Hf. lia.
    + lia.
Qed.


(** The input is long enough to serve as the fuel. *)
Lemma encode_nonempty (v : value) : 1 ≤ String.length (encode v).
Proof.
  pose proof (encode_opens v "") as H.
  destruct (encode v); [discriminate | simpl; lia].
Qed.

Lemma length_items (l : list value) :
  Forall (λ v, weight v ≤ String.length (encode v)) l →
  1 + list_sum (map (λ y, S (weight y)) l) ≤ String.length (encode_items l).
Proof.
  induction 1 as [|y l Hy Hl IH]; [simpl; lia |].
  cbn [encode_items]. rewrite !length_append.
  change (list_sum (map ?f (y :: l))) with (f y + list_sum (map f l)).
  cbv beta. simpl String.length. lia.
Qed.

Lemma length_members (d : list (string * value)) :
  Forall (λ kv, weight (snd kv) ≤ String.length (encode (snd kv))) d →
  1 + list_sum (map (λ kv, S (weight (snd kv))) d) ≤ String.length (encode_members d).
Proof.
  induction 1 as [|[k y] d Hy Hd IH]; [simpl; lia |].
  cbn [encode_members]. rewrite !length_append.
  change (list_sum (map ?f ((k, y) :: d))) with (f (k, y) + list_sum (map f d)).
  cbv beta. cbn [snd] in *. simpl String.length. lia.
Qed.

Lemma weight_le_length (v : value) : weight v ≤ String.length (encode v).
Proof.
  induction v as [| b | n | s | l IH | d IH] using value_nested_ind;
    try apply (encode_nonempty _).
  - destruct l as [|x l]; [simpl; lia |].
    apply List.Forall_cons_iff in IH as [Hx Hl]. apply length_items in Hl.
    rewrite encode_list, !length_append. cbn [weight].
    change (list_sum (map ?f (x :: l))) with (f x + list_sum (map f l)).
    cbv beta. simpl String.length. lia.
  - destruct d as [|[k x] d]; [simpl; lia |].
    apply List.Forall_cons_iff in IH as [Hx Hd]. apply length_members in Hd.
    rewrite encode_dict, !length_append. cbn [weight].
    change (list_sum (map ?f ((k, x) :: d))) with (f (k, x) + list_sum (map f d)).
    cbv beta. cbn [snd] in *. simpl String.length. lia.
Qed.

Lemma append_empty (s : string) : s +:+ "" = s.
Proof. induction s as [|c s IH]; simpl; congruence. Qed.

(** The decoder reads the text of [v] back, given room for its nesting. *)
Lemma loads_encode (v : value) (depth : nat) :
  well_formed v = true → fits v = true → nesting v ≤ depth →
  loads depth (encode v) = Ok v.
Proof.
  intros Hwf Hfit Hn. unfold loads.
  pose proof (encode_opens v "") as Ho. rewrite append_empty in Ho.
  rewrite (skip_ws_opens _ Ho).
  assert (Hs : sound v = true) by (unfold sound; now rewrite Hwf, Hfit).
  pose proof (parse_value_encode v Hs (String.length (encode v)) depth ""
                (weight_le_length v) Hn eq_refl) as H.
  rewrite append_empty in H. now rewrite H.
Qed.

(** More room for nesting does not change what the decoder returns. *)
Lemma parse_value_step (fuel depth : nat) (c : ascii) (r : string) :
  parse_value (S fuel) depth (String c r) =
    if (c =? dquote)%char then
      match scan_string r with
      | Some (str, r') => Ok (VStr str, r')
      | None => Raise JSONDecodeError
      end
    else if (c =? "{")%char then
      match depth with
      | O => Raise RecursionError
      | S depth =>
          match skip_ws r with
          | String c1 r1 =>
              if (c1 =? dquote)%char then
                match parse_members fuel depth r1 with
                | Ok (pairs, r') => Ok (VDict (dict_of_pairs pairs), r')
                | Raise e => Raise e
                end
              else if (c1 =? "}")%char then Ok (VDict [], r1)
              else Raise JSONDecodeError
          | EmptyString => Raise JSONDecodeError
          end
      end
    else if (c =? "[")%char then
      match depth with
      | O => Raise RecursionError
      | S depth =>
          match skip_ws r with
          | String c1 r1 =>
              if (c1 =? "]")%char then Ok (VList [], r1)
              else
                match parse_items fuel depth (String c1 r1) with
                | Ok (l, r') => Ok (VList l, r')
                | Raise e => Raise e
                end
          | EmptyString => Raise JSONDecodeError
          end
      end
    else if (c =? "n")%char then literal "ull" VNone r
    else if (c =? "t")%char then literal "rue" (VBool true) r
    else if (c =? "f")%char then literal "alse" (VBool false) r
    else
      match scan_number (String c r) with
      | Ok (n, r') => Ok (VInt n, r')
      | Raise e => Raise e
      end.
Proof. reflexivity. Qed.

Definition deeper {A} (parse : nat → string → result A) : Prop :=
  ∀ depth depth' s a, depth ≤ depth' → parse depth s = Ok a → parse depth' s = Ok a.

Lemma parse_deeper (fuel : nat) :
  deeper (parse_value fuel) ∧ deeper (parse_items fuel) ∧ deeper (parse_members fuel).
Proof.
  induction fuel as [|fuel (IHv & IHi & IHm)];
    [repeat split; intros depth depth' s a _ H; discriminate |].
  split; [| split]; intros depth depth' s a Hd H.
  - destruct s as [|c r]; [discriminate |].
    rewrite parse_value_step in *.
    destruct (c =? dquote)%char; [exact H |].
    destruct (c =? "{")%char.
    { destruct depth as [|depth]; [discriminate |].
      destruct depth' as [|depth']; [lia |].
      destruct (skip_ws r) as [|c1 r1]; [discriminate |].
      destruct (c1 =? dquote)%char; [| exact H].
      destruct (parse_members fuel depth r1) as [[pairs r'] | e] eqn:E; [| discriminate].
      rewrite (IHm depth depth' r1 _ ltac:(lia) E). exact H. }
    destruct (c =? "[")%char; [| exact H].
    destruct depth as [|depth]; [discriminate |].
    destruct depth' as [|depth']; [lia |].
    destruct (skip_ws r) as [|c1 r1]; [discriminate |].
    destruct (c1 =? "]")%char; [exact H |].
    destruct (parse_items fuel depth (String c1 r1)) as [[l r'] | e] eqn:E;
      [| discriminate].
    rewrite (IHi depth depth' _ _ ltac:(lia) E). exact H.
  - rewrite parse_items_step in *.
    destruct (parse_value fuel depth s) as [[v r] | e] eqn:E; [| discriminate].
    rewrite (IHv depth depth' s _ Hd E).
    destruct (skip_ws r) as [|c r1]; [discriminate |].
    destruct (c =? "]")%char; [exact H |].
    destruct (c =? ",")%char; [| discriminate].
    destruct (parse_items fuel depth (skip_ws r1)) as [[l r'] | e] eqn:E';
      [| discriminate].
    rewrite (IHi depth depth' _ _ Hd E'). exact H.
  - rewrite parse_members_step in *.
    destruct (scan_string s) as [[k r] |]; [| discriminate].
    destruct (skip_ws r) as [|c r1]; [discriminate |].
    destruct (c =? ":")%char; [| discriminate].
    destruct (parse_value fuel depth (skip_ws r1)) as [[v r2] | e] eqn:E;
      [| discriminate].
    rewrite (IHv depth depth' _ _ Hd E).
    destruct (skip_ws r2) as [|c2 r3]; [discriminate |].
    destruct (c2 =? "}")%char; [exact H |].
    destruct (c2 =? ",")%char; [| discriminate].
    destruct (skip_ws r3) as [|c3 r4]; [discriminate |].
    destruct (c3 =? dquote)%char; [| discriminate].
    destruct (parse_members fuel depth r4) as [[m r'] | e] eqn:E'; [| discriminate].
    rewrite (IHm depth depth' _ _ Hd E'). exact H.
Qed.

Lemma loads_deeper (depth depth' : nat) (s : string) (v : value) :
  depth ≤ depth' → loads depth s = Ok v → loads depth' s = Ok v.
Proof.
  intros Hd. unfold loads.
  destruct (parse_value (String.length s) depth (skip_ws s)) as [[v' r] | e] eqn:E;
    [| discriminate].
  destruct (parse_deeper (String.length s)) as (Hv & _).
  now rewrite (Hv depth depth' _ _ Hd E).
Qed.

(** With whatever room, the decoder returns no other value for the text of
    [v] than [v]. *)
Lemma loads_encode_only (v v' : value) (depth : nat) :
  well_formed v = true → fits v = true → loads depth (encode v) = Ok v' → v' = v.
Proof.
  intros Hwf Hfit H.
  apply (loads_deeper depth (Nat.max depth (nesting v))) in H; [| lia].
  rewrite (loads_encode v _ Hwf Hfit) in H by lia. now injection H.
Qed.

(** What the encoder refuses: an int that is too long, or a nesting for
    which it has no room. *)
Lemma refused_list (depth : nat) (l : list value) :
  refused (S depth) (VList l) = refused_items depth l.
Proof. induction l as [|x l IH]; [reflexivity |]. cbn in *. now rewrite IH. Qed.

Lemma refused_dict (depth : nat) (d : list (string * value)) :
  refused (S depth) (VDict d) = refused_members depth d.
Proof. induction d as [|[k x] d IH]; [reflexivity |]. cbn in *. now rewrite IH. Qed.

Lemma list_max_cons (a : nat) (l : list nat) :
  list_max (a :: l) = Nat.max a (list_max l).
Proof. reflexivity. Qed.

Lemma refused_items_none (depth : nat) (l : list value) :
  Forall (λ v, ∀ depth, refused depth v = None ↔ fits v = true ∧ nesting v ≤ depth) l →
  refused_items depth l = None
  ↔ forallb fits l = true ∧ list_max (map nesting l) ≤ depth.
Proof.
  induction 1 as [|x l Hx Hl IH]; cbn [refused_items forallb map].
  - split; [intros _; split; [reflexivity | cbn; lia] | reflexivity].
  - rewrite list_max_cons, andb_true_iff. specialize (Hx depth).
    destruct (refused depth x) as [e |].
    + split; [discriminate |]. intros [[Hf _] Hn].
      assert (K : Some e = None) by (apply Hx; split; [exact Hf | lia]).
      discriminate.
    + destruct Hx as [Hx _]. destruct (Hx eq_refl) as [Hf Hn]. rewrite IH.
      split; [intros [F N]; repeat split; auto; lia | intros [[_ F] N]; split; [auto | lia]].
Qed.

Lemma refused_members_none (depth : nat) (d : list (string * value)) :
  Forall (λ kv, ∀ depth, refused depth (snd kv) = None
                          ↔ fits (snd kv) = true ∧ nesting (snd kv) ≤ depth) d →
  refused_members depth d = None
  ↔ forallb (λ kv, fits (snd kv)) d = true
    ∧ list_max (map (λ kv, nesting (snd kv)) d) ≤ depth.
Proof.
  induction 1 as [|[k x] d Hx Hd IH]; cbn [refused_members forallb map snd] in *.
  - split; [intros _; split; [reflexivity | cbn; lia] | reflexivity].
  - rewrite list_max_cons, andb_true_iff. specialize (Hx depth).
    destruct (refused depth x) as [e |].
    + split; [discriminate |]. intros [[Hf _] Hn].
      assert (K : Some e = None) by (apply Hx; split; [exact Hf | lia]).
      discriminate.
    + destruct Hx as [Hx _]. destruct (Hx eq_refl) as [Hf Hn]. rewrite IH.
      split; [intros [F N]; repeat split; auto; lia | intros [[_ F] N]; split; [auto | lia]].
Qed.

Lemma refused_none (v : value) (depth : nat) :
  refused depth v = None ↔ fits v = true ∧ nesting v ≤ depth.
Proof.
  revert depth.
  induction v as [| b | n | s | l IH | d IH] using value_nested_ind; intros depth.
  - cbn. split; intros; try split; try reflexivity; lia.
  - cbn. split; intros; try split; try reflexivity; lia.
  - cbn [refused fits nesting]. destruct (too_long (int_digits n)); cbn [negb].
    + split; [discriminate | intros [? _]; discriminate].
    + split; [intros _; split; [reflexivity | lia] | reflexivity].
  - cbn. split; intros; try split; try reflexivity; lia.
  - destruct depth as [|depth].
    + cbn [refused nesting]. split; [discriminate | intros [_ ?]; lia].
    + rewrite refused_list, (refused_items_none depth l IH). cbn [fits nesting].
      split; intros [F N]; (split; [exact F | lia]).
  - destruct depth as [|depth].
    + cbn [refused nesting]. split; [discriminate | intros [_ ?]; lia].
    + rewrite refused_dict, (refused_members_none depth d IH). cbn [fits nesting].
      split; intros [F N]; (split; [exact F | lia]).
Qed.


(** [json.dumps] returns exactly for the values with short ints and a
    nesting it has room for, and then [json.loads] reads the value back,
    given room for the nesting too. *)
Lemma dumps_returns (v : value) (depth : nat) :
  (∃ text, dumps depth v = Ok text) ↔ fits v = true ∧ nesting v ≤ depth.
Proof.
  rewrite <- refused_none. unfold dumps. destruct (refused depth v) as [e |].
  - split; [intros [text H]; discriminate | discriminate].
  - split; [reflexivity | eauto].
Qed.

Lemma loads_dumps (v : value) (depth depth' : nat) (text : string) :
  well_formed v = true → dumps depth v = Ok text → nesting v ≤ depth' →
  loads depth' text = Ok v.
Proof.
  intros Hwf Hd Hn.
  assert (Hr : fits v = true ∧ nesting v ≤ depth) by (apply dumps_returns; eauto).
  unfold dumps in Hd. destruct (refused depth v); [discriminate |].
  injection Hd as <-. now apply loads_encode.
Qed.

(** The encoder writes ASCII only. *)
Definition is_ascii (c : ascii) : bool := nat_of_ascii c <? 128.

Fixpoint all_ascii (s : string) : bool :=
  match s with
  | EmptyString => true
  | String c r => is_ascii c && all_ascii r
  end.

Lemma all_ascii_append (a b : string) :
  all_ascii (a +:+ b) = all_ascii a && all_ascii b.
Proof.
  induction a as [|c a IH]; simpl; [reflexivity |]. now rewrite IH, andb_assoc.
Qed.

Lemma escape_char_ascii (c : ascii) : all_ascii (escape_char c) = true.
Proof. destruct c as [[|] [|] [|] [|] [|] [|] [|] [|]]; reflexivity. Qed.

Lemma escape_ascii (s : string) : all_ascii (escape s) = true.
Proof.
  induction s as [|c s IH]; [reflexivity |].
  cbn [escape]. now rewrite all_ascii_append, escape_char_ascii, IH.
Qed.

Lemma encode_str_ascii (s : string) : all_ascii (encode_str s) = true.
Proof.
  unfold encode_str. cbn [all_ascii]. now rewrite all_ascii_append, escape_ascii.
Qed.

Lemma uint_ascii (d : Decimal.uint) : all_ascii (NilEmpty.string_of_uint d) = true.
Proof. induction d; simpl; auto. Qed.

Lemma encode_int_ascii (n : Z) : all_ascii (encode_int n) = true.
Proof.
  unfold encode_int, Z.to_int, NilZero.string_of_int, NilZero.string_of_uint.
  destruct n as [|p|p]; [reflexivity | |];
    (destruct (Pos.to_uint p) eqn:E; [reflexivity | rewrite <- E ..]);
    cbn [all_ascii]; rewrite ?uint_ascii; reflexivity.
Qed.

Lemma items_ascii (l : list value) :
  Forall (λ v, all_ascii (encode v) = true) l → all_ascii (encode_items l) = true.
Proof.
  induction 1 as [|y l Hy Hl IH]; [reflexivity |].
  cbn [encode_items]. rewrite !all_ascii_append, Hy, IH. reflexivity.
Qed.

Lemma members_ascii (d : list (string * value)) :
  Forall (λ kv, all_ascii (encode (snd kv)) = true) d →
  all_ascii (encode_members d) = true.
Proof.
  induction 1 as [|[k y] d Hy Hd IH]; [reflexivity |].
  cbn [encode_members snd] in *.
  rewrite !all_ascii_append, encode_str_ascii, Hy, IH. reflexivity.
Qed.

Lemma encode_ascii (v : value) : all_ascii (encode v) = true.
Proof.
  induction v as [| b | n | s | l IH | d IH] using value_nested_ind.
  - reflexivity.
  - destruct b; reflexivity.
  - apply encode_int_ascii.
  - apply encode_str_ascii.
  - destruct l as [|x l]; [reflexivity |].
    apply List.Forall_cons_iff in IH as [Hx Hl].
    rewrite encode_list, !all_ascii_append, Hx, (items_ascii l Hl). reflexivity.
  - destruct d as [|[k x] d]; [reflexivity |].
    apply List.Forall_cons_iff in IH as [Hx Hd]. cbn [snd] in Hx.
    rewrite encode_dict, !all_ascii_append, encode_str_ascii, Hx, (members_ascii d Hd).
    reflexivity.
Qed.

End JsonFacts.

(** ** UTF-8 *)

Module Utf8Facts.
Import Utf8.

Lemma decode_encode_char (c : ascii) (r : list byte) :
  decode (encode_char c ++ r) = option_map (String c) (decode r).
Proof. destruct c as [[|] [|] [|] [|] [|] [|] [|] [|]]; reflexivity. Qed.

(** [s.encode('utf-8').decode('utf-8') == s] *)
Lemma decode_encode (s : string) : decode (encode s) = Some s.
Proof.
  induction s as [|c s IH]; [reflexivity |].
  cbn [encode]. now rewrite decode_encode_char, IH.
Qed.

End Utf8Facts.

(** ** The callback listener *)

Module CallbackFacts.
Import Callback.

(** A request to another path than [/callback] changes nothing. *)
Lemma deliver_elsewhere (a : application) (r : request) :
  path r ≠ "/callback" → deliver a r = a.
Proof.
  intros H. unfold deliver, routes_to_callback.
  destruct (String.eqb_spec (path r) "/callback") as [E | _]; [contradiction |].
  rewrite andb_false_r. now destruct (running a).
Qed.

Lemma deliver_callback (a : application) (r : request) :
  running a = true → routes_to_callback r = true →
  deliver a r = {| auth_result := _handle_callback r; running := true |}.
Proof. intros Hr Hc. unfold deliver. now rewrite Hr, Hc. Qed.

Lemma deliver_all_elsewhere (tick : list request) (a : application) :
  (∀ r, In r tick → path r ≠ "/callback") → fold_left deliver tick a = a.
Proof.
  revert a. induction tick as [|r tick IH]; intros a H; [reflexivity |].
  cbn [fold_left]. rewrite deliver_elsewhere by (apply H; now left).
  apply IH. intros r' Hr'. apply H. now right.
Qed.

(** Once torn down, the listener serves nothing. *)
Lemma deliver_stopped (reqs : list request) (a : application) :
  running a = false → fold_left deliver reqs a = a.
Proof.
  intros H. induction reqs as [|r reqs IH]; [reflexivity |].
  cbn [fold_left]. unfold deliver at 2. now rewrite H.
Qed.

Definition quiet (ticks : list (list request)) : Prop :=
  ∀ tick r, In tick ticks → In r tick → path r ≠ "/callback".

Lemma quiet_cons (tick : list request) (ticks : list (list request)) :
  quiet (tick :: ticks) →
  (∀ r, In r tick → path r ≠ "/callback") ∧ quiet ticks.
Proof.
  intros H. split.
  - intros r Hr. apply (H tick r); [now left | assumption].
  - intros t r Ht Hr. apply (H t r); [now right | assumption].
Qed.

(** With no request to [/callback] during the [n] seconds, the loop runs to
    its end. *)
Lemma poll_quiet (n : nat) (a : application) (arr : list (list request)) :
  auth_result a = VNone → quiet (firstn n arr) →
  poll n a arr = (timeout_result, a, skipn n arr).
Proof.
  revert arr. induction n as [|n IH]; intros arr Ha Hq; [reflexivity |].
  cbn [poll]. destruct arr as [|tick arr].
  - cbn [hd tl fold_left]. rewrite Ha. cbn [is_not_none].
    rewrite IH by (try assumption; now destruct n). now destruct n.
  - cbn [hd tl firstn skipn] in *. apply quiet_cons in Hq as [Ht Hq].
    rewrite (deliver_all_elsewhere tick a Ht), Ha. cbn [is_not_none].
    now apply IH.
Qed.

(** The loop returns what the one callback request carried, at the end of
    the second in which it came. *)
Lemma poll_callback (n : nat) (a : application)
    (before : list (list request)) (pre post : list request)
    (after : list (list request)) (req : request) :
  auth_result a = VNone → running a = true →
  routes_to_callback req = true →
  length before < n → quiet before →
  (∀ r, In r pre → path r ≠ "/callback") →
  (∀ r, In r post → path r ≠ "/callback") →
  poll n a (before ++ (pre ++ req :: post) :: after)
  = (_handle_callback req,
     {| auth_result := _handle_callback req; running := true |}, after).
Proof.
  intros Ha Hr Hreq Hlen Hb Hpre Hpost. revert n Hlen.
  induction before as [|tick before IH]; intros n Hlen.
  - destruct n as [|n]; [simpl in Hlen; lia |].
    cbn [List.app poll hd tl]. rewrite fold_left_app.
    rewrite (deliver_all_elsewhere pre a Hpre). cbn [fold_left].
    rewrite (deliver_callback a req Hr Hreq).
    rewrite (deliver_all_elsewhere post _ Hpost). reflexivity.
  - destruct n as [|n]; [simpl in Hlen; lia |].
    apply quiet_cons in Hb as [Ht Hb].
    cbn [List.app poll hd tl]. rewrite (deliver_all_elsewhere tick a Ht), Ha.
    cbn [is_not_none]. apply IH; [assumption | simpl in Hlen; lia].
Qed.


Lemma elsewhere_path (tick : list request) :
  forallb elsewhere tick = true → ∀ r, In r tick → path r ≠ "/callback".
Proof.
  intros H r Hr. rewrite forallb_forall in H. specialize (H r Hr).
  unfold elsewhere in H. apply negb_true_iff in H.
  now apply String.eqb_neq.
Qed.

Lemma no_callback_quiet (ticks : list (list request)) :
  no_callback ticks = true → quiet ticks.
Proof.
  intros H tick r Ht Hr. unfold no_callback in H.
  rewrite forallb_forall in H. exact (elsewhere_path tick (H tick Ht) r Hr).
Qed.

(** C4. When the listener is up and no request to [/callback] comes within
    [timeout] seconds, [run_https_callback_server] returns (it does not
    raise) a dict whose [error] is ["timeout"]. *)
Theorem await_callback_timeout (w : world) (host port cert key : value)
    (timeout : Z) :
  setup w = None →
  no_callback (firstn (Z.to_nat timeout) (arrivals w)) = true →
  ∃ d, fst (fst (run_https_callback_server w host port cert key timeout))
       = Ok (VDict d)
       ∧ dict_item d "error" = Some (VStr "timeout").
Proof.
  intros Hs Hq. unfold run_https_callback_server. rewrite Hs.
  rewrite poll_quiet by (try reflexivity; now apply no_callback_quiet).
  eexists. split; reflexivity.
Qed.

(** Two seconds of waiting, during which only the root page is asked for. *)
Definition idle_world : world := {|
  setup := None;
  arrivals := [[{| method := "GET"; path := "/"; query := [] |}]; []; []]
|}.

Lemma await_callback_timeout_witness :
  setup idle_world = None
  ∧ no_callback (firstn (Z.to_nat 2) (arrivals idle_world)) = true
  ∧ ∃ d, fst (fst (run_https_callback_server idle_world (VStr "localhost")
                     (VInt 8443) (VStr "cert.pem") (VStr "key.pem") 2))
         = Ok (VDict d)
         ∧ dict_item d "error" = Some (VStr "timeout").
Proof.
  split; [reflexivity |]. split; [reflexivity |].
  apply (await_callback_timeout idle_world); reflexivity.
Defined.

(** C5. When one GET request to [/callback?code=c&state=s] is served while
    the listener waits, and no other request goes to [/callback],
    [run_https_callback_server] returns a dict with that [code] and that
    [state]; the listener it leaves behind is down and serves no request. *)
Theorem await_callback_captures (w : world) (host port cert key : value)
    (timeout : Z) (before : list (list request)) (pre post : list request)
    (after : list (list request)) (code state : string) :
  let req := {| method := "GET"; path := "/callback";
                query := [("code", code); ("state", state)] |} in
  setup w = None →
  arrivals w = before ++ (pre ++ req :: post) :: after →
  length before < Z.to_nat timeout →
  no_callback (pre :: post :: before) = true →
  ∃ d a,
    run_https_callback_server w host port cert key timeout = (Ok (VDict d), a, after)
    ∧ dict_item d "code" = Some (VStr code)
    ∧ dict_item d "state" = Some (VStr state)
    ∧ running a = false
    ∧ ∀ reqs, fold_left deliver reqs a = a.
Proof.
  intros req Hs Ha Hlen Hq. unfold run_https_callback_server. rewrite Hs, Ha.
  cbn [no_callback forallb] in Hq.
  apply andb_true_iff in Hq as [Hpre Hq]. apply andb_true_iff in Hq as [Hpost Hq].
  rewrite (poll_callback _ _ before pre post after req); try reflexivity;
    try assumption; try (now apply elsewhere_path); try (now apply no_callback_quiet).
  eexists. eexists. split; [reflexivity |].
  repeat split; try reflexivity.
  intros reqs. now apply deliver_stopped.
Qed.

(** The redirect arrives in the second second, after a look at the root
    page and before the browser asks for the icon. *)
Definition redirect_world : world := {|
  setup := None;
  arrivals :=
    [[{| method := "GET"; path := "/"; query := [] |}];
     [{| method := "GET"; path := "/callback";
         query := [("code", "ABC"); ("state", "XYZ")] |};
      {| method := "GET"; path := "/favicon.ico"; query := [] |}];
     [{| method := "GET"; path := "/callback";
         query := [("code", "LATE"); ("state", "XYZ")] |}]]
|}.

Lemma await_callback_captures_witness :
  ∃ d a later,
    run_https_callback_server redirect_world (VStr "localhost") (VInt 8443)
      (VStr "cert.pem") (VStr "key.pem") 120 = (Ok (VDict d), a, later)
    ∧ dict_item d "code" = Some (VStr "ABC")
    ∧ dict_item d "state" = Some (VStr "XYZ")
    ∧ running a = false
    ∧ ∀ reqs, fold_left deliver reqs a = a.
Proof.
  destruct (await_callback_captures redirect_world (VStr "localhost") (VInt 8443)
              (VStr "cert.pem") (VStr "key.pem") 120
              [[{| method := "GET"; path := "/"; query := [] |}]]
              [] [{| method := "GET"; path := "/favicon.ico"; query := [] |}]
              [[{| method := "GET"; path := "/callback";
                   query := [("code", "LATE"); ("state", "XYZ")] |}]]
              "ABC" "XYZ" eq_refl eq_refl) as (d & a & H);
    [vm_compute; lia | reflexivity |].
  exists d, a. eexists. exact H.
Defined.

(** *** The [state] parameter and the result of the listener *)

(** What the flow looks at in a result: whether it is None, and its
    fields other than [state]. *)
Definition agree (v1 v2 : value) : Prop :=
  is_not_none v1 = is_not_none v2
  ∧ ∀ k, k ≠ "state" → OAuth.get_method v1 k = OAuth.get_method v2 k.

Lemma agree_refl (v : value) : agree v v.
Proof. now split. Qed.

Lemma query_get_drop_state (q : list (string * string)) (k : string) :
  k ≠ "state" → query_get (drop_state q) k = query_get q k.
Proof.
  intros Hk. unfold query_get. induction q as [|[k' v'] q IH]; [reflexivity |].
  cbn [drop_state List.filter List.find fst snd].
  destruct (String.eqb_spec k' "state") as [-> | Hne]; cbn [negb].
  - destruct (String.eqb_spec "state" k) as [E | _]; [congruence | exact IH].
  - cbn [List.find fst snd]. destruct (String.eqb k' k); [reflexivity | exact IH].
Qed.

Lemma handle_callback_agree (r1 r2 : request) :
  same_but_state r1 r2 → agree (_handle_callback r1) (_handle_callback r2).
Proof.
  intros (_ & _ & Hq). split; [reflexivity |]. intros k Hk.
  assert (E : ∀ f, f ≠ "state" → query_get (query r1) f = query_get (query r2) f).
  { intros f Hf.
    rewrite <- (query_get_drop_state (query r1) f Hf).
    rewrite <- (query_get_drop_state (query r2) f Hf). now rewrite Hq. }
  unfold _handle_callback, OAuth.get_method, dict_get. cbn [dict_item].
  rewrite (E "code"), (E "error"), (E "error_description") by discriminate.
  destruct (String.eqb "code" k); [reflexivity |].
  destruct (String.eqb_spec "state" k) as [E' | _]; [congruence | reflexivity].
Qed.

Lemma routes_same (r1 r2 : request) :
  same_but_state r1 r2 → routes_to_callback r1 = routes_to_callback r2.
Proof. intros (Hm & Hp & _). unfold routes_to_callback. now rewrite Hm, Hp. Qed.

Definition alike (a1 a2 : application) : Prop :=
  running a1 = running a2 ∧ agree (auth_result a1) (auth_result a2).

Lemma deliver_alike (a1 a2 : application) (r1 r2 : request) :
  alike a1 a2 → same_but_state r1 r2 → alike (deliver a1 r1) (deliver a2 r2).
Proof.
  intros [Hr Ha] Hs. unfold deliver. rewrite <- Hr, <- (routes_same r1 r2 Hs).
  destruct (running a1) eqn:E1; [| split; [congruence | assumption]].
  destruct (routes_to_callback r1); [| split; [congruence | assumption]].
  split; [reflexivity | now apply handle_callback_agree].
Qed.

Lemma deliver_all_alike (t1 t2 : list request) :
  Forall2 same_but_state t1 t2 →
  ∀ a1 a2, alike a1 a2 → alike (fold_left deliver t1 a1) (fold_left deliver t2 a2).
Proof.
  induction 1 as [|r1 r2 t1 t2 Hr Ht IH]; intros a1 a2 Ha; [exact Ha |].
  cbn [fold_left]. apply IH. now apply deliver_alike.
Qed.

Lemma poll_agree (n : nat) :
  ∀ a1 a2 arr1 arr2, alike a1 a2 →
    Forall2 (Forall2 same_but_state) arr1 arr2 →
    agree (fst (fst (poll n a1 arr1))) (fst (fst (poll n a2 arr2))).
Proof.
  induction n as [|n IH]; intros a1 a2 arr1 arr2 Ha Harr; [apply agree_refl |].
  cbn [poll].
  assert (Hh : Forall2 same_but_state (hd [] arr1) (hd [] arr2))
    by (destruct Harr; [constructor | assumption]).
  assert (Ht : Forall2 (Forall2 same_but_state) (tl arr1) (tl arr2))
    by (destruct Harr; [constructor | assumption]).
  pose proof (deliver_all_alike _ _ Hh a1 a2 Ha) as [Hr' Ha'].
  destruct Ha' as [Hn Hg]. rewrite <- Hn.
  destruct (is_not_none (auth_result (fold_left deliver (hd [] arr1) a1))) eqn:E1.
  - cbn [fst]. split; [congruence | exact Hg].
  - apply IH; [| exact Ht]. split; [exact Hr' |]. split; [congruence | exact Hg].
Qed.

(** The listener raises in both runs, or returns results that agree. *)
Lemma run_agree (w1 w2 : world) (host port cert key : value) (timeout : Z) :
  setup w1 = setup w2 →
  Forall2 (Forall2 same_but_state) (arrivals w1) (arrivals w2) →
  match fst (fst (run_https_callback_server w1 host port cert key timeout)),
        fst (fst (run_https_callback_server w2 host port cert key timeout)) with
  | Ok r1, Ok r2 => agree r1 r2
  | Raise e1, Raise e2 => e1 = e2
  | _, _ => False
  end.
Proof.
  intros Hs Ha. unfold run_https_callback_server. rewrite <- Hs.
  destruct (setup w1); [reflexivity |].
  pose proof (poll_agree (Z.to_nat timeout)
                {| auth_result := VNone; running := true |}
                {| auth_result := VNone; running := true |}
                (arrivals w1) (arrivals w2)
                (conj eq_refl (agree_refl VNone)) Ha) as H.
  destruct (poll _ _ (arrivals w1)) as [[r1 b1] l1].
  destruct (poll _ _ (arrivals w2)) as [[r2 b2] l2]. exact H.
Qed.

End CallbackFacts.

(** ** The OAuth manager *)

Module OAuthFacts.
Import OAuth.

Section WithLibrary.

Context (lib : library).

(** *** Token cipher *)

(** The cipher gives back what it was given. *)
Definition cipher_correct : Prop :=
  ∀ iv plain, fernet_decrypt lib (fernet_encrypt lib iv plain) = Some plain.

(** What [_encrypt_token] returns is the cipher's answer to the text of
    the token. *)
Lemma encrypt_returns (iv : list byte) (token : value) :
  (∃ c, _encrypt_token lib iv token = Ok c)
  ↔ JsonFacts.fits token = true ∧ JsonFacts.nesting token ≤ S (encoder_depth lib).
Proof.
  rewrite <- JsonFacts.dumps_returns. unfold _encrypt_token.
  destruct (Json.dumps (S (encoder_depth lib)) token) as [text | e].
  - split; eauto.
  - split; intros [x H]; discriminate.
Qed.


Lemma decrypt_encrypt_only (iv : list byte) (token out : value) (c : list byte) :
  cipher_correct → well_formed token = true →
  _encrypt_token lib iv token = Ok c → _decrypt_token lib c = Ok out → out = token.
Proof.
  intros Hc Hwf He Hd.
  assert (Hr : JsonFacts.fits token = true ∧ JsonFacts.nesting token ≤ S (encoder_depth lib))
    by (apply (encrypt_returns iv); eauto).
  unfold _encrypt_token, Json.dumps in He.
  destruct (Json.refused (S (encoder_depth lib)) token); [discriminate |].
  injection He as <-. unfold _decrypt_token in Hd.
  rewrite Hc, Utf8Facts.decode_encode in Hd.
  exact (JsonFacts.loads_encode_only token out _ Hwf (proj1 Hr) Hd).
Qed.

Lemma decrypt_encrypt (iv : list byte) (token : value) (c : list byte) :
  cipher_correct → well_formed token = true →
  _encrypt_token lib iv token = Ok c →
  JsonFacts.nesting token ≤ S (decoder_depth lib) →
  _decrypt_token lib c = Ok token.
Proof.
  intros Hc Hwf He Hn. unfold _encrypt_token in He.
  destruct (Json.dumps (S (encoder_depth lib)) token) as [text | e] eqn:Hd;
    [| discriminate].
  injection He as <-. unfold _decrypt_token.
  rewrite Hc, Utf8Facts.decode_encode.
  exact (JsonFacts.loads_dumps token _ _ text Hwf Hd Hn).
Qed.


(** *** Token store *)

Lemma get_access_token_stored (bank_name : string) (m : manager) (c : list byte)
    (d : list (string * value)) :
  _tokens m !! bank_name = Some c → _decrypt_token lib c = Ok (VDict d) →
  get_access_token lib bank_name m = (Ok (dict_get d "access_token"), m).
Proof.
  intros Hs Hd. unfold get_access_token. rewrite Hs.
  unfold try_except, bind, lift. now rewrite Hd.
Qed.

Lemma get_access_token_returns (bank_name : string) (m : manager) :
  ∃ v m', get_access_token lib bank_name m = (Ok v, m').
Proof.
  unfold get_access_token. destruct (_tokens m !! bank_name) as [c|]; [| now eauto].
  unfold try_except, bind, lift, log, emit, ret.
  destruct (_decrypt_token lib c) as [[| | | | |] |]; cbn; eauto.
Qed.

(** C1, as the code has it. [is_token_valid] returns, and it returns True
    exactly when a record is stored for the name, the stored bytes decrypt
    to a dict, and the dict has an [access_token] that is not None.  (An
    empty string is such a value.) *)
Theorem is_token_valid_iff (bank_name : string) (m : manager) :
  ∃ b, fst (is_token_valid lib bank_name m) = Ok b
       ∧ (b = true ↔
          ∃ c d v, _tokens m !! bank_name = Some c
                   ∧ _decrypt_token lib c = Ok (VDict d)
                   ∧ dict_item d "access_token" = Some v
                   ∧ v ≠ VNone).
Proof.
  unfold is_token_valid, get_access_token.
  destruct (_tokens m !! bank_name) as [c|] eqn:Hs.
  - unfold try_except, bind, lift, log, emit, ret. rewrite Hs.
    destruct (_decrypt_token lib c) as [token | e] eqn:Hd.
    + destruct token as [| b | n | s | l | d]; cbn;
        try solve [exists false; split; [reflexivity |]; split; [discriminate |];
                   intros (c' & d' & v & [= <-] & Hd' & _); congruence].
      unfold dict_get. destruct (dict_item d "access_token") as [v|] eqn:Hi.
      * exists (is_not_none v). split; [reflexivity |]. split.
        -- intros Hv. exists c, d, v. repeat split; try assumption.
           intros ->. discriminate.
        -- intros (c' & d' & v' & [= <-] & Hd' & Hi' & Hv).
           rewrite Hd in Hd'. injection Hd' as <-.
           rewrite Hi in Hi'. injection Hi' as <-. now destruct v.
      * exists false. split; [reflexivity |]. split; [discriminate |].
        intros (c' & d' & v' & [= <-] & Hd' & Hi' & _).
        rewrite Hd in Hd'. injection Hd' as <-. congruence.
    + cbn. exists false. split; [reflexivity |]. split; [discriminate |].
      intros (c' & d' & v' & [= <-] & Hd' & _). congruence.
  - exists false. split; [reflexivity |]. split; [discriminate |].
    intros (c' & d' & v' & [=] & _).
Qed.

(** *** Refresh and password grant *)

(** C6. [refresh_token] raises [OAuthError] when nothing is stored for the
    name, and when the stored record has no [refresh_token] or a falsy
    one. *)
Theorem refresh_token_raises (reply : http_outcome) (iv : list byte)
    (bank_name : string) (bank_config : list (string * value)) (m : manager) :
  (_tokens m !! bank_name = None
   ∨ ∃ c d, _tokens m !! bank_name = Some c
            ∧ _decrypt_token lib c = Ok (VDict d)
            ∧ truthy (dict_get d "refresh_token") = false) →
  ∃ error, fst (refresh_token lib reply iv bank_name bank_config m)
           = Raise (OAuthError error).
Proof.
  intros [Hn | (c & d & Hs & Hd & Hr)]; unfold refresh_token.
  - rewrite Hn. eexists. reflexivity.
  - rewrite Hs. unfold try_except, bind, lift. rewrite Hd. cbn [get_method].
    rewrite Hr. cbn. eexists. reflexivity.
Qed.

(** C7. Without a truthy [username] or [password] in the bank
    configuration, [password_grant_for_token] raises [OAuthError] and leaves
    the manager as it was: nothing is posted to the token endpoint. *)
Theorem password_grant_requires_credentials (reply : http_outcome)
    (iv : list byte) (bank_config : list (string * value)) (m : manager) :
  truthy (dict_get bank_config "username") = false
  ∨ truthy (dict_get bank_config "password") = false →
  let run := password_grant_for_token lib reply iv bank_config m in
  (∃ error, run = (Raise (OAuthError error), m))
  ∧ ∀ url data, In (Post url data) (trace (snd run)) → In (Post url data) (trace m).
Proof.
  intros H. unfold password_grant_for_token.
  assert (E : negb (truthy (dict_get bank_config "username"))
              || negb (truthy (dict_get bank_config "password")) = true).
  { destruct H as [-> | ->]; [reflexivity | apply orb_true_r]. }
  rewrite E. split; [eexists; reflexivity | trivial].
Qed.

(** *** The store holds encrypted records only *)

(** Every value of [_tokens] is [_encrypt_token] of some token. *)
Definition encrypted (m : manager) : Prop :=
  ∀ name c, _tokens m !! name = Some c →
    ∃ iv token, _encrypt_token lib iv token = Ok c.

(** A computation that keeps the store encrypted. *)
Definition keeps {A} (c : M A) : Prop :=
  ∀ m, encrypted m → encrypted (snd (c m)).

Lemma encrypted_init : encrypted init.
Proof. intros name c H. unfold init in H. cbn in H. now rewrite lookup_empty in H. Qed.

Lemma keeps_ret {A} (a : A) : keeps (ret a).
Proof. now intros m H. Qed.

Lemma keeps_raise {A} (e : exn) : keeps (@raise A e).
Proof. now intros m H. Qed.

Lemma keeps_lift {A} (r : result A) : keeps (lift r).
Proof. now intros m H. Qed.

Lemma keeps_emit (ev : event) : keeps (emit ev).
Proof. now intros m H. Qed.

Lemma keeps_log (l : level) (msg : string) : keeps (log l msg).
Proof. apply keeps_emit. Qed.

Lemma keeps_item (d : list (string * value)) (k : string) : keeps (item d k).
Proof. unfold item. destruct (dict_item d k); [apply keeps_ret | apply keeps_raise]. Qed.

Lemma keeps_bind {A B} (c : M A) (k : A → M B) :
  keeps c → (∀ a, keeps (k a)) → keeps (bind c k).
Proof.
  intros Hc Hk m Hm. unfold bind. specialize (Hc m Hm).
  destruct (c m) as [[a | e] m']; [now apply Hk | exact Hc].
Qed.

Lemma keeps_try {A} (c : M A) (h : exn → M A) :
  keeps c → (∀ e, keeps (h e)) → keeps (try_except c h).
Proof.
  intros Hc Hh m Hm. unfold try_except. specialize (Hc m Hm).
  destruct (c m) as [[a | e] m']; [exact Hc | now apply Hh].
Qed.

Lemma keeps_post (reply : http_outcome) (url : value) (data : list (string * value)) :
  keeps (post reply url data).
Proof.
  unfold post. apply keeps_bind; [apply keeps_emit |].
  intros _. destruct reply; [apply keeps_ret | apply keeps_raise].
Qed.

Lemma keeps_set_token (bank_name : value) (c : list byte) :
  (∃ iv token, _encrypt_token lib iv token = Ok c) →
  keeps (set_token bank_name c).
Proof.
  intros Hc. destruct bank_name as [| | | k | |]; try apply keeps_raise.
  intros m Hm name c'. cbn.
  destruct (decide (k = name)) as [-> | Hne].
  - rewrite lookup_insert_eq. now intros [= <-].
  - rewrite lookup_insert_ne by assumption. apply Hm.
Qed.

Lemma keeps_encrypt {A} (iv : list byte) (token : value) (k : list byte → M A) :
  (∀ c, _encrypt_token lib iv token = Ok c → keeps (k c)) →
  keeps (let* c := lift (_encrypt_token lib iv token) in k c).
Proof.
  intros Hk m Hm. unfold bind, lift.
  destruct (_encrypt_token lib iv token) as [c | e] eqn:E; [| exact Hm].
  now apply Hk.
Qed.

Ltac keeps_step :=
  lazymatch goal with
  | |- keeps (bind (lift (_encrypt_token _ _ _)) _) => apply keeps_encrypt; intros ? ?
  | |- keeps (bind _ _) => apply keeps_bind; [| intros ?]
  | |- keeps (try_except _ _) => apply keeps_try; [| intros ?]
  | |- keeps (ret _) => apply keeps_ret
  | |- keeps (raise _) => apply keeps_raise
  | |- keeps (lift _) => apply keeps_lift
  | |- keeps (log _ _) => apply keeps_log
  | |- keeps (emit _) => apply keeps_emit
  | |- keeps (item _ _) => apply keeps_item
  | |- keeps (post _ _ _) => apply keeps_post
  | |- keeps (set_token _ _) => apply keeps_set_token; eauto
  | |- keeps (if ?b then _ else _) => destruct b
  | |- keeps (match ?x with _ => _ end) => destruct x
  end.

Lemma keeps_exchange (reply : http_outcome) (iv : list byte) (code : value)
    (bank_config : list (string * value)) (state : string) :
  keeps (exchange_code_for_token lib reply iv code bank_config state).
Proof. unfold exchange_code_for_token. repeat keeps_step. Qed.

Lemma keeps_password (reply : http_outcome) (iv : list byte)
    (bank_config : list (string * value)) :
  keeps (password_grant_for_token lib reply iv bank_config).
Proof. unfold password_grant_for_token. repeat keeps_step. Qed.

Lemma keeps_refresh (reply : http_outcome) (iv : list byte) (bank_name : string)
    (bank_config : list (string * value)) :
  keeps (refresh_token lib reply iv bank_name bank_config).
Proof.
  intros m Hm. unfold refresh_token.
  destruct (_tokens m !! bank_name) as [stored|]; [| exact Hm].
  match goal with
  | |- encrypted (snd (?c m)) => cut (keeps c); [intros K; exact (K m Hm) |]
  end.
  repeat keeps_step.
Qed.

Lemma keeps_simulate (w : sim_world) (bank_name : value)
    (bank_config : list (string * value)) :
  keeps (simulate_oauth_flow lib w bank_name bank_config).
Proof. unfold simulate_oauth_flow. repeat keeps_step. Qed.

(** C9. Code exchange, password grant, refresh and simulated grant keep the
    invariant of the store: each value in it is the encrypted serialization
    of a token, whether the operation returns or raises. *)
Theorem store_stays_encrypted (op : operation) (m : manager) :
  encrypted m → encrypted (snd (perform lib op m)).
Proof.
  intros Hm. destruct op; cbn [perform].
  - now apply keeps_exchange.
  - now apply keeps_password.
  - now apply keeps_refresh.
  - now apply keeps_simulate.
Qed.

(** *** A failed grant leaves the store alone *)

(** The computation never writes to the store. *)
Definition untouched {A} (c : M A) : Prop :=
  ∀ m, _tokens (snd (c m)) = _tokens m.

(** The computation does not raise after it has written to the store. *)
Definition atomic {A} (c : M A) : Prop :=
  ∀ m e m', c m = (Raise e, m') → _tokens m' = _tokens m.

(** The computation returns. *)
Definition total {A} (c : M A) : Prop :=
  ∀ m, ∃ a m', c m = (Ok a, m').

Lemma untouched_ret {A} (a : A) : untouched (ret a).
Proof. now intros m. Qed.

Lemma untouched_raise {A} (e : exn) : untouched (@raise A e).
Proof. now intros m. Qed.

Lemma untouched_lift {A} (r : result A) : untouched (lift r).
Proof. now intros m. Qed.

Lemma untouched_emit (ev : event) : untouched (emit ev).
Proof. now intros m. Qed.

Lemma untouched_log (l : level) (msg : string) : untouched (log l msg).
Proof. apply untouched_emit. Qed.

Lemma untouched_item (d : list (string * value)) (k : string) : untouched (item d k).
Proof.
  unfold item. destruct (dict_item d k); [apply untouched_ret | apply untouched_raise].
Qed.

Lemma untouched_bind {A B} (c : M A) (k : A → M B) :
  untouched c → (∀ a, untouched (k a)) → untouched (bind c k).
Proof.
  intros Hc Hk m. unfold bind. specialize (Hc m).
  destruct (c m) as [[a | e] m']; cbn in *; [| exact Hc].
  now rewrite Hk.
Qed.

Lemma untouched_post (reply : http_outcome) (url : value)
    (data : list (string * value)) :
  untouched (post reply url data).
Proof.
  unfold post. apply untouched_bind; [apply untouched_emit |].
  intros _. destruct reply; [apply untouched_ret | apply untouched_raise].
Qed.

Ltac untouched_step :=
  lazymatch goal with
  | |- untouched (bind _ _) => apply untouched_bind; [| intros ?]
  | |- untouched (ret _) => apply untouched_ret
  | |- untouched (raise _) => apply untouched_raise
  | |- untouched (lift _) => apply untouched_lift
  | |- untouched (log _ _) => apply untouched_log
  | |- untouched (emit _) => apply untouched_emit
  | |- untouched (item _ _) => apply untouched_item
  | |- untouched (post _ _ _) => apply untouched_post
  | |- untouched (if ?b then _ else _) => destruct b
  | |- untouched (match ?x with _ => _ end) => destruct x
  end.

Lemma total_ret {A} (a : A) : total (ret a).
Proof. intros m. now exists a, m. Qed.

Lemma total_log (l : level) (msg : string) : total (log l msg).
Proof. intros m. eexists. eexists. reflexivity. Qed.

Lemma total_bind {A B} (c : M A) (k : A → M B) :
  total c → (∀ a, total (k a)) → total (bind c k).
Proof.
  intros Hc Hk m. unfold bind. destruct (Hc m) as (a & m' & ->). apply Hk.
Qed.

Lemma atomic_untouched {A} (c : M A) : untouched c → atomic c.
Proof. intros H m e m' E. specialize (H m). now rewrite E in H. Qed.

(** Nothing written yet: what follows decides. *)
Lemma atomic_bind {A B} (c : M A) (k : A → M B) :
  untouched c → (∀ a, atomic (k a)) → atomic (bind c k).
Proof.
  intros Hc Hk m e m' E. unfold bind in E. specialize (Hc m).
  destruct (c m) as [[a | e0] m0]; cbn in Hc.
  - rewrite <- Hc. now apply (Hk a m0 e m').
  - injection E as _ <-. exact Hc.
Qed.

(** The write itself: what follows it returns. *)
Lemma atomic_write {A B} (c : M A) (k : A → M B) :
  atomic c → (∀ a, total (k a)) → atomic (bind c k).
Proof.
  intros Hc Hk m e m' E. unfold bind in E.
  destruct (c m) as [[a | e0] m0] eqn:Ec; cbn in E.
  - destruct (Hk a m0) as (b & m1 & E1). rewrite E1 in E. discriminate.
  - injection E as _ <-. exact (Hc m e0 m0 Ec).
Qed.

Lemma atomic_try {A} (c : M A) (h : exn → M A) :
  atomic c → (∀ e, untouched (h e)) → atomic (try_except c h).
Proof.
  intros Hc Hh m e m' E. unfold try_except in E.
  destruct (c m) as [[a | e0] m0] eqn:Ec; [discriminate |].
  specialize (Hh e0 m0). rewrite E in Hh. cbn in Hh.
  rewrite Hh. exact (Hc m e0 m0 Ec).
Qed.

Lemma atomic_set_token (bank_name : value) (c : list byte) :
  atomic (set_token bank_name c).
Proof.
  intros m e m' E.
  destruct bank_name; cbn in E; unfold raise in E; try discriminate;
    now injection E as _ <-.
Qed.

Ltac atomic_step :=
  lazymatch goal with
  | |- atomic (bind (set_token _ _) _) =>
      apply atomic_write;
      [apply atomic_set_token
      | intros ?; repeat first [apply total_bind; [| intros ?]
                               | apply total_log | apply total_ret]]
  | |- atomic (bind _ _) => apply atomic_bind; [repeat untouched_step | intros ?]
  | |- atomic (try_except _ _) => apply atomic_try; [| intros ?; repeat untouched_step]
  | |- atomic (if ?b then _ else _) => destruct b
  | |- atomic _ => apply atomic_untouched; repeat untouched_step
  end.

Lemma atomic_exchange (reply : http_outcome) (iv : list byte) (code : value)
    (bank_config : list (string * value)) (state : string) :
  atomic (exchange_code_for_token lib reply iv code bank_config state).
Proof. unfold exchange_code_for_token. repeat atomic_step. Qed.

Lemma atomic_password (reply : http_outcome) (iv : list byte)
    (bank_config : list (string * value)) :
  atomic (password_grant_for_token lib reply iv bank_config).
Proof. unfold password_grant_for_token. repeat atomic_step. Qed.

Lemma atomic_refresh (reply : http_outcome) (iv : list byte) (bank_name : string)
    (bank_config : list (string * value)) :
  atomic (refresh_token lib reply iv bank_name bank_config).
Proof.
  intros m e m' E. unfold refresh_token in E.
  destruct (_tokens m !! bank_name) as [stored|]; [| now injection E as _ <-].
  revert E.
  match goal with
  | |- ?c m = _ → _ => cut (atomic c); [intros K; exact (K m e m') |]
  end.
  repeat atomic_step.
Qed.

Lemma atomic_simulate (w : sim_world) (bank_name : value)
    (bank_config : list (string * value)) :
  atomic (simulate_oauth_flow lib w bank_name bank_config).
Proof. unfold simulate_oauth_flow. repeat atomic_step. Qed.

(** C10. When [exchange_code_for_token], [password_grant_for_token] or
    [refresh_token] raises, whatever the exception, [_tokens] is what it was
    before the call: each entry, and each absence of one.  (The simulated
    grant is no different.) *)
Theorem failed_grant_keeps_store (op : operation) (m m' : manager) (e : exn) :
  perform lib op m = (Raise e, m') →
  _tokens m' = _tokens m ∧ ∀ name, _tokens m' !! name = _tokens m !! name.
Proof.
  intros E.
  assert (K : _tokens m' = _tokens m).
  { destruct op; cbn [perform] in E.
    - eapply atomic_exchange; eassumption.
    - eapply atomic_password; eassumption.
    - eapply atomic_refresh; eassumption.
    - eapply atomic_simulate; eassumption. }
  split; [exact K | intros name; now rewrite K].
Qed.

(** *** The [state] of the callback *)

Lemma bind_ext {A B} (c : M A) (k1 k2 : A → M B) (m : manager) :
  (∀ a m', k1 a m' = k2 a m') → bind c k1 m = bind c k2 m.
Proof.
  intros H. unfold bind. destruct (c m) as [[a | e] m']; [apply H | reflexivity].
Qed.

Lemma flow_ignores_state (w1 w2 : flow_world)
    (bank_config app_config : list (string * value)) (m : manager) :
  differ_in_state_only w1 w2 →
  authorization_code_flow lib w1 bank_config app_config m
  = authorization_code_flow lib w2 bank_config app_config m.
Proof.
  intros (Hn & Hb & He & Hi & Hs & Ha). unfold authorization_code_flow.
  rewrite Hn, Hb, He, Hi.
  apply bind_ext. intros [auth_url state] m1.
  do 3 (apply bind_ext; intros ? ?).
  match goal with |- (if ?b then _ else _) _ = _ => destruct b end; [reflexivity |].
  do 3 (apply bind_ext; intros ? ?).
  match goal with
  | |- bind (lift (fst (fst (Callback.run_https_callback_server _ ?h ?p ?c ?k ?t)))) _ _ = _ =>
      pose proof (CallbackFacts.run_agree (listener w1) (listener w2) h p c k t Hs Ha) as H;
      destruct (fst (fst (Callback.run_https_callback_server (listener w1) h p c k t)))
        as [r1 | e1];
      destruct (fst (fst (Callback.run_https_callback_server (listener w2) h p c k t)))
        as [r2 | e2]; try contradiction
  end.
  - destruct H as [_ H]. cbv beta iota delta [bind lift].
    rewrite (H "error"), (H "error_description"), (H "code") by discriminate.
    reflexivity.
  - now subst.
Qed.

(** C8. The authorization-code flow does not look at the [state] that
    comes back: two runs that meet the same outside, but for the [state]
    parameters of the requests that reach the listener, end with the same
    result, the same store and the same events; and the [state] argument of
    [exchange_code_for_token] has no part in what it does. *)
Theorem callback_state_is_ignored (w1 w2 : flow_world)
    (bank_config app_config : list (string * value)) (m : manager) :
  differ_in_state_only w1 w2 →
  authorization_code_flow lib w1 bank_config app_config m
  = authorization_code_flow lib w2 bank_config app_config m
  ∧ ∀ reply iv code state1 state2 m',
      exchange_code_for_token lib reply iv code bank_config state1 m'
      = exchange_code_for_token lib reply iv code bank_config state2 m'.
Proof.
  intros H. split; [now apply flow_ignores_state | reflexivity].
Qed.

(** *** What a successful flow needs *)

Lemma bind_ok {A B} (c : M A) (k : A → M B) (m m' : manager) (b : B) :
  bind c k m = (Ok b, m') → ∃ a m0, c m = (Ok a, m0) ∧ k a m0 = (Ok b, m').
Proof.
  unfold bind. destruct (c m) as [[a | e] m0]; [eauto | discriminate].
Qed.

Lemma lift_ok {A} (r : result A) (m m' : manager) (a : A) :
  lift r m = (Ok a, m') → r = Ok a.
Proof. unfold lift. now intros [= -> _]. Qed.

Tactic Notation "bind_inv" hyp(H) "as" ident(a) ident(m0) ident(E) :=
  apply bind_ok in H as (a & m0 & E & H).

Lemma exchange_ok (reply : http_outcome) (iv : list byte) (code : value)
    (bank_config : list (string * value)) (state : string)
    (m m' : manager) (v : value) :
  exchange_code_for_token lib reply iv code bank_config state m = (Ok v, m') →
  ∃ r, reply = Responds r ∧ status r = 200%Z ∧ json r = Ok v.
Proof.
  unfold exchange_code_for_token. intros H.
  bind_inv H as redirect_uri m1 E1. bind_inv H as client_id m2 E2.
  bind_inv H as client_secret m3 E3. unfold try_except in H.
  match type of H with
  | match ?c ?m with _ => _ end = _ => destruct (c m) as [[v' | e] m4] eqn:Hc
  end.
  - injection H as -> ->.
    bind_inv Hc as token_url m5 E5. bind_inv Hc as response m6 E6.
    unfold post in E6. bind_inv E6 as u m7 E7.
    destruct reply as [r | e]; [| discriminate].
    injection E6 as <- _. exists r. split; [reflexivity |].
    destruct (Z.eqb_spec (status r) 200) as [Hs | Hs].
    + split; [exact Hs |].
      bind_inv Hc as token_response m8 E8. apply lift_ok in E8.
      bind_inv Hc as bank_name m9 E9. bind_inv Hc as u1 m10 E10.
      bind_inv Hc as u2 m11 E11. injection Hc as -> _. exact E8.
    + bind_inv Hc as txt m8 E8. discriminate.
  - destruct e; cbv [bind log emit raise] in H; discriminate.
Qed.

Lemma flow_ok (w : flow_world) (bank_config app_config : list (string * value))
    (m m' : manager) (v : value) :
  authorization_code_flow lib w bank_config app_config m = (Ok v, m') →
  Callback.setup (listener w) = None
  ∧ Callback.no_callback (firstn 120 (Callback.arrivals (listener w))) = false
  ∧ ∃ r, token_endpoint w = Responds r ∧ status r = 200%Z.
Proof.
  unfold authorization_code_flow. intros H.
  bind_inv H as url_state m1 E1. destruct url_state as [auth_url state].
  bind_inv H as redirect m2 E2. bind_inv H as parsed_hostname m3 E3.
  bind_inv H as parsed_port m4 E4.
  match type of H with (if ?b then _ else _) _ = _ => destruct b end;
    [discriminate |].
  bind_inv H as u1 m5 E5. bind_inv H as u2 m6 E6. bind_inv H as u3 m7 E7.
  bind_inv H as result m8 E8. apply lift_ok in E8.
  unfold Callback.run_https_callback_server in E8.
  destruct (Callback.setup (listener w)) as [e |] eqn:Hs; [discriminate |].
  split; [reflexivity |].
  bind_inv H as error m9 E9. apply lift_ok in E9.
  destruct (Callback.no_callback (firstn 120 (Callback.arrivals (listener w))))
    eqn:Hq.
  - exfalso. change 120%nat with (Z.to_nat 120) in Hq.
    rewrite CallbackFacts.poll_quiet in E8
      by (try reflexivity; now apply CallbackFacts.no_callback_quiet).
    injection E8 as <-. injection E9 as <-. bind_inv H as d m10 E10. discriminate.
  - split; [reflexivity |].
    destruct (truthy error); [bind_inv H as d m10 E10; discriminate |].
    bind_inv H as code m10 E10. destruct (negb (truthy code)); [discriminate |].
    apply exchange_ok in H as (r & Hr & Hst & _). eauto.
Qed.

(** *** The events play no part in what a computation returns *)

(** Two computations that, from managers with the same store, end with the
    same result and the same store. *)
Definition sim {A} (c1 c2 : M A) : Prop :=
  ∀ m1 m2, _tokens m1 = _tokens m2 →
    fst (c1 m1) = fst (c2 m2) ∧ _tokens (snd (c1 m1)) = _tokens (snd (c2 m2)).

Lemma sim_ret {A} (a : A) : sim (ret a) (ret a).
Proof. now intros m1 m2 H. Qed.

Lemma sim_raise {A} (e : exn) : sim (@raise A e) (raise e).
Proof. now intros m1 m2 H. Qed.

Lemma sim_lift {A} (r : result A) : sim (lift r) (lift r).
Proof. now intros m1 m2 H. Qed.

Lemma sim_emit (ev1 ev2 : event) : sim (emit ev1) (emit ev2).
Proof. now intros m1 m2 H. Qed.

Lemma sim_log (l1 l2 : level) (msg1 msg2 : string) : sim (log l1 msg1) (log l2 msg2).
Proof. apply sim_emit. Qed.

Lemma sim_item (d : list (string * value)) (k : string) : sim (item d k) (item d k).
Proof. unfold item. destruct (dict_item d k); [apply sim_ret | apply sim_raise]. Qed.

Lemma sim_bind {A B} (c1 c2 : M A) (k1 k2 : A → M B) :
  sim c1 c2 → (∀ a, sim (k1 a) (k2 a)) → sim (bind c1 k1) (bind c2 k2).
Proof.
  intros Hc Hk m1 m2 Hm. unfold bind. specialize (Hc m1 m2 Hm).
  destruct (c1 m1) as [[a1 | e1] m1'], (c2 m2) as [[a2 | e2] m2'];
    cbn [fst snd] in Hc; destruct Hc as [Hr Ht]; try discriminate.
  - injection Hr as <-. now apply Hk.
  - injection Hr as <-. now split.
Qed.

Lemma sim_try {A} (c1 c2 : M A) (h1 h2 : exn → M A) :
  sim c1 c2 → (∀ e, sim (h1 e) (h2 e)) → sim (try_except c1 h1) (try_except c2 h2).
Proof.
  intros Hc Hh m1 m2 Hm. unfold try_except. specialize (Hc m1 m2 Hm).
  destruct (c1 m1) as [[a1 | e1] m1'], (c2 m2) as [[a2 | e2] m2'];
    cbn [fst snd] in Hc; destruct Hc as [Hr Ht]; try discriminate.
  - injection Hr as <-. now split.
  - injection Hr as <-. now apply Hh.
Qed.

Lemma sim_post (reply : http_outcome) (url : value) (data : list (string * value)) :
  sim (post reply url data) (post reply url data).
Proof.
  unfold post. apply sim_bind; [apply sim_emit |].
  intros _. destruct reply; [apply sim_ret | apply sim_raise].
Qed.

Lemma sim_set_token (bank_name : value) (c : list byte) :
  sim (set_token bank_name c) (set_token bank_name c).
Proof.
  destruct bank_name; try apply sim_raise.
  intros m1 m2 Hm. cbn. now rewrite Hm.
Qed.

Ltac sim_step :=
  lazymatch goal with
  | |- sim (bind _ _) (bind _ _) => apply sim_bind; [| intros ?]
  | |- sim (try_except _ _) (try_except _ _) => apply sim_try; [| intros ?]
  | |- sim (ret _) (ret _) => apply sim_ret
  | |- sim (raise _) (raise _) => apply sim_raise
  | |- sim (lift _) (lift _) => apply sim_lift
  | |- sim (log _ _) (log _ _) => apply sim_log
  | |- sim (emit _) (emit _) => apply sim_emit
  | |- sim (item _ _) (item _ _) => apply sim_item
  | |- sim (post _ _ _) (post _ _ _) => apply sim_post
  | |- sim (set_token _ _) (set_token _ _) => apply sim_set_token
  | |- sim (if ?b then _ else _) (if ?b then _ else _) => destruct b
  | |- sim (match ?x with _ => _ end) (match ?x with _ => _ end) => destruct x
  end.

Lemma sim_exchange (reply : http_outcome) (iv : list byte) (code : value)
    (bank_config : list (string * value)) (state : string) :
  sim (exchange_code_for_token lib reply iv code bank_config state)
      (exchange_code_for_token lib reply iv code bank_config state).
Proof. unfold exchange_code_for_token. repeat sim_step. Qed.

(** [webbrowser.open]: whatever it does, the flow goes on. *)
Lemma sim_browser (url : string) (outcome1 outcome2 : result bool) :
  sim (try_except
         (emit (Browser url);;
          let* opened := lift outcome1 in
          if negb opened then
            log WARNING "Couldn't launch a browser automatically. Please copy/paste the URL above into your browser."
          else ret tt)
         (λ e, log WARNING ("Browser launch failed: " +:+ str_exn lib e
                            +:+ ". Please copy/paste the URL above into your browser.")))
      (try_except
         (emit (Browser url);;
          let* opened := lift outcome2 in
          if negb opened then
            log WARNING "Couldn't launch a browser automatically. Please copy/paste the URL above into your browser."
          else ret tt)
         (λ e, log WARNING ("Browser launch failed: " +:+ str_exn lib e
                            +:+ ". Please copy/paste the URL above into your browser."))).
Proof.
  intros m1 m2 Hm.
  destruct outcome1 as [[|] | e1], outcome2 as [[|] | e2]; now split.
Qed.

(** The outcome of the browser launch changes neither the result of the
    flow nor the store it leaves. *)
Lemma flow_whatever_browser (w : flow_world) (outcome : result bool)
    (bank_config app_config : list (string * value)) :
  sim (authorization_code_flow lib w bank_config app_config)
      (authorization_code_flow lib
         {| nonce := nonce w; browser := outcome; listener := listener w;
            token_endpoint := token_endpoint w; flow_iv := flow_iv w |}
         bank_config app_config).
Proof.
  unfold authorization_code_flow. cbn [nonce browser listener token_endpoint flow_iv].
  unfold generate_authorization_url.
  repeat first [apply sim_browser | apply sim_exchange | sim_step].
Qed.

End WithLibrary.

End OAuthFacts.

(** ** Grant selection *)

Module MainFacts.
Import OAuth Main.

Section WithLibrary.

Context (lib : library).

(** The simulated grant returns for a name that is a string, and adds its
    two log lines and nothing else to the events. *)
(** The mock token is flat and its one int is short: [json.dumps] takes
    it. *)
Lemma encrypt_mock_token (iv : list byte) (access refresh : string) :
  let mock_token :=
    VDict [("access_token", VStr access); ("token_type", VStr "Bearer");
           ("expires_in", VInt 3600); ("refresh_token", VStr refresh);
           ("scope", VStr "accounts transactions balances")] in
  _encrypt_token lib iv mock_token
  = Ok (fernet_encrypt lib iv (Utf8.encode (Json.encode mock_token))).
Proof. reflexivity. Qed.

Lemma simulate_returns (w : sim_world) (name : string)
    (bank_config : list (string * value)) (m : manager) :
  ∃ token m' notice done,
    simulate_oauth_flow lib w (VStr name) bank_config m = (Ok token, m')
    ∧ (∃ c, _encrypt_token lib (sim_iv w) token = Ok c
            ∧ _tokens m' = <[name := c]> (_tokens m))
    ∧ trace m' = trace m ++ [Log WARNING notice; Log INFO done]
    ∧ String.prefix "SIMULATION:" notice = true.
Proof.
  unfold simulate_oauth_flow.
  cbv beta iota zeta delta [bind log emit ret fmt lift].
  rewrite encrypt_mock_token. cbv beta iota zeta delta [set_token].
  do 4 eexists. split; [reflexivity |].
  split; [eexists; split; [apply encrypt_mock_token | reflexivity] |]. cbn [trace].
  split; [now rewrite <- app_assoc | reflexivity].
Qed.

(** C3, as the code has it.  For a bank configuration whose [name] is a
    string, the part of [main] that obtains the token returns in every
    case.  With client id, client secret and both TLS paths set it runs
    the authorization-code flow; when the flow returns, its result stands;
    when it raises, whatever the exception, [main] logs a warning and runs
    the simulated grant on what the flow left.  The flow does raise when
    the listener cannot be set up, when no request reaches [/callback] in
    the 120 seconds, and when the token endpoint does not answer 200.  A
    browser that cannot be launched is another matter: whatever
    [webbrowser.open] does, the flow ends with the same result and the same
    store.  With a TLS path missing, [main] runs the simulated grant at once and
    adds two log lines to the events: the listener is not started. *)
Theorem grant_selection (w : world) (primary app_cfg : list (string * value))
    (m : manager) (name : string) :
  dict_item primary "name" = Some (VStr name) →
  let creds := truthy (dict_get primary "client_id")
               && truthy (dict_get primary "client_secret") in
  let tls := truthy (dict_get app_cfg "tls_cert_path")
             && truthy (dict_get app_cfg "tls_key_path") in
  let attempt := authorization_code_flow lib (flow w) primary app_cfg m in
  let run := main lib w primary app_cfg m in
  let fallback from :=
    snd (simulate_oauth_flow lib (simulation w) (VStr name) primary from) in
  fst run = Ok tt
  ∧ (creds && tls = true →
       (∀ v, fst attempt = Ok v → snd run = snd attempt)
       ∧ (∀ e, fst attempt = Raise e →
            ∃ warning, snd run = fallback (snd (log WARNING warning (snd attempt))))
       ∧ (Callback.setup (listener (flow w)) ≠ None
          ∨ Callback.no_callback
              (firstn 120 (Callback.arrivals (listener (flow w)))) = true
          ∨ (∀ r, token_endpoint (flow w) = Responds r → status r ≠ 200%Z) →
          ∃ e, fst attempt = Raise e))
  ∧ (∀ outcome,
       let attempt' :=
         authorization_code_flow lib
           {| nonce := nonce (flow w); browser := outcome;
              listener := listener (flow w);
              token_endpoint := token_endpoint (flow w);
              flow_iv := flow_iv (flow w) |} primary app_cfg m in
       fst attempt' = fst attempt ∧ _tokens (snd attempt') = _tokens (snd attempt))
  ∧ (tls = false →
       snd run = fallback m
       ∧ ∃ notice done,
           trace (snd run) = trace m ++ [Log WARNING notice; Log INFO done]).
Proof.
  intros Hname creds tls attempt run fallback.
  assert (Hcond : truthy (dict_get primary "client_id")
                  && truthy (dict_get primary "client_secret")
                  && truthy (dict_get app_cfg "tls_cert_path")
                  && truthy (dict_get app_cfg "tls_key_path") = creds && tls)
    by (unfold creds, tls; now rewrite !andb_assoc).
  assert (Hsim : ∀ from,
            (let* name := item primary "name" in
             simulate_oauth_flow lib (simulation w) name primary;; ret tt) from
            = (Ok tt, fallback from)).
  { intros from. unfold bind at 1. unfold item. rewrite Hname. unfold ret at 1.
    unfold fallback, bind.
    destruct (simulate_returns (simulation w) name primary from)
      as (token & m' & notice & done & E & _). now rewrite E. }
  assert (Hrun : run =
            if creds && tls then
              match attempt with
              | (Ok _, m1) => (Ok tt, m1)
              | (Raise e, m1) =>
                  (Ok tt,
                   fallback
                     (snd (log WARNING
                             ("Auth code flow failed (" +:+ str_exn lib e
                              +:+ "); continuing with simulated token for development")
                             m1)))
              end
            else (Ok tt, fallback m)).
  { unfold run, main. rewrite Hcond.
    destruct (creds && tls); [| apply Hsim].
    unfold try_except, bind at 1. fold attempt.
    destruct attempt as [[v | e] m1]; [reflexivity |].
    unfold bind at 1. unfold log at 1, emit at 1. now rewrite Hsim. }
  rewrite Hrun. split; [| split; [| split]].
  - destruct (creds && tls); [| reflexivity].
    now destruct attempt as [[v | e] m1].
  - intros Hct. rewrite Hct. split; [| split].
    + intros v Hv. destruct attempt as [[v' | e] m1]; [reflexivity | discriminate].
    + intros e He. destruct attempt as [[v' | e'] m1]; [discriminate |].
      eexists. reflexivity.
    + intros H. destruct attempt as [[v | e] m1] eqn:Ha; [exfalso | eauto].
      destruct (OAuthFacts.flow_ok lib _ _ _ _ _ _ Ha) as (Hs & Hq & r & Hr & Hst).
      destruct H as [H | [H | H]]; [contradiction | congruence |].
      exact (H r Hr Hst).
  - intros outcome attempt'.
    destruct (OAuthFacts.flow_whatever_browser lib (flow w) outcome primary
                app_cfg m m eq_refl) as [H1 H2].
    now split.
  - intros Htls. rewrite Htls, andb_false_r. cbn [snd]. split; [reflexivity |].
    unfold fallback.
    destruct (simulate_returns (simulation w) name primary m)
      as (token & m' & notice & done & E & _ & Ht & _).
    rewrite E. cbn [snd]. eauto.
Qed.

End WithLibrary.

End MainFacts.

(** ** The properties at work on concrete runs *)

Module Examples.
Import OAuth Main.

Lemma demo_cipher_correct : OAuthFacts.cipher_correct Demo.lib.
Proof. intros iv plain. cbn. now rewrite rev_involutive. Qed.





(** What [_encrypt_token] returns for a token that it takes. *)
Definition sealed (iv : list byte) (token : value) : list byte :=
  match _encrypt_token Demo.lib iv token with
  | Ok c => c
  | Raise _ => []
  end.

(** A store whose record for the bank has an empty access token. *)
Definition empty_token_manager : manager := {|
  _tokens := {[ "bank" := sealed [] (VDict [("access_token", VStr "")]) ]};
  trace := []
|}.

(** C1 as the specification has it fails: the record is stored, it
    decrypts, its [access_token] is the empty string, and [is_token_valid]
    returns True. *)
Lemma is_token_valid_empty_access_token :
  ∃ c, _tokens empty_token_manager !! "bank" = Some c
       ∧ _decrypt_token Demo.lib c = Ok (VDict [("access_token", VStr "")])
       ∧ fst (is_token_valid Demo.lib "bank" empty_token_manager) = Ok true.
Proof. eexists. split; [reflexivity |]. split; vm_compute; reflexivity. Qed.

(** A manager right after a simulated grant for the bank. *)
Definition demo_sim_world : sim_world :=
  {| mock_access := "r1"; mock_refresh := "r2"; sim_iv := [x07] |}.

Definition granted_manager : manager :=
  snd (simulate_oauth_flow Demo.lib demo_sim_world (VStr "bank") [] init).

Definition server_error : http_outcome :=
  Responds {| status := 500; json := Raise JSONDecodeError; text := Ok "down" |}.

Lemma refresh_token_raises_witness :
  ∃ error, fst (refresh_token Demo.lib server_error [] "bank" [] init)
           = Raise (OAuthError error).
Proof.
  apply (OAuthFacts.refresh_token_raises Demo.lib server_error [] "bank" [] init).
  left. reflexivity.
Defined.

Lemma password_grant_requires_credentials_witness :
  let run := password_grant_for_token Demo.lib server_error []
               [("client_id", VStr "x"); ("password", VStr "p")] granted_manager in
  (∃ error, run = (Raise (OAuthError error), granted_manager))
  ∧ ∀ url data, In (Post url data) (trace (snd run))
                → In (Post url data) (trace granted_manager).
Proof.
  apply (OAuthFacts.password_grant_requires_credentials Demo.lib).
  left. reflexivity.
Defined.

Lemma store_stays_encrypted_witness :
  OAuthFacts.encrypted Demo.lib
    (snd (perform Demo.lib
            (Refresh server_error [] "bank" [("client_id", VStr "x")])
            granted_manager)).
Proof.
  apply (OAuthFacts.store_stays_encrypted Demo.lib).
  apply (OAuthFacts.keeps_simulate Demo.lib), OAuthFacts.encrypted_init.
Defined.

(** The refresh of the granted token fails on the server error, and the
    token is still there. *)
Lemma failed_grant_keeps_store_witness :
  ∃ e m',
    perform Demo.lib
      (Refresh server_error []
               "bank" [("client_id", VStr "x"); ("client_secret", VStr "y");
                       ("token_url", VStr "https://bank/token")])
      granted_manager = (Raise e, m')
    ∧ _tokens m' = _tokens granted_manager
    ∧ ∀ name, _tokens m' !! name = _tokens granted_manager !! name.
Proof.
  match goal with
  | |- ∃ e m', ?run = _ ∧ _ =>
      assert (E : ∃ e m', run = (Raise e, m')) by (vm_compute; eauto)
  end.
  destruct E as (e & m' & E). exists e, m'. split; [exact E |].
  exact (OAuthFacts.failed_grant_keeps_store Demo.lib _ _ _ _ E).
Defined.


(** The primary bank as [load_config] builds it, with client credentials. *)
Definition primary : list (string * value) :=
  [("name", VStr "commerzbank_sandbox");
   ("client_id", VStr "x"); ("client_secret", VStr "y");
   ("redirect_uri", VStr "https://localhost:8443/callback");
   ("authorization_url", VStr "https://bank.example/auth");
   ("token_url", VStr "https://bank.example/token");
   ("scope", VStr "")].

Definition with_tls : list (string * value) :=
  [("tls_cert_path", VStr "cert.pem"); ("tls_key_path", VStr "key.pem")].

Definition without_tls : list (string * value) :=
  [("tls_cert_path", VStr ""); ("tls_key_path", VStr "")].

Definition token_granted : http_outcome :=
  Responds {| status := 200;
              json := Ok (VDict [("access_token", VStr "real")]);
              text := Ok "" |}.

(** No browser can be launched; the user pastes the URL, the redirect
    arrives, and the bank grants the token. *)
Definition no_browser_world : world := {|
  flow := {| nonce := "n0";
             browser := Raise (OtherError "webbrowser.Error");
             listener := CallbackFacts.redirect_world;
             token_endpoint := token_granted;
             flow_iv := [x01] |};
  simulation := demo_sim_world
|}.

(** C3 as the specification has it fails for the browser: the launch
    fails, [main] does not abort, and no simulated grant follows; the flow
    goes on to the listener and stores the token of the bank. *)
Lemma browser_failure_without_fallback :
  let run := main Demo.lib no_browser_world primary with_tls init in
  browser (flow no_browser_world) = Raise (OtherError "webbrowser.Error")
  ∧ fst run = Ok tt
  ∧ simulated (trace (snd run)) = false
  ∧ trace (snd run) =
      [Log INFO "Generated authorization URL for bank: commerzbank_sandbox";
       Log INFO "Open this URL to authenticate (copy/paste if it doesn't open automatically): https://bank.example/auth?response_type=code";
       Browser "https://bank.example/auth?response_type=code";
       Log WARNING "Browser launch failed: <exception>. Please copy/paste the URL above into your browser.";
       Listen (VStr "localhost") (VInt 8443) (VStr "cert.pem") (VStr "key.pem");
       Post (VStr "https://bank.example/token")
            [("grant_type", VStr "authorization_code"); ("code", VStr "ABC");
             ("redirect_uri", VStr "https://localhost:8443/callback");
             ("client_id", VStr "x"); ("client_secret", VStr "y")];
       Log INFO "Successfully obtained token for commerzbank_sandbox"]
  ∧ fst (get_access_token Demo.lib "commerzbank_sandbox" (snd run))
    = Ok (VStr "real").
Proof. vm_compute. repeat split. Qed.

(** Client credentials without TLS paths: the simulated grant at once. *)
Lemma grant_selection_witness :
  let run := main Demo.lib no_browser_world primary without_tls init in
  fst run = Ok tt
  ∧ listened (trace (snd run)) = false
  ∧ ∃ notice done, trace (snd run) = [Log WARNING notice; Log INFO done].
Proof.
  destruct (MainFacts.grant_selection Demo.lib no_browser_world primary
              without_tls init "commerzbank_sandbox" eq_refl)
    as (Hrun & _ & _ & Hdirect).
  destruct (Hdirect eq_refl) as (_ & notice & done & Ht).
  split; [exact Hrun |]. split; [| now exists notice, done].
  rewrite Ht. reflexivity.
Defined.

(** The same flow, with a [state] in the redirect that the manager never
    generated. *)
Definition forged_state_world : flow_world := {|
  nonce := "n0";
  browser := Raise (OtherError "webbrowser.Error");
  listener := {|
    Callback.setup := None;
    Callback.arrivals :=
      [[{| Callback.method := "GET"; Callback.path := "/"; Callback.query := [] |}];
       [{| Callback.method := "GET"; Callback.path := "/callback";
           Callback.query := [("state", "FORGED"); ("code", "ABC")] |};
        {| Callback.method := "GET"; Callback.path := "/favicon.ico";
           Callback.query := [] |}];
       [{| Callback.method := "GET"; Callback.path := "/callback";
           Callback.query := [("code", "LATE")] |}]]
  |};
  token_endpoint := token_granted;
  flow_iv := [x01]
|}.

Lemma forged_state_differs :
  differ_in_state_only (flow no_browser_world) forged_state_world.
Proof.
  repeat split. repeat constructor.
Qed.

Lemma callback_state_is_ignored_witness :
  authorization_code_flow Demo.lib (flow no_browser_world) primary with_tls init
  = authorization_code_flow Demo.lib forged_state_world primary with_tls init
  ∧ ∀ reply iv code state1 state2 m',
      exchange_code_for_token Demo.lib reply iv code primary state1 m'
      = exchange_code_for_token Demo.lib reply iv code primary state2 m'.
Proof.
  exact (OAuthFacts.callback_state_is_ignored Demo.lib (flow no_browser_world)
           forged_state_world primary with_tls init forged_state_differs).
Defined.

End Examples.

(** ** More of the OAuth manager: what a grant stores and what it raises *)

Module OAuthMore.
Import OAuth.

(** The name under which an operation stores its token, when it has one,
    and the entropy its encryption draws. *)
Definition store_key (op : operation) : option string :=
  match op with
  | Exchange _ _ _ bank_config _ | Password _ _ bank_config =>
      match dict_item bank_config "name" with
      | Some (VStr k) => Some k
      | _ => None
      end
  | Refresh _ _ bank_name _ => Some bank_name
  | Simulate _ (VStr k) _ => Some k
  | Simulate _ _ _ => None
  end.

Definition store_iv (op : operation) : list byte :=
  match op with
  | Exchange _ iv _ _ _ | Password _ iv _ | Refresh _ iv _ _ => iv
  | Simulate w _ _ => sim_iv w
  end.

Definition is_log (ev : event) : bool :=
  match ev with Log _ _ => true | _ => false end.

Definition is_post (ev : event) : bool :=
  match ev with Post _ _ => true | _ => false end.

(** The manager with the events [added] after its own. *)
Definition with_events (m : manager) (added : list event) : manager :=
  {| _tokens := _tokens m; trace := trace m ++ added |}.

Section WithLibrary.

Context (lib : library).

(** *** What each step leaves behind when it returns *)

Lemma with_events_nil (m : manager) : with_events m [] = m.
Proof. destruct m as [t tr]. unfold with_events. cbn. now rewrite app_nil_r. Qed.

Lemma with_events_app (m : manager) (a b : list event) :
  with_events (with_events m a) b = with_events m (a ++ b).
Proof. unfold with_events. cbn. now rewrite app_assoc. Qed.

Lemma item_ok (d : list (string * value)) (k : string) (m m' : manager) (v : value) :
  item d k m = (Ok v, m') → dict_item d k = Some v ∧ m' = m.
Proof.
  unfold item. destruct (dict_item d k) as [v' |]; [| discriminate].
  now intros [= -> ->].
Qed.

Lemma lift_same {A} (r : result A) (m m' : manager) (a : A) :
  lift r m = (Ok a, m') → r = Ok a ∧ m' = m.
Proof. unfold lift. now intros [= -> ->]. Qed.

Lemma log_ok (l : level) (msg : string) (m m' : manager) (u : unit) :
  log l msg m = (Ok u, m') → m' = with_events m [Log l msg].
Proof. now intros [= _ <-]. Qed.

Lemma emit_ok (ev : event) (m m' : manager) (u : unit) :
  emit ev m = (Ok u, m') → m' = with_events m [ev].
Proof. now intros [= _ <-]. Qed.

Lemma post_ok (reply : http_outcome) (url : value) (data : list (string * value))
    (m m' : manager) (r : response) :
  post reply url data m = (Ok r, m') →
  reply = Responds r ∧ m' = with_events m [Post url data].
Proof.
  unfold post, bind, emit. destruct reply as [r' | e]; [| discriminate].
  now intros [= -> <-].
Qed.

Lemma set_token_ok (bank_name : value) (c : list byte) (m m' : manager) (u : unit) :
  set_token bank_name c m = (Ok u, m') →
  ∃ k, bank_name = VStr k
       ∧ m' = {| _tokens := <[k := c]> (_tokens m); trace := trace m |}.
Proof.
  destruct bank_name as [| | | k | |]; try discriminate.
  intros [= _ <-]. now exists k.
Qed.

Tactic Notation "bind_inv" hyp(H) "as" ident(a) ident(m0) ident(E) :=
  apply OAuthFacts.bind_ok in H as (a & m0 & E & H).

(** A handler that raises whatever it is given: the block returned. *)
Lemma try_ok {A} (c : M A) (h : exn → M A) (m m' : manager) (a : A) :
  (∀ e m0, ∃ e' m1, h e m0 = (Raise e', m1)) →
  try_except c h m = (Ok a, m') → c m = (Ok a, m').
Proof.
  intros Hh. unfold try_except. destruct (c m) as [[a' | e] m0]; [trivial |].
  destruct (Hh e m0) as (e' & m1 & ->). discriminate.
Qed.

Lemma exchange_handler_raises (e : exn) (m0 : manager) :
  ∃ e' m1,
    match e with
    | TimeoutError => raise (OAuthError "Token exchange timed out")
    | _ =>
        log ERROR ("Token exchange error: " +:+ str_exn lib e);;
        @raise value (OAuthError ("Token exchange failed: " +:+ str_exn lib e))
    end m0 = (Raise e', m1)
    ∧ is_oauth_error e' = true.
Proof. destruct e; eexists; eexists; split; reflexivity. Qed.

Lemma exchange_stores (reply : http_outcome) (iv : list byte) (code : value)
    (bank_config : list (string * value)) (state : string)
    (m m' : manager) (v : value) :
  exchange_code_for_token lib reply iv code bank_config state m = (Ok v, m') →
  ∃ k c added,
    dict_item bank_config "name" = Some (VStr k)
    ∧ _encrypt_token lib iv v = Ok c
    ∧ m' = with_events {| _tokens := <[k := c]> (_tokens m);
                          trace := trace m |} added.
Proof.
  unfold exchange_code_for_token. intros H.
  bind_inv H as redirect_uri m1 E1. apply item_ok in E1 as [_ ->].
  bind_inv H as client_id m2 E2. apply item_ok in E2 as [_ ->].
  bind_inv H as client_secret m3 E3. apply item_ok in E3 as [_ ->].
  apply try_ok in H;
    [| intros e m0; destruct (exchange_handler_raises e m0) as (e' & m1 & He & _); eauto].
  bind_inv H as token_url m4 E4. apply item_ok in E4 as [_ ->].
  bind_inv H as response m5 E5. apply post_ok in E5 as [_ ->].
  destruct (status response =? 200)%Z; [| bind_inv H as txt m6 E6; discriminate].
  bind_inv H as token_response m6 E6. apply lift_same in E6 as [_ ->].
  bind_inv H as bank_name m7 E7. apply item_ok in E7 as [Hn ->].
  bind_inv H as c m7 E7. apply lift_same in E7 as [Hc ->].
  bind_inv H as u1 m8 E8. apply set_token_ok in E8 as (k & -> & ->).
  bind_inv H as u2 m9 E9. apply log_ok in E9 as ->.
  injection H as <- <-. exists k, c. eexists. split; [exact Hn |].
  split; [exact Hc |].
  unfold with_events. cbn. rewrite <- app_assoc. reflexivity.
Qed.

Lemma password_stores (reply : http_outcome) (iv : list byte)
    (bank_config : list (string * value)) (m m' : manager) (v : value) :
  password_grant_for_token lib reply iv bank_config m = (Ok v, m') →
  ∃ k c added,
    dict_item bank_config "name" = Some (VStr k)
    ∧ _encrypt_token lib iv v = Ok c
    ∧ m' = with_events {| _tokens := <[k := c]> (_tokens m);
                          trace := trace m |} added.
Proof.
  unfold password_grant_for_token. intros H.
  destruct (negb (truthy (dict_get bank_config "username"))
            || negb (truthy (dict_get bank_config "password"))); [discriminate |].
  bind_inv H as username m1 E1. apply item_ok in E1 as [_ ->].
  bind_inv H as password m2 E2. apply item_ok in E2 as [_ ->].
  bind_inv H as client_id m3 E3. apply item_ok in E3 as [_ ->].
  bind_inv H as client_secret m4 E4. apply item_ok in E4 as [_ ->].
  bind_inv H as token_url m5 E5. apply item_ok in E5 as [_ ->].
  bind_inv H as resp m6 E6. apply post_ok in E6 as [_ ->].
  destruct (status resp =? 200)%Z; [| bind_inv H as txt m7 E7; discriminate].
  bind_inv H as token_response m7 E7. apply lift_same in E7 as [_ ->].
  bind_inv H as bank_name m8 E8. apply item_ok in E8 as [Hn ->].
  bind_inv H as c m8 E8. apply lift_same in E8 as [Hc ->].
  bind_inv H as u1 m9 E9. apply set_token_ok in E9 as (k & -> & ->).
  bind_inv H as u2 m10 E10. apply log_ok in E10 as ->.
  injection H as <- <-. exists k, c. eexists. split; [exact Hn |].
  split; [exact Hc |].
  unfold with_events. cbn. rewrite <- app_assoc. reflexivity.
Qed.

Lemma refresh_handler_raises (bank_name : string) (e : exn) (m0 : manager) :
  ∃ e' m1,
    (log ERROR ("Token refresh error for " +:+ bank_name +:+ ": " +:+ str_exn lib e);;
     @raise value (OAuthError ("Token refresh failed: " +:+ str_exn lib e))) m0
    = (Raise e', m1)
    ∧ is_oauth_error e' = true.
Proof. eexists. eexists. split; reflexivity. Qed.

Lemma refresh_stores (reply : http_outcome) (iv : list byte) (bank_name : string)
    (bank_config : list (string * value)) (m m' : manager) (v : value) :
  refresh_token lib reply iv bank_name bank_config m = (Ok v, m') →
  ∃ c added,
    _encrypt_token lib iv v = Ok c
    ∧ m' = with_events {| _tokens := <[bank_name := c]> (_tokens m);
                          trace := trace m |} added.
Proof.
  unfold refresh_token. intros H.
  destruct (_tokens m !! bank_name) as [stored |]; [| discriminate].
  apply try_ok in H;
    [| intros e m0; destruct (refresh_handler_raises bank_name e m0)
                      as (e' & m1 & He & _); eauto].
  bind_inv H as current_token m1 E1. apply lift_same in E1 as [_ ->].
  bind_inv H as refresh m2 E2. apply lift_same in E2 as [_ ->].
  destruct (negb (truthy refresh)); [discriminate |].
  bind_inv H as client_id m3 E3. apply item_ok in E3 as [_ ->].
  bind_inv H as client_secret m4 E4. apply item_ok in E4 as [_ ->].
  bind_inv H as token_url m5 E5. apply item_ok in E5 as [_ ->].
  bind_inv H as response m6 E6. apply post_ok in E6 as [_ ->].
  destruct (status response =? 200)%Z; [| bind_inv H as txt m7 E7; discriminate].
  bind_inv H as token_response m7 E7. apply lift_same in E7 as [_ ->].
  bind_inv H as c m7 E7. apply lift_same in E7 as [Hc ->].
  bind_inv H as u1 m8 E8. apply set_token_ok in E8 as (k & [= <-] & ->).
  bind_inv H as u2 m9 E9. apply log_ok in E9 as ->.
  injection H as <- <-. exists c. eexists. split; [exact Hc |].
  unfold with_events. cbn. rewrite <- app_assoc. reflexivity.
Qed.

Lemma simulate_stores (w : sim_world) (bank_name : value)
    (bank_config : list (string * value)) (m m' : manager) (v : value) :
  simulate_oauth_flow lib w bank_name bank_config m = (Ok v, m') →
  ∃ k c added,
    bank_name = VStr k
    ∧ _encrypt_token lib (sim_iv w) v = Ok c
    ∧ m' = with_events {| _tokens := <[k := c]> (_tokens m);
                          trace := trace m |} added.
Proof.
  unfold simulate_oauth_flow. intros H.
  bind_inv H as u0 m1 E1. apply log_ok in E1 as ->.
  bind_inv H as c m2 E2. apply lift_same in E2 as [Hc ->].
  bind_inv H as u1 m2 E2. apply set_token_ok in E2 as (k & -> & ->).
  bind_inv H as u2 m3 E3. apply log_ok in E3 as ->.
  injection H as <- <-. exists k, c. eexists. split; [reflexivity |].
  split; [exact Hc |].
  unfold with_events. cbn. rewrite <- app_assoc. reflexivity.
Qed.

Lemma stored_after_return (op : operation) (m m' : manager) (v : value) :
  perform lib op m = (Ok v, m') →
  ∃ k c, store_key op = Some k
         ∧ _encrypt_token lib (store_iv op) v = Ok c
         ∧ _tokens m' = <[k := c]> (_tokens m).
Proof.
  intros H. destruct op as [reply iv code cfg st | reply iv cfg | reply iv name cfg | w name cfg];
    cbn [perform store_key store_iv] in *.
  - apply exchange_stores in H as (k & c & added & Hn & Hc & ->). rewrite Hn.
    now exists k, c.
  - apply password_stores in H as (k & c & added & Hn & Hc & ->). rewrite Hn.
    now exists k, c.
  - apply refresh_stores in H as (c & added & Hc & ->). now exists name, c.
  - apply simulate_stores in H as (k & c & added & -> & Hc & ->). now exists k, c.
Qed.

(** X2. An operation for a bank whose name is a string, when it returns a
    token, has stored what [_encrypt_token] made of that very token under
    the name of the bank, and has changed nothing else in the store. *)
Theorem returned_token_is_stored (op : operation) (m m' : manager) (v : value)
    (k : string) :
  store_key op = Some k →
  perform lib op m = (Ok v, m') →
  ∃ c, _encrypt_token lib (store_iv op) v = Ok c
       ∧ _tokens m' = <[k := c]> (_tokens m).
Proof.
  intros Hk H. apply stored_after_return in H as (k' & c & Hk' & Hc & Ht).
  rewrite Hk in Hk'. injection Hk' as <-. now exists c.
Qed.

(** X3. No operation touches the token of another bank, whether it returns
    or raises. *)
Theorem other_banks_untouched (op : operation) (m : manager) (other : string) :
  store_key op ≠ Some other →
  _tokens (snd (perform lib op m)) !! other = _tokens m !! other.
Proof.
  intros Hk. destruct (perform lib op m) as [[v | e] m'] eqn:H; cbn [snd].
  - apply stored_after_return in H as (k & c & Hs & _ & ->).
    apply lookup_insert_ne. congruence.
  - assert (K : _tokens m' = _tokens m); [| now rewrite K].
    destruct op; cbn [perform] in H.
    + eapply OAuthFacts.atomic_exchange; eassumption.
    + eapply OAuthFacts.atomic_password; eassumption.
    + eapply OAuthFacts.atomic_refresh; eassumption.
    + eapply OAuthFacts.atomic_simulate; eassumption.
Qed.

(** *** Reading back what was stored *)

Lemma get_access_token_quiet (bank_name : string) (m : manager) :
  ∃ v added,
    get_access_token lib bank_name m = (Ok v, with_events m added)
    ∧ (added = [] ∨ (v = VNone ∧ ∃ msg, added = [Log ERROR msg])).
Proof.
  unfold get_access_token.
  destruct (_tokens m !! bank_name) as [c |].
  - unfold try_except, bind, lift, log, emit, ret.
    destruct (_decrypt_token lib c) as [[| | | | |] |]; cbn;
      try (exists VNone; eexists; split; [reflexivity | right; eauto]).
    eexists. exists []. rewrite with_events_nil. split; [reflexivity | now left].
  - exists VNone, []. rewrite with_events_nil. split; [reflexivity | now left].
Qed.

(** X1. [get_access_token] never raises and never changes the store.  It
    adds no event, or else it returns None and adds one ERROR line (the
    stored bytes did not give a dict). *)
Theorem get_access_token_is_quiet (bank_name : string) (m : manager) :
  ∃ v added,
    get_access_token lib bank_name m = (Ok v, with_events m added)
    ∧ (added = [] ∨ (v = VNone ∧ ∃ msg, added = [Log ERROR msg])).
Proof. apply get_access_token_quiet. Qed.

Lemma is_token_valid_stored (k : string) (m : manager) (c : list byte)
    (d : list (string * value)) :
  _tokens m !! k = Some c → _decrypt_token lib c = Ok (VDict d) →
  is_token_valid lib k m = (Ok (is_not_none (dict_get d "access_token")), m).
Proof.
  intros Hs Hd. unfold is_token_valid. rewrite Hs. unfold bind.
  now rewrite (OAuthFacts.get_access_token_stored lib k m c d Hs Hd).
Qed.

Lemma stored_reads_back (op : operation) (m m' : manager)
    (record : list (string * value)) (k : string) :
  OAuthFacts.cipher_correct lib →
  well_formed (VDict record) = true →
  JsonFacts.nesting (VDict record) ≤ S (decoder_depth lib) →
  store_key op = Some k →
  perform lib op m = (Ok (VDict record), m') →
  get_access_token lib k m' = (Ok (dict_get record "access_token"), m')
  ∧ is_token_valid lib k m'
    = (Ok (is_not_none (dict_get record "access_token")), m').
Proof.
  intros Hc Hwf Hn Hk H. apply stored_after_return in H as (k' & c & Hk' & He & Ht).
  rewrite Hk in Hk'. injection Hk' as <-.
  assert (Hs : _tokens m' !! k = Some c) by (rewrite Ht; apply lookup_insert_eq).
  pose proof (OAuthFacts.decrypt_encrypt lib (store_iv op) _ c Hc Hwf He Hn) as Hd.
  split.
  - exact (OAuthFacts.get_access_token_stored lib k m' _ record Hs Hd).
  - exact (is_token_valid_stored k m' _ record Hs Hd).
Qed.

(** X4. After an operation for a bank whose name is a string has returned
    a record, with a cipher that gives back what it was given and room in
    [json.loads] for the nesting of the record, [get_access_token] for the
    bank returns the [access_token] of that record, and [is_token_valid]
    tells whether it is there (not None); neither adds an event. *)
Theorem stored_token_reads_back (op : operation) (m m' : manager)
    (record : list (string * value)) (k : string) :
  OAuthFacts.cipher_correct lib →
  well_formed (VDict record) = true →
  JsonFacts.nesting (VDict record) ≤ S (decoder_depth lib) →
  store_key op = Some k →
  perform lib op m = (Ok (VDict record), m') →
  get_access_token lib k m' = (Ok (dict_get record "access_token"), m')
  ∧ is_token_valid lib k m'
    = (Ok (is_not_none (dict_get record "access_token")), m').
Proof. apply stored_reads_back. Qed.

Lemma simulated_token_valid (w : sim_world) (name : string)
    (bank_config : list (string * value)) (m : manager) :
  OAuthFacts.cipher_correct lib →
  ∃ token m',
    simulate_oauth_flow lib w (VStr name) bank_config m = (Ok token, m')
    ∧ is_token_valid lib name m' = (Ok true, m')
    ∧ get_access_token lib name m'
      = (Ok (VStr ("mock_access_token_" +:+ mock_access w)), m').
Proof.
  intros Hc.
  destruct (MainFacts.simulate_returns lib w name bank_config m)
    as (token & m' & notice & done & E & _).
  exists token, m'. split; [exact E |].
  assert (Ht : ∃ d, token = VDict d ∧ well_formed (VDict d) = true
                    ∧ dict_get d "access_token"
                      = VStr ("mock_access_token_" +:+ mock_access w)
                    ∧ JsonFacts.nesting (VDict d) ≤ S (decoder_depth lib)).
  { unfold simulate_oauth_flow in E.
    cbv beta iota zeta delta [bind log emit ret lift] in E.
    rewrite MainFacts.encrypt_mock_token in E.
    cbv beta iota zeta delta [set_token] in E.
    injection E as <- _. eexists. split; [reflexivity |]. split; [reflexivity |].
    split; [reflexivity | apply le_n_S, Nat.le_0_l]. }
  destruct Ht as (d & -> & Hwf & Ha & Hn).
  destruct (stored_reads_back (Simulate w (VStr name) bank_config) m m' d name
              Hc Hwf Hn eq_refl E) as (Hg & Hv).
  rewrite Ha in Hg, Hv. now split.
Qed.

(** X5. After the simulated grant for a bank whose name is a string, and
    with a cipher that gives back what it was given, the token of the bank
    is valid and its access token is ["mock_access_token_"] followed by the
    random part drawn for it. *)
Theorem simulated_token_is_valid (w : sim_world) (name : string)
    (bank_config : list (string * value)) (m : manager) :
  OAuthFacts.cipher_correct lib →
  ∃ token m',
    simulate_oauth_flow lib w (VStr name) bank_config m = (Ok token, m')
    ∧ is_token_valid lib name m' = (Ok true, m')
    ∧ get_access_token lib name m'
      = (Ok (VStr ("mock_access_token_" +:+ mock_access w)), m').
Proof. apply simulated_token_valid. Qed.

(** *** What the grants raise *)

Lemma try_raises {A} (c : M A) (h : exn → M A) (m m' : manager) (e : exn) :
  (∀ e0 m0, ∃ e1 m1, h e0 m0 = (Raise e1, m1) ∧ is_oauth_error e1 = true) →
  try_except c h m = (Raise e, m') → is_oauth_error e = true.
Proof.
  intros Hh. unfold try_except. destruct (c m) as [[a | e0] m0]; [discriminate |].
  destruct (Hh e0 m0) as (e1 & m1 & -> & He). now intros [= <- _].
Qed.

(** X6. Whatever goes wrong in [refresh_token] (no record, a record that
    does not decrypt, a missing configuration key, the transport, the
    status, the body), the exception that leaves it is an [OAuthError]. *)
Theorem refresh_raises_oauth_error_only (reply : http_outcome) (iv : list byte)
    (bank_name : string) (bank_config : list (string * value))
    (m m' : manager) (e : exn) :
  refresh_token lib reply iv bank_name bank_config m = (Raise e, m') →
  is_oauth_error e = true.
Proof.
  unfold refresh_token.
  destruct (_tokens m !! bank_name) as [stored |]; [| now intros [= <- _]].
  apply try_raises. intros e0 m0. apply refresh_handler_raises.
Qed.

Lemma item_raises (d : list (string * value)) (k : string) (m m' : manager) (e : exn) :
  item d k m = (@Raise value e, m') → e = KeyError k ∧ dict_item d k = None.
Proof.
  unfold item. destruct (dict_item d k); [discriminate |]. now intros [= <- _].
Qed.

Lemma bind_raises {A B} (c : M A) (k : A → M B) (m m' : manager) (e : exn) :
  bind c k m = (Raise e, m') →
  c m = (Raise e, m') ∨ ∃ a m0, c m = (Ok a, m0) ∧ k a m0 = (Raise e, m').
Proof.
  unfold bind. destruct (c m) as [[a | e0] m0]; [eauto |]. intros [= <- <-]. now left.
Qed.

(** X7. [exchange_code_for_token] raises an [OAuthError], or else the
    [KeyError] of one of the three configuration keys it reads before its
    [try] block. *)
Theorem exchange_raises_oauth_or_key_error (reply : http_outcome) (iv : list byte)
    (code : value) (bank_config : list (string * value)) (state : string)
    (m m' : manager) (e : exn) :
  exchange_code_for_token lib reply iv code bank_config state m = (Raise e, m') →
  is_oauth_error e = true
  ∨ ∃ k, e = KeyError k ∧ dict_item bank_config k = None
         ∧ In k ["redirect_uri"; "client_id"; "client_secret"].
Proof.
  unfold exchange_code_for_token. intros H.
  apply bind_raises in H as [H | (a1 & m1 & _ & H)];
    [apply item_raises in H as [-> Hn]; right; eexists; repeat split; eauto; cbn; auto |].
  apply bind_raises in H as [H | (a2 & m2 & _ & H)];
    [apply item_raises in H as [-> Hn]; right; eexists; repeat split; eauto; cbn; auto |].
  apply bind_raises in H as [H | (a3 & m3 & _ & H)];
    [apply item_raises in H as [-> Hn]; right; eexists; repeat split; eauto; cbn; auto |].
  left. revert H. apply try_raises. intros e0 m0. apply exchange_handler_raises.
Qed.

(** X8. [password_grant_for_token] has no [try] block: with credentials
    and configuration in place, an exception of the transport (a time-out,
    say) leaves it as it is, not as an [OAuthError]; the request was made
    and the store is what it was. *)
Theorem password_grant_lets_transport_errors_through (e : exn) (iv : list byte)
    (bank_config : list (string * value)) (m : manager)
    (username password client_id client_secret token_url : value) :
  dict_item bank_config "username" = Some username → truthy username = true →
  dict_item bank_config "password" = Some password → truthy password = true →
  dict_item bank_config "client_id" = Some client_id →
  dict_item bank_config "client_secret" = Some client_secret →
  dict_item bank_config "token_url" = Some token_url →
  password_grant_for_token lib (Fails e) iv bank_config m
  = (Raise e,
     with_events m
       [Post token_url [("grant_type", VStr "password"); ("username", username);
                        ("password", password); ("client_id", client_id);
                        ("client_secret", client_secret)]]).
Proof.
  intros Hu Tu Hp Tp Hi Hs Ht. unfold password_grant_for_token, dict_get.
  rewrite Hu, Hp, Tu, Tp. cbn [negb orb].
  unfold bind, item. rewrite Hu, Hp, Hi, Hs, Ht. reflexivity.
Qed.

(** X9. The record that a refresh stores replaces the old one as a whole:
    when the token endpoint answers a refresh with a record that has no
    [refresh_token] of its own, the next refresh for the bank raises
    [OAuthError], whatever the endpoint would answer. *)
Theorem refresh_token_is_not_carried_over (reply : http_outcome) (iv : list byte)
    (bank_name : string) (bank_config : list (string * value)) (m m' : manager)
    (record : list (string * value))
    (reply' : http_outcome) (iv' : list byte) (bank_config' : list (string * value)) :
  OAuthFacts.cipher_correct lib →
  well_formed (VDict record) = true →
  truthy (dict_get record "refresh_token") = false →
  refresh_token lib reply iv bank_name bank_config m = (Ok (VDict record), m') →
  ∃ error, fst (refresh_token lib reply' iv' bank_name bank_config' m')
           = Raise (OAuthError error).
Proof.
  intros Hc Hwf Hr H. apply refresh_stores in H as (c & added & He & ->).
  unfold refresh_token at 1. cbn [with_events _tokens]. rewrite lookup_insert_eq.
  unfold try_except, bind at 1, lift at 1.
  destruct (_decrypt_token lib c) as [out | e] eqn:Hd.
  - rewrite (OAuthFacts.decrypt_encrypt_only lib iv _ out c Hc Hwf He Hd).
    unfold bind, lift. cbn [get_method]. rewrite Hr. cbn. eexists. reflexivity.
  - cbn. eexists. reflexivity.
Qed.

(** *** What the authorization-code flow does to the outside *)

(** The computation leaves the store alone and adds only events that
    [allowed] admits. *)
Definition effects {A} (allowed : event → bool) (c : M A) : Prop :=
  ∀ m, ∃ added, snd (c m) = with_events m added ∧ forallb allowed added = true.

(** The computation raises, and so within [effects]. *)
Definition ends {A} (allowed : event → bool) (c : M A) : Prop :=
  ∀ m, ∃ e added, c m = (Raise e, with_events m added)
                  ∧ forallb allowed added = true.

Lemma effects_ret {A} (P : event → bool) (a : A) : effects P (ret a).
Proof. intros m. exists []. now rewrite with_events_nil. Qed.

Lemma effects_raise {A} (P : event → bool) (e : exn) : effects P (@raise A e).
Proof. intros m. exists []. now rewrite with_events_nil. Qed.

Lemma effects_lift {A} (P : event → bool) (r : result A) : effects P (lift r).
Proof. intros m. exists []. now rewrite with_events_nil. Qed.

Lemma effects_emit (P : event → bool) (ev : event) : P ev = true → effects P (emit ev).
Proof. intros H m. exists [ev]. cbn. now rewrite H. Qed.

Lemma effects_item (P : event → bool) (d : list (string * value)) (k : string) :
  effects P (item d k).
Proof.
  unfold item. destruct (dict_item d k); [apply effects_ret | apply effects_raise].
Qed.

Lemma effects_bind {A B} (P : event → bool) (c : M A) (k : A → M B) :
  effects P c → (∀ a, effects P (k a)) → effects P (bind c k).
Proof.
  intros Hc Hk m. unfold bind. destruct (Hc m) as (a1 & E1 & F1).
  destruct (c m) as [[a | e] m1]; cbn [snd] in E1; subst m1.
  - destruct (Hk a (with_events m a1)) as (a2 & E2 & F2).
    exists (a1 ++ a2). rewrite E2, with_events_app, forallb_app, F1, F2. now split.
  - now exists a1.
Qed.

Lemma effects_try {A} (P : event → bool) (c : M A) (h : exn → M A) :
  effects P c → (∀ e, effects P (h e)) → effects P (try_except c h).
Proof.
  intros Hc Hh m. unfold try_except. destruct (Hc m) as (a1 & E1 & F1).
  destruct (c m) as [[a | e] m1]; cbn [snd] in E1; subst m1.
  - now exists a1.
  - destruct (Hh e (with_events m a1)) as (a2 & E2 & F2).
    exists (a1 ++ a2). rewrite E2, with_events_app, forallb_app, F1, F2. now split.
Qed.

Lemma ends_raise {A} (P : event → bool) (e : exn) : ends P (@raise A e).
Proof. intros m. exists e, []. now rewrite with_events_nil. Qed.

Lemma ends_bind {A B} (P : event → bool) (c : M A) (k : A → M B) :
  effects P c → (∀ a, ends P (k a)) → ends P (bind c k).
Proof.
  intros Hc Hk m. unfold bind. destruct (Hc m) as (a1 & E1 & F1).
  destruct (c m) as [[a | e] m1]; cbn [snd] in E1; subst m1.
  - destruct (Hk a (with_events m a1)) as (e & a2 & E2 & F2).
    exists e, (a1 ++ a2). rewrite E2, with_events_app, forallb_app, F1, F2. now split.
  - now exists e, a1.
Qed.

Lemma ends_lift_ok {A B} (P : event → bool) (a : A) (k : A → M B) :
  ends P (k a) → ends P (bind (lift (Ok a)) k).
Proof. intros H m. unfold bind, lift. apply H. Qed.

Ltac effects_step :=
  lazymatch goal with
  | |- effects _ (bind _ _) => apply effects_bind; [| intros ?]
  | |- effects _ (try_except _ _) => apply effects_try; [| intros ?]
  | |- effects _ (ret _) => apply effects_ret
  | |- effects _ (raise _) => apply effects_raise
  | |- effects _ (lift _) => apply effects_lift
  | |- effects _ (log _ _) => apply effects_emit; reflexivity
  | |- effects _ (emit _) => apply effects_emit; reflexivity
  | |- effects _ (item _ _) => apply effects_item
  | |- effects _ (if ?b then _ else _) => destruct b
  | |- effects _ (match ?x with _ => _ end) => destruct x
  end.

Ltac ends_step :=
  lazymatch goal with
  | |- ends _ (bind _ _) => apply ends_bind; [repeat effects_step | intros ?]
  | |- ends _ (raise _) => apply ends_raise
  | |- ends _ (match ?x with _ => _ end) => destruct x
  end.

Lemma effects_generate_url (P : event → bool) (nonce : string)
    (bank_config : list (string * value)) :
  (∀ l msg, P (Log l msg) = true) →
  effects P (generate_authorization_url lib nonce bank_config).
Proof.
  intros HP. unfold generate_authorization_url.
  repeat first [apply effects_emit; apply HP | effects_step].
Qed.

(** X10. Without a TLS certificate path or key path,
    [authorization_code_flow] raises; it has written log lines at most: no
    browser was opened, no listener started, nothing posted, and the store
    is what it was. *)
Theorem flow_without_tls_stays_inside (w : flow_world)
    (bank_config app_config : list (string * value)) (m : manager) :
  truthy (dict_get app_config "tls_cert_path") = false
  ∨ truthy (dict_get app_config "tls_key_path") = false →
  ∃ e added,
    authorization_code_flow lib w bank_config app_config m
    = (Raise e, with_events m added)
    ∧ forallb is_log added = true.
Proof.
  intros H.
  assert (E : negb (truthy (dict_get app_config "tls_cert_path"))
              || negb (truthy (dict_get app_config "tls_key_path")) = true).
  { destruct H as [-> | ->]; [reflexivity | apply orb_true_r]. }
  revert m.
  change (ends is_log (authorization_code_flow lib w bank_config app_config)).
  unfold authorization_code_flow. rewrite E.
  apply ends_bind; [now apply effects_generate_url |]. intros [auth_url state].
  repeat ends_step.
Qed.

Definition not_post (ev : event) : bool := negb (is_post ev).

(** X11. When the redirect reports an error, or carries no code,
    [authorization_code_flow] raises without a request to the token
    endpoint, and the store is what it was. *)
Theorem flow_without_code_posts_nothing (w : flow_world)
    (bank_config app_config : list (string * value)) (m : manager)
    (result : list (string * value)) :
  (∀ host port cert key,
     fst (fst (Callback.run_https_callback_server (listener w) host port cert key 120))
     = Ok (VDict result)) →
  truthy (dict_get result "error") = true
  ∨ truthy (dict_get result "code") = false →
  ∃ e added,
    authorization_code_flow lib w bank_config app_config m
    = (Raise e, with_events m added)
    ∧ existsb is_post added = false.
Proof.
  intros Hr Hbad.
  cut (ends not_post (authorization_code_flow lib w bank_config app_config)).
  { intros K. destruct (K m) as (e & added & E & F). exists e, added.
    split; [exact E |]. clear -F. induction added as [|ev added IH]; [reflexivity |].
    cbn in *. apply andb_true_iff in F as [F1 F2]. unfold not_post in F1.
    apply negb_true_iff in F1. now rewrite F1, IH. }
  unfold authorization_code_flow.
  apply ends_bind; [now apply effects_generate_url |]. intros [auth_url state].
  do 3 ends_step.
  match goal with |- ends _ (if ?b then _ else _) => destruct b end;
    [apply ends_raise |].
  do 3 ends_step. rewrite Hr.
  apply ends_lift_ok. cbn [get_method]. apply ends_lift_ok.
  destruct (truthy (dict_get result "error")) eqn:He.
  - apply ends_lift_ok, ends_raise.
  - destruct Hbad as [Hbad | Hbad]; [discriminate |].
    apply ends_lift_ok. rewrite Hbad. apply ends_raise.
Qed.

Lemma effects_ok {A} (P : event → bool) (c : M A) (m m1 : manager) (a : A) :
  effects P c → c m = (Ok a, m1) → ∃ added, m1 = with_events m added.
Proof.
  intros Hc E. destruct (Hc m) as (added & E1 & _). rewrite E in E1. now exists added.
Qed.

Definition any_event (ev : event) : bool := true.

(** X12. When [authorization_code_flow] returns a token, the listener was
    set up, a request reached [/callback] within the 120 seconds, the token
    endpoint answered 200, and, for a bank whose name is a string, what
    [_encrypt_token] made of the token is stored under that name; the rest
    of the store is as before. *)
Theorem flow_success_stores (w : flow_world)
    (bank_config app_config : list (string * value)) (m m' : manager) (v : value) :
  authorization_code_flow lib w bank_config app_config m = (Ok v, m') →
  (∀ k, dict_item bank_config "name" = Some (VStr k) →
        ∃ c, _encrypt_token lib (flow_iv w) v = Ok c
             ∧ _tokens m' = <[k := c]> (_tokens m))
  ∧ Callback.setup (listener w) = None
  ∧ Callback.no_callback (firstn 120 (Callback.arrivals (listener w))) = false
  ∧ ∃ r, token_endpoint w = Responds r ∧ status r = 200%Z.
Proof.
  intros H. split; [| exact (OAuthFacts.flow_ok lib _ _ _ _ _ _ H)].
  unfold authorization_code_flow in H.
  bind_inv H as url_state m1 E1. destruct url_state as [auth_url state].
  apply (effects_ok any_event) in E1 as (a1 & ->);
    [| now apply effects_generate_url].
  bind_inv H as redirect m2 E2. apply item_ok in E2 as [_ ->].
  bind_inv H as parsed_hostname m3 E3. apply lift_same in E3 as [_ ->].
  bind_inv H as parsed_port m4 E4. apply lift_same in E4 as [_ ->].
  match type of H with (if ?b then _ else _) _ = _ => destruct b end;
    [discriminate |].
  bind_inv H as u1 m5 E5. apply log_ok in E5 as ->.
  bind_inv H as u2 m6 E6.
  apply (effects_ok any_event) in E6 as (a2 & ->); [| repeat effects_step].
  bind_inv H as u3 m7 E7. apply emit_ok in E7 as ->.
  bind_inv H as result m8 E8. apply lift_same in E8 as [_ ->].
  bind_inv H as error m9 E9. apply lift_same in E9 as [_ ->].
  destruct (truthy error); [bind_inv H as d m10 E10; discriminate |].
  bind_inv H as code m10 E10. apply lift_same in E10 as [_ ->].
  destruct (negb (truthy code)); [discriminate |].
  apply exchange_stores in H as (k' & c & added & Hn & Hc & ->).
  intros k Hk. rewrite Hk in Hn. injection Hn as <-.
  exists c. split; [exact Hc | reflexivity].
Qed.

(** *** A failed flow *)

Ltac untouched_step :=
  lazymatch goal with
  | |- OAuthFacts.untouched (bind _ _) => apply OAuthFacts.untouched_bind; [| intros ?]
  | |- OAuthFacts.untouched (ret _) => apply OAuthFacts.untouched_ret
  | |- OAuthFacts.untouched (raise _) => apply OAuthFacts.untouched_raise
  | |- OAuthFacts.untouched (lift _) => apply OAuthFacts.untouched_lift
  | |- OAuthFacts.untouched (log _ _) => apply OAuthFacts.untouched_log
  | |- OAuthFacts.untouched (emit _) => apply OAuthFacts.untouched_emit
  | |- OAuthFacts.untouched (item _ _) => apply OAuthFacts.untouched_item
  | |- OAuthFacts.untouched (if ?b then _ else _) => destruct b
  | |- OAuthFacts.untouched (match ?x with _ => _ end) => destruct x
  end.

Lemma untouched_try {A} (c : M A) (h : exn → M A) :
  OAuthFacts.untouched c → (∀ e, OAuthFacts.untouched (h e)) →
  OAuthFacts.untouched (try_except c h).
Proof.
  intros Hc Hh m. unfold try_except. specialize (Hc m).
  destruct (c m) as [[a | e] m']; cbn in *; [exact Hc |]. now rewrite Hh.
Qed.

Lemma flow_atomic (w : flow_world)
    (bank_config app_config : list (string * value)) :
  OAuthFacts.atomic (authorization_code_flow lib w bank_config app_config).
Proof.
  unfold authorization_code_flow, generate_authorization_url.
  repeat first
    [ apply OAuthFacts.atomic_exchange
    | apply OAuthFacts.atomic_bind;
      [repeat first [apply untouched_try; [| intros ?] | untouched_step] | intros ?]
    | lazymatch goal with
      | |- OAuthFacts.atomic (if ?b then _ else _) => destruct b
      | |- OAuthFacts.atomic (match ?x with _ => _ end) => destruct x
      | |- OAuthFacts.atomic (raise _) =>
          apply OAuthFacts.atomic_untouched, OAuthFacts.untouched_raise
      end ].
Qed.

(** X14. When [authorization_code_flow] raises, at whatever step, the
    store is what it was before the call. *)
Theorem failed_flow_keeps_store (w : flow_world)
    (bank_config app_config : list (string * value)) (m m' : manager) (e : exn) :
  authorization_code_flow lib w bank_config app_config m = (Raise e, m') →
  _tokens m' = _tokens m.
Proof. apply flow_atomic. Qed.

End WithLibrary.

End OAuthMore.

(** ** The connector's token step *)

Module ConnectorFacts.
Import OAuth Connector OAuthMore.

Section WithLibrary.

Context (lib : library).

Lemma is_token_valid_result (k : string) (m : manager) :
  ∃ b added,
    is_token_valid lib k m = (Ok b, with_events m added)
    ∧ (b = true → added = []).
Proof.
  unfold is_token_valid. destruct (_tokens m !! k) as [c |].
  - unfold bind. destruct (get_access_token_quiet lib k m) as (v & added & -> & H).
    exists (is_not_none v), added. split; [reflexivity |].
    intros Hv. destruct H as [-> | (-> & _)]; [reflexivity | discriminate].
  - exists false, []. rewrite with_events_nil. split; [reflexivity | discriminate].
Qed.

(** X13. With a cipher that gives back what it was given and a token key
    that is a string, [_ensure_valid_token] returns, and after it the
    token of the key is valid; when the token was valid before, nothing has
    changed: no grant is run and no event added. *)
Theorem ensure_valid_token_ensures (w : sim_world) (bank_name key : string)
    (bank_config : list (string * value)) (m : manager) :
  OAuthFacts.cipher_correct lib →
  token_key bank_name bank_config = VStr key →
  ∃ m', _ensure_valid_token lib w bank_name bank_config m = (Ok tt, m')
        ∧ is_token_valid lib key m' = (Ok true, m')
        ∧ (fst (is_token_valid lib key m) = Ok true → m' = m).
Proof.
  intros Hc Hk. unfold _ensure_valid_token. rewrite Hk. unfold bind at 1.
  destruct (is_token_valid_result key m) as (b & added & E & Hb).
  rewrite E. destruct b; cbn [negb].
  - rewrite (Hb eq_refl), with_events_nil in *. exists m.
    split; [reflexivity |]. split; [exact E | reflexivity].
  - unfold bind at 1, log at 1, emit at 1. unfold bind at 1.
    match goal with
    | |- context [simulate_oauth_flow lib w (VStr key) bank_config ?m0] =>
        destruct (simulated_token_valid lib w key bank_config m0 Hc)
          as (token & m' & Es & Hv & _)
    end.
    rewrite Es. exists m'. split; [reflexivity |]. split; [exact Hv |].
    cbn. discriminate.
Qed.

(** How [main] ends when it does not keep the token of the flow. *)
Lemma main_by_simulation (w : Main.world) (primary app_cfg : list (string * value))
    (m : manager) (name : string) :
  dict_item primary "name" = Some (VStr name) →
  (truthy (dict_get primary "client_id")
   && truthy (dict_get primary "client_secret")
   && truthy (dict_get app_cfg "tls_cert_path")
   && truthy (dict_get app_cfg "tls_key_path") = false
   ∨ ∃ e, fst (authorization_code_flow lib (Main.flow w) primary app_cfg m) = Raise e) →
  ∃ from,
    Main.main lib w primary app_cfg m
    = (Ok tt, snd (simulate_oauth_flow lib (Main.simulation w) (VStr name) primary from))
    ∧ _tokens from = _tokens m.
Proof.
  intros Hn H.
  assert (Hsim : ∀ from,
            (let* name := item primary "name" in
             simulate_oauth_flow lib (Main.simulation w) name primary;; ret tt) from
            = (Ok tt, snd (simulate_oauth_flow lib (Main.simulation w) (VStr name)
                             primary from))).
  { intros from. unfold bind at 1. unfold item. rewrite Hn. unfold ret at 1.
    unfold bind.
    destruct (MainFacts.simulate_returns lib (Main.simulation w) name primary from)
      as (token & m' & notice & done & E & _). now rewrite E. }
  unfold Main.main.
  destruct (truthy (dict_get primary "client_id")
            && truthy (dict_get primary "client_secret")
            && truthy (dict_get app_cfg "tls_cert_path")
            && truthy (dict_get app_cfg "tls_key_path")) eqn:Hc.
  - destruct H as [H | (e & He)]; [discriminate |].
    unfold try_except, bind at 1.
    destruct (authorization_code_flow lib (Main.flow w) primary app_cfg m)
      as [[v | e'] m1] eqn:Hf; cbn [fst] in He; [discriminate |].
    unfold bind at 1, log at 1, emit at 1. rewrite Hsim. eexists. split; [reflexivity |].
    cbn [_tokens].
    exact (flow_atomic lib _ _ _ _ _ _ Hf).
  - rewrite Hsim. now exists m.
Qed.

(** X15. [main] and the connector use the same key.  When [main] has
    obtained its token by the simulated grant (no complete configuration,
    or a flow that raised) for a bank with a non-empty name, the
    connector's [_ensure_valid_token] for that bank finds the token valid
    and changes nothing: there is no second simulated grant. *)
Theorem connector_keeps_token_of_main (w : Main.world) (w' : sim_world)
    (bank_name name : string) (primary app_cfg : list (string * value))
    (m : manager) :
  OAuthFacts.cipher_correct lib →
  dict_item primary "name" = Some (VStr name) → name ≠ "" →
  (truthy (dict_get primary "client_id")
   && truthy (dict_get primary "client_secret")
   && truthy (dict_get app_cfg "tls_cert_path")
   && truthy (dict_get app_cfg "tls_key_path") = false
   ∨ ∃ e, fst (authorization_code_flow lib (Main.flow w) primary app_cfg m) = Raise e) →
  ∃ m1, Main.main lib w primary app_cfg m = (Ok tt, m1)
        ∧ _ensure_valid_token lib w' bank_name primary m1 = (Ok tt, m1).
Proof.
  intros Hc Hn Hne H.
  destruct (main_by_simulation w primary app_cfg m name Hn H) as (from & -> & _).
  destruct (simulated_token_valid lib (Main.simulation w) name primary from Hc)
    as (token & m1 & Es & Hv & _).
  rewrite Es. cbn [snd]. exists m1. split; [reflexivity |].
  unfold _ensure_valid_token, token_key, dict_get. rewrite Hn. cbn [truthy].
  destruct (String.eqb_spec name "") as [-> | _]; [contradiction |]. cbn [negb].
  unfold bind. now rewrite Hv.
Qed.

End WithLibrary.

(** *** The loop over the banks *)

Section Accounts.

Context {account : Type} (lib : library).
Context (_fetch_accounts : string → list (string * value) → M (list account)).
Context (draws : string → sim_world).

Lemma accounts_of_set (all : list (string * list account)) (k k' : string)
    (v : list account) :
  accounts_of (set_accounts all k v) k'
  = if String.eqb k k' then Some v else accounts_of all k'.
Proof.
  induction all as [|[k0 v0] all IH]; cbn [set_accounts accounts_of].
  - reflexivity.
  - destruct (String.eqb_spec k0 k) as [-> | Hne]; cbn [accounts_of].
    + now destruct (String.eqb k k').
    + destruct (String.eqb_spec k0 k') as [-> | Hne'].
      * destruct (String.eqb_spec k k') as [-> | _]; [contradiction | reflexivity].
      * exact IH.
Qed.

(** The accounts come from [_fetch_accounts] for the bank, or there are
    none. *)
Definition fetched (bank_name : string) (bank_config : value)
    (accounts : list account) : Prop :=
  accounts = []
  ∨ ∃ config m0 m1, bank_config = VDict config
                    ∧ _fetch_accounts bank_name config m0 = (Ok accounts, m1).

Lemma connect_bank_returns (all : list (string * list account)) (bank_name : string)
    (bank_config : value) (m : manager) :
  ∃ accounts m',
    connect_bank lib _fetch_accounts draws all bank_name bank_config m
    = (Ok (set_accounts all bank_name accounts), m')
    ∧ fetched bank_name bank_config accounts.
Proof.
  unfold connect_bank, try_except.
  match goal with
  | |- context [match ?c m with _ => _ end] => destruct (c m) as [[a | e] m1] eqn:H
  end.
  - apply OAuthFacts.bind_ok in H as (u0 & m2 & _ & H).
    apply OAuthFacts.bind_ok in H as (config & m3 & E & H).
    destruct bank_config as [| | | | | d]; try discriminate. injection E as <- <-.
    apply OAuthFacts.bind_ok in H as (u1 & m4 & _ & H).
    apply OAuthFacts.bind_ok in H as (accounts & m5 & Hf & H).
    apply OAuthFacts.bind_ok in H as (u2 & m6 & _ & H).
    injection H as <- <-. exists accounts, m6. split; [reflexivity |].
    right. now exists d, m4, m5.
  - eexists [], _. split; [reflexivity | now left].
Qed.

Lemma connect_banks_returns (banks : list (string * value))
    (all : list (string * list account)) (m : manager) :
  ∃ all' m',
    connect_banks lib _fetch_accounts draws banks all m = (Ok all', m')
    ∧ (∀ k, accounts_of all' k ≠ None
            ↔ In k (map fst banks) ∨ accounts_of all k ≠ None)
    ∧ (∀ k v, accounts_of all' k = Some v →
              accounts_of all k = Some v
              ∨ ∃ bank_config, In (k, bank_config) banks ∧ fetched k bank_config v).
Proof.
  revert all m. induction banks as [|[bank_name bank_config] banks IH]; intros all m.
  - exists all, m. split; [reflexivity |]. split; [| auto].
    intros k. cbn. tauto.
  - cbn [connect_banks]. unfold bind at 1.
    destruct (connect_bank_returns all bank_name bank_config m)
      as (accounts & m1 & -> & Hf).
    destruct (IH (set_accounts all bank_name accounts) m1)
      as (all' & m' & -> & Hk & Hv).
    exists all', m'. split; [reflexivity |]. split.
    + intros k. rewrite Hk, accounts_of_set. cbn [map fst In].
      destruct (String.eqb_spec bank_name k) as [-> | Hne].
      * split; [auto | intros _; right; discriminate].
      * tauto.
    + intros k v H. apply Hv in H as [H | (cfg & Hin & H)].
      * rewrite accounts_of_set in H.
        destruct (String.eqb_spec bank_name k) as [-> | _]; [| now left].
        injection H as <-. right. exists bank_config. split; [now left | exact Hf].
      * right. exists cfg. split; [now right | exact H].
Qed.

(** X20. [connect_all_accounts] never raises, whatever [_fetch_accounts]
    and the token step do: every exception in the round of a bank is
    caught there.  The result has an entry for each configured bank and
    for no other name, and an entry is what [_fetch_accounts] returned for
    a bank of that name, or else the empty list. *)
Theorem connect_all_accounts_returns (banks_config : list (string * value))
    (m : manager) :
  ∃ all_accounts m',
    connect_all_accounts lib _fetch_accounts draws banks_config m
    = (Ok all_accounts, m')
    ∧ (∀ k, accounts_of all_accounts k ≠ None ↔ In k (map fst banks_config))
    ∧ (∀ k v, accounts_of all_accounts k = Some v →
              ∃ bank_config, In (k, bank_config) banks_config
                             ∧ fetched k bank_config v).
Proof.
  unfold connect_all_accounts. unfold bind at 1, log at 1, emit at 1.
  unfold bind at 1.
  match goal with
  | |- context [connect_banks _ _ _ banks_config [] ?m0] =>
      destruct (connect_banks_returns banks_config [] m0)
        as (all' & m' & -> & Hk & Hv)
  end.
  eexists all', _. split; [reflexivity |]. split.
  - intros k. rewrite Hk. cbn [accounts_of]. tauto.
  - intros k v H. apply Hv in H as [H | H]; [discriminate | exact H].
Qed.

End Accounts.

End ConnectorFacts.

(** ** Configuration *)

Module SettingsFacts.
Import OAuth Settings OAuthMore.

(** The variable is unset, or [int] accepts its value. *)
Definition parses (p : platform) (w : world) (k : string) : bool :=
  match environ w !! k with
  | Some s => match int_of_str p s with Some _ => true | None => false end
  | None => true
  end.

(** The three numbers parse and the API base URL is not set to nothing. *)
Definition loadable (p : platform) (w : world) : bool :=
  parses p w "OAUTH_TIMEOUT" && parses p w "OAUTH_RETRY_ATTEMPTS"
  && parses p w "DATA_REFRESH_INTERVAL"
  && negb (bool_decide (environ w !! "BANK_API_BASE_URL" = Some "")).

(** [v[k1][k2]...] *)
Fixpoint path (v : value) (ks : list string) : option value :=
  match ks with
  | [] => Some v
  | k :: ks' =>
      match v with
      | VDict d =>
          match dict_item d k with
          | Some v' => path v' ks'
          | None => None
          end
      | _ => None
      end
  end.

Lemma int_getenv (p : platform) (w : world) (k : string) (d : Z) (m : manager) :
  if parses p w k then
    ∃ n, int p (getenv_or w k (VInt d)) m = (Ok (VInt n), m)
  else int p (getenv_or w k (VInt d)) m = (Raise ValueError, m).
Proof.
  unfold parses, getenv_or, int. destruct (environ w !! k) as [s |]; [| eauto].
  destruct (int_of_str p s); eauto.
Qed.

Lemma primary_item_built (oauth security app : value)
    (prim : list (string * value)) (k : string) (v : value) (m : manager) :
  dict_item prim k = Some v →
  primary_item (VDict [("oauth", oauth); ("banks", VDict [("primary", VDict prim)]);
                       ("security", security); ("app", app)]) k m
  = (Ok v, m).
Proof. intros H. unfold primary_item, bind. cbn. unfold item. now rewrite H. Qed.

Lemma api_base_url_truthy (w : world) :
  truthy (getenv_or w "BANK_API_BASE_URL" (VStr sandbox_api_base))
  = negb (bool_decide (environ w !! "BANK_API_BASE_URL" = Some "")).
Proof.
  unfold getenv_or. destruct (environ w !! "BANK_API_BASE_URL") as [s |]; [| reflexivity].
  cbn [truthy]. destruct (String.eqb_spec s "") as [-> | Hne].
  - now rewrite bool_decide_eq_true_2.
  - rewrite bool_decide_eq_false_2; [reflexivity | congruence].
Qed.

Lemma validate_outcome (w : world) (oauth security app : value) (m : manager) :
  let config := VDict [("oauth", oauth);
                       ("banks", VDict [("primary", VDict (primary_of w))]);
                       ("security", security); ("app", app)] in
  ∃ added,
    forallb is_log added = true
    ∧ _validate_config config m
      = (if bool_decide (environ w !! "BANK_API_BASE_URL" = Some "")
         then Raise ValueError else Ok tt,
         with_events m added).
Proof.
  intros config. unfold _validate_config, config.
  pose proof (api_base_url_truthy w) as Hu.
  assert (Hend : ∀ m0,
            (let* api_base_url :=
               primary_item (VDict [("oauth", oauth);
                                    ("banks", VDict [("primary", VDict (primary_of w))]);
                                    ("security", security); ("app", app)])
                            "api_base_url" in
             if negb (truthy api_base_url) then raise ValueError
             else log INFO "Configuration validation completed") m0
            = (if bool_decide (environ w !! "BANK_API_BASE_URL" = Some "")
               then Raise ValueError else Ok tt,
               with_events m0
                 (if bool_decide (environ w !! "BANK_API_BASE_URL" = Some "")
                  then [] else [Log INFO "Configuration validation completed"]))).
  { intros m0. unfold bind at 1.
    rewrite (primary_item_built oauth security app (primary_of w) "api_base_url"
               (getenv_or w "BANK_API_BASE_URL" (VStr sandbox_api_base)) m0 eq_refl), Hu.
    destruct (bool_decide _); cbn [negb]; [now rewrite with_events_nil | reflexivity]. }
  unfold bind at 1.
  rewrite (primary_item_built oauth security app (primary_of w) "client_id"
             (getenv w "BANK_CLIENT_ID") m eq_refl).
  unfold bind at 1.
  destruct (negb (truthy (getenv w "BANK_CLIENT_ID"))).
  - unfold ret at 1. unfold bind at 1, log at 1, emit at 1. rewrite Hend.
    eexists (_ :: _). split; [| unfold with_events; cbn [_tokens trace];
                                rewrite <- app_assoc; reflexivity].
    destruct (bool_decide _); reflexivity.
  - unfold bind at 1.
    rewrite (primary_item_built oauth security app (primary_of w) "client_secret"
               (getenv w "BANK_CLIENT_SECRET") m eq_refl).
    unfold ret at 1.
    destruct (negb (truthy (getenv w "BANK_CLIENT_SECRET"))).
    + unfold bind at 1, log at 1, emit at 1. rewrite Hend.
      eexists (_ :: _). split; [| unfold with_events; cbn [_tokens trace];
                                  rewrite <- app_assoc; reflexivity].
      destruct (bool_decide _); reflexivity.
    + unfold bind at 1, ret at 1. rewrite Hend.
      eexists. split; [| reflexivity]. destruct (bool_decide _); reflexivity.
Qed.

Lemma log_at (l : level) (msg : string) (m : manager) (a : list event) :
  log l msg (with_events m a) = (Ok tt, with_events m (a ++ [Log l msg])).
Proof. unfold log, emit, with_events. cbn. now rewrite <- app_assoc. Qed.

Lemma forallb_is_log_snoc (a : list event) (l : level) (msg : string) :
  forallb is_log a = true → forallb is_log (a ++ [Log l msg]) = true.
Proof. intros H. now rewrite forallb_app, H. Qed.

Lemma load_config_cases (p : platform) (w : world) (m : manager) :
  ∃ added,
    forallb is_log added = true
    ∧ ((loadable p w = true
        ∧ ∃ config,
            load_config p w m = (Ok config, with_events m added)
            ∧ path config ["banks"; "primary"] = Some (VDict (primary_of w))
            ∧ path config ["app"; "tls_cert_path"]
              = Some (getenv_or w "TLS_CERT_PATH" (VStr ""))
            ∧ path config ["app"; "tls_key_path"]
              = Some (getenv_or w "TLS_KEY_PATH" (VStr "")))
       ∨ (loadable p w = false
          ∧ load_config p w m = (Raise ValueError, with_events m added))).
Proof.
  unfold loadable.
  remember (load_config p w m) as R eqn:ER.
  unfold load_config in ER.
  assert (H0 : ∃ first,
            (match dotenv w with
             | Some env_path => log INFO ("Loaded configuration from " +:+ env_path)
             | None => log WARNING "No .env file found, using environment variables only"
             end) m = (Ok tt, with_events m first) ∧ forallb is_log first = true).
  { destruct (dotenv w); eexists; split; reflexivity. }
  destruct H0 as (first & E0 & F0).
  unfold bind at 1 in ER. rewrite E0 in ER. cbv beta iota in ER.
  unfold bind at 1 in ER.
  pose proof (int_getenv p w "OAUTH_TIMEOUT" 30 (with_events m first)) as H1.
  destruct (parses p w "OAUTH_TIMEOUT"); cbn [andb];
    [destruct H1 as (n1 & H1)
    | rewrite H1 in ER; exists first; split; [exact F0 | now right]].
  rewrite H1 in ER. cbv beta iota in ER.
  unfold bind at 1 in ER.
  pose proof (int_getenv p w "OAUTH_RETRY_ATTEMPTS" 3 (with_events m first)) as H2.
  destruct (parses p w "OAUTH_RETRY_ATTEMPTS"); cbn [andb];
    [destruct H2 as (n2 & H2)
    | rewrite H2 in ER; exists first; split; [exact F0 | now right]].
  rewrite H2 in ER. cbv beta iota in ER.
  unfold bind at 1 in ER.
  pose proof (int_getenv p w "DATA_REFRESH_INTERVAL" 300 (with_events m first)) as H3.
  destruct (parses p w "DATA_REFRESH_INTERVAL"); cbn [andb];
    [destruct H3 as (n3 & H3)
    | rewrite H3 in ER; exists first; split; [exact F0 | now right]].
  rewrite H3 in ER. cbv beta iota in ER.
  unfold bind at 1 in ER.
  assert (Hs : ∃ secret second,
            (if negb (truthy (getenv w "SECRET_KEY")) then
               log WARNING "No SECRET_KEY found; generated an ephemeral key for this run.";;
               ret (VStr (token_hex w))
             else ret (getenv w "SECRET_KEY")) (with_events m first)
            = (Ok secret, with_events m second) ∧ forallb is_log second = true).
  { destruct (negb (truthy (getenv w "SECRET_KEY"))).
    - unfold bind. rewrite log_at. eexists. eexists. split; [reflexivity |].
      now apply forallb_is_log_snoc.
    - now exists (getenv w "SECRET_KEY"), first. }
  destruct Hs as (secret & second & Es & F2).
  rewrite Es in ER. cbv beta iota in ER.
  unfold bind at 1 in ER.
  match type of ER with
  | context [_validate_config (VDict [("oauth", ?o); _; ("security", ?s); ("app", ?a)])] =>
      destruct (validate_outcome w o s a (with_events m second)) as (third & F3 & Ev)
  end.
  rewrite Ev in ER. rewrite with_events_app in ER. exists (second ++ third).
  split; [now rewrite forallb_app, F2, F3 |].
  destruct (bool_decide (environ w !! "BANK_API_BASE_URL" = Some "")); cbn [negb].
  - now right.
  - left. split; [reflexivity |]. eexists. split; [exact ER |]. repeat split.
Qed.

(** X16. [load_config] writes log lines and nothing else.  It returns
    exactly when the three numeric variables are unset or accepted by
    [int] and [BANK_API_BASE_URL] is not set to the empty string;
    otherwise it raises [ValueError].  The configuration it returns holds
    the primary bank and the two TLS paths as the environment gives them,
    with their defaults. *)
Theorem load_config_outcome (p : platform) (w : world) (m : manager) :
  if loadable p w then
    ∃ config added,
      load_config p w m = (Ok config, with_events m added)
      ∧ forallb is_log added = true
      ∧ path config ["banks"; "primary"] = Some (VDict (primary_of w))
      ∧ path config ["app"; "tls_cert_path"]
        = Some (getenv_or w "TLS_CERT_PATH" (VStr ""))
      ∧ path config ["app"; "tls_key_path"]
        = Some (getenv_or w "TLS_KEY_PATH" (VStr ""))
  else
    ∃ added,
      load_config p w m = (Raise ValueError, with_events m added)
      ∧ forallb is_log added = true.
Proof.
  destruct (load_config_cases p w m)
    as (added & F & [(-> & config & E & P) | (-> & E)]).
  - now exists config, added.
  - now exists added.
Qed.

End SettingsFacts.

(** ** Configuration and the choice of grant *)

Module StartupFacts.
Import OAuth Settings OAuthMore SettingsFacts.

(** The variable is set, and not to the empty string. *)
Definition provided (w : Settings.world) (k : string) : bool :=
  match environ w !! k with
  | Some s => negb (String.eqb s "")
  | None => false
  end.

Lemma truthy_getenv (w : Settings.world) (k : string) :
  truthy (getenv w k) = provided w k.
Proof. unfold getenv, provided. now destruct (environ w !! k). Qed.

Lemma truthy_getenv_or_empty (w : Settings.world) (k : string) :
  truthy (getenv_or w k (VStr "")) = provided w k.
Proof. unfold getenv_or, provided. now destruct (environ w !! k). Qed.

Lemma path_two (config : value) (k1 k2 : string) (v : value) :
  path config [k1; k2] = Some v →
  ∃ d, path config [k1] = Some (VDict d) ∧ dict_item d k2 = Some v.
Proof.
  cbn [path]. destruct config as [| | | | | c]; try discriminate.
  destruct (dict_item c k1) as [[| | | | | d] |]; try discriminate.
  destruct (dict_item d k2) as [v' |] eqn:E; [| discriminate].
  intros [= <-]. now exists d.
Qed.

Section WithLibrary.

Context (lib : library).

Lemma main_returns (w : Main.world) (primary app_cfg : list (string * value))
    (m : manager) (name : string) :
  dict_item primary "name" = Some (VStr name) →
  fst (Main.main lib w primary app_cfg m) = Ok tt.
Proof.
  intros Hn.
  destruct (truthy (dict_get primary "client_id")
            && truthy (dict_get primary "client_secret")
            && truthy (dict_get app_cfg "tls_cert_path")
            && truthy (dict_get app_cfg "tls_key_path")) eqn:Hc.
  - destruct (authorization_code_flow lib (Main.flow w) primary app_cfg m)
      as [[v | e] m1] eqn:Hf.
    + unfold Main.main. rewrite Hc. unfold try_except, bind at 1. now rewrite Hf.
    + destruct (ConnectorFacts.main_by_simulation lib w primary app_cfg m name Hn)
        as (from & -> & _); [| reflexivity].
      right. exists e. now rewrite Hf.
  - destruct (ConnectorFacts.main_by_simulation lib w primary app_cfg m name Hn)
      as (from & -> & _); [now left | reflexivity].
Qed.

(** X17. On every configuration that [load_config] returns, the part of
    [main] that obtains the token returns: the primary bank is there and
    its name is a string.  The test by which [main] chooses the
    authorization-code flow comes out true exactly when the four variables
    [BANK_CLIENT_ID], [BANK_CLIENT_SECRET], [TLS_CERT_PATH] and
    [TLS_KEY_PATH] are set and not empty. *)
Theorem loaded_config_selects_grant (p : platform) (sw : Settings.world)
    (w : Main.world) (m m1 : manager) (config : value) :
  load_config p sw m = (Ok config, m1) →
  ∃ primary app_cfg,
    path config ["banks"; "primary"] = Some (VDict primary)
    ∧ path config ["app"] = Some (VDict app_cfg)
    ∧ fst (Main.main lib w primary app_cfg m1) = Ok tt
    ∧ truthy (dict_get primary "client_id")
      && truthy (dict_get primary "client_secret")
      && truthy (dict_get app_cfg "tls_cert_path")
      && truthy (dict_get app_cfg "tls_key_path")
      = provided sw "BANK_CLIENT_ID" && provided sw "BANK_CLIENT_SECRET"
        && provided sw "TLS_CERT_PATH" && provided sw "TLS_KEY_PATH".
Proof.
  intros H.
  destruct (load_config_cases p sw m)
    as (added & _ & [(_ & config' & E & Pb & Pc & Pk) | (_ & E)]);
    rewrite E in H; [| discriminate].
  injection H as <- <-.
  apply path_two in Pc as (app_cfg & Pa & Hcert).
  apply path_two in Pk as (app_cfg' & Pa' & Hkey).
  rewrite Pa in Pa'. injection Pa' as <-.
  exists (primary_of sw), app_cfg. split; [exact Pb |]. split; [exact Pa |].
  split.
  - apply (main_returns w (primary_of sw) app_cfg _
             (match environ sw !! "BANK_NAME" with
              | Some s => s
              | None => "commerzbank_sandbox"
              end)).
    unfold primary_of, getenv_or. cbn. now destruct (environ sw !! "BANK_NAME").
  - assert (Hid : dict_item (primary_of sw) "client_id"
                  = Some (getenv sw "BANK_CLIENT_ID")) by reflexivity.
    assert (Hsec : dict_item (primary_of sw) "client_secret"
                   = Some (getenv sw "BANK_CLIENT_SECRET")) by reflexivity.
    unfold dict_get. rewrite Hcert, Hkey, Hid, Hsec.
    now rewrite !truthy_getenv, !truthy_getenv_or_empty.
Qed.

End WithLibrary.

End StartupFacts.

(** ** More of the callback listener *)

Module CallbackMore.
Import Callback.

(** No request of the second is routed to [_handle_callback]. *)
Definition unrouted (tick : list request) : bool :=
  forallb (λ r, negb (routes_to_callback r)) tick.

Lemma deliver_unrouted (a : application) (r : request) :
  routes_to_callback r = false → deliver a r = a.
Proof. intros H. unfold deliver. rewrite H. now destruct (running a). Qed.

Lemma deliver_all_unrouted (tick : list request) (a : application) :
  unrouted tick = true → fold_left deliver tick a = a.
Proof.
  revert a. induction tick as [|r tick IH]; intros a H; [reflexivity |].
  cbn [unrouted forallb] in H. apply andb_true_iff in H as [Hr Ht].
  apply negb_true_iff in Hr. cbn [fold_left]. rewrite (deliver_unrouted a r Hr).
  now apply IH.
Qed.

(** What a second's requests leave: nothing new, or what the handler made
    of one of them. *)
Lemma deliver_all_cases (tick : list request) (a : application) :
  running a = true →
  (unrouted tick = true ∧ fold_left deliver tick a = a)
  ∨ (unrouted tick = false
     ∧ ∃ req, In req tick ∧ routes_to_callback req = true
              ∧ fold_left deliver tick a
                = {| auth_result := _handle_callback req; running := true |}).
Proof.
  revert a. induction tick as [|r tick IH]; intros a Ha; [now left |].
  cbn [fold_left unrouted forallb]. fold (unrouted tick).
  destruct (routes_to_callback r) eqn:Hr; cbn [negb andb].
  - right. split; [reflexivity |].
    rewrite (CallbackFacts.deliver_callback a r Ha Hr).
    destruct (IH {| auth_result := _handle_callback r; running := true |} eq_refl)
      as [(_ & ->) | (_ & req & Hin & Hq & ->)].
    + exists r. split; [now left | now split].
    + exists req. split; [now right | now split].
  - rewrite (deliver_unrouted a r Hr).
    destruct (IH a Ha) as [(Hu & ->) | (Hu & req & Hin & Hq & ->)].
    + now left.
    + right. split; [exact Hu |]. exists req. split; [now right | now split].
Qed.

Lemma poll_unrouted (n : nat) (a : application) (arr : list (list request)) :
  auth_result a = VNone → forallb unrouted (firstn n arr) = true →
  poll n a arr = (timeout_result, a, skipn n arr).
Proof.
  revert arr. induction n as [|n IH]; intros arr Ha Hq; [reflexivity |].
  cbn [poll]. destruct arr as [|tick arr].
  - cbn [hd tl fold_left]. rewrite Ha. cbn [is_not_none].
    rewrite IH by (try assumption; now destruct n). now destruct n.
  - cbn [hd tl firstn skipn forallb] in *. apply andb_true_iff in Hq as [Ht Hq].
    rewrite (deliver_all_unrouted tick a Ht), Ha. cbn [is_not_none].
    now apply IH.
Qed.

Lemma poll_served (n : nat) (a : application) (arr : list (list request)) :
  auth_result a = VNone → running a = true →
  forallb unrouted (firstn n arr) = false →
  ∃ req, In req (concat (firstn n arr)) ∧ routes_to_callback req = true
         ∧ fst (fst (poll n a arr)) = _handle_callback req.
Proof.
  revert arr. induction n as [|n IH]; intros arr Ha Hr Hq; [discriminate |].
  destruct arr as [|tick arr]; [discriminate |].
  cbn [firstn forallb concat poll hd tl] in *.
  destruct (deliver_all_cases tick a Hr) as [(Hu & ->) | (Hu & req & Hin & Hreq & ->)].
  - rewrite Hu in Hq. cbn [andb] in Hq. rewrite Ha. cbn [is_not_none].
    destruct (IH arr Ha Hr Hq) as (req & Hin & Hreq & E).
    exists req. split; [apply in_or_app; now right | now split].
  - cbn [auth_result _handle_callback is_not_none fst].
    exists req. split; [apply in_or_app; now left | now split].
Qed.

(** X18. The wait ends in the time-out dict exactly when no request of the
    [timeout] seconds was routed to the handler; otherwise the result is
    what the handler made of one of the requests served in that time.  A
    request to [/callback] by another method than GET or HEAD does not end
    the wait. *)
Theorem timeout_iff_nothing_routed (w : world) (host port cert key : value)
    (timeout : Z) :
  setup w = None →
  let served := firstn (Z.to_nat timeout) (arrivals w) in
  let result := fst (fst (run_https_callback_server w host port cert key timeout)) in
  (result = Ok timeout_result ↔ forallb unrouted served = true)
  ∧ (forallb unrouted served = false →
       ∃ req, In req (concat served) ∧ routes_to_callback req = true
              ∧ result = Ok (_handle_callback req)).
Proof.
  intros Hs served result.
  assert (Hcase : forallb unrouted served = false →
                  ∃ req, In req (concat served) ∧ routes_to_callback req = true
                         ∧ result = Ok (_handle_callback req)).
  { intros Hq. unfold result, run_https_callback_server. rewrite Hs.
    destruct (poll_served (Z.to_nat timeout)
                {| auth_result := VNone; running := true |} (arrivals w)
                eq_refl eq_refl Hq) as (req & Hin & Hreq & E).
    exists req. split; [exact Hin |]. split; [exact Hreq |].
    destruct (poll _ _ _) as [[r a] later]. cbn [fst] in *. now rewrite E. }
  split; [| exact Hcase]. split.
  - intros Hr. destruct (forallb unrouted served) eqn:Hq; [reflexivity |].
    destruct (Hcase eq_refl) as (req & _ & _ & E). rewrite E in Hr. discriminate.
  - intros Hq. unfold result, run_https_callback_server. rewrite Hs.
    now rewrite (poll_unrouted (Z.to_nat timeout)
                   {| auth_result := VNone; running := true |} (arrivals w)
                   eq_refl Hq).
Qed.

Lemma running_kept (tick : list request) (a : application) :
  running a = true → running (fold_left deliver tick a) = true.
Proof.
  intros Ha. now destruct (deliver_all_cases tick a Ha)
    as [(_ & ->) | (_ & req & _ & _ & ->)].
Qed.

Lemma poll_last_routed (n : nat) (a : application)
    (before : list (list request)) (pre post : list request)
    (after : list (list request)) (req : request) :
  auth_result a = VNone → running a = true →
  length before < n → forallb unrouted before = true →
  routes_to_callback req = true → unrouted post = true →
  poll n a (before ++ (pre ++ req :: post) :: after)
  = (_handle_callback req,
     {| auth_result := _handle_callback req; running := true |}, after).
Proof.
  intros Ha Hr Hlen Hb Hreq Hpost. revert n Hlen.
  induction before as [|tick before IH]; intros n Hlen.
  - destruct n as [|n]; [simpl in Hlen; lia |].
    cbn [List.app poll hd tl]. rewrite fold_left_app. cbn [fold_left].
    rewrite (CallbackFacts.deliver_callback _ req (running_kept pre a Hr) Hreq).
    now rewrite (deliver_all_unrouted post _ Hpost).
  - destruct n as [|n]; [simpl in Hlen; lia |].
    cbn [forallb] in Hb. apply andb_true_iff in Hb as [Ht Hb].
    cbn [List.app poll hd tl]. rewrite (deliver_all_unrouted tick a Ht), Ha.
    cbn [is_not_none]. apply IH; [assumption | simpl in Hlen; lia].
Qed.

(** X19. The handler overwrites: of the requests routed to it in the
    second that ends the wait, the last one gives the result, whatever
    came before it in that second and whatever its query holds; the
    seconds after are not served. *)
Theorem last_callback_of_the_second_wins (w : world) (host port cert key : value)
    (timeout : Z) (before : list (list request)) (pre post : list request)
    (after : list (list request)) (req : request) :
  setup w = None →
  arrivals w = before ++ (pre ++ req :: post) :: after →
  length before < Z.to_nat timeout →
  forallb unrouted before = true →
  routes_to_callback req = true → unrouted post = true →
  run_https_callback_server w host port cert key timeout
  = (Ok (_handle_callback req),
     {| auth_result := _handle_callback req; running := false |}, after).
Proof.
  intros Hs Ha Hlen Hb Hreq Hpost. unfold run_https_callback_server.
  rewrite Hs, Ha.
  now rewrite (poll_last_routed (Z.to_nat timeout)
                 {| auth_result := VNone; running := true |}
                 before pre post after req eq_refl eq_refl Hlen Hb Hreq Hpost).
Qed.

End CallbackMore.

(** ** The further properties at work on concrete runs *)

Module MoreExamples.
Import OAuth Examples.

Definition simulate_bank : operation := Simulate demo_sim_world (VStr "bank") [].

(** The record that the simulated grant for the bank returns. *)
Definition simulated_record : list (string * value) :=
  match fst (perform Demo.lib simulate_bank init) with
  | Ok (VDict d) => d
  | _ => []
  end.

Lemma returned_token_is_stored_witness :
  ∃ c, _encrypt_token Demo.lib (OAuthMore.store_iv simulate_bank)
         (VDict simulated_record) = Ok c
       ∧ _tokens granted_manager = <["bank" := c]> (_tokens init).
Proof.
  apply (OAuthMore.returned_token_is_stored Demo.lib simulate_bank init
           granted_manager (VDict simulated_record) "bank").
  - reflexivity.
  - vm_compute. reflexivity.
Defined.

Definition bank_endpoints : list (string * value) :=
  [("client_id", VStr "x"); ("client_secret", VStr "y");
   ("token_url", VStr "https://bank/token")].

(** A refresh for one bank, failing or not, leaves the token of another
    where it is. *)
Lemma other_banks_untouched_witness :
  _tokens (snd (perform Demo.lib (Refresh token_granted [x02] "other" bank_endpoints)
                  granted_manager)) !! "bank"
  = _tokens granted_manager !! "bank".
Proof.
  apply (OAuthMore.other_banks_untouched Demo.lib
           (Refresh token_granted [x02] "other" bank_endpoints) granted_manager "bank").
  cbn. discriminate.
Defined.

Lemma stored_token_reads_back_witness :
  get_access_token Demo.lib "bank" granted_manager
  = (Ok (dict_get simulated_record "access_token"), granted_manager)
  ∧ is_token_valid Demo.lib "bank" granted_manager
    = (Ok (is_not_none (dict_get simulated_record "access_token")),
       granted_manager).
Proof.
  apply (OAuthMore.stored_token_reads_back Demo.lib simulate_bank init
           granted_manager simulated_record "bank" demo_cipher_correct).
  - vm_compute. reflexivity.
  - apply Nat.leb_le. vm_compute. reflexivity.
  - reflexivity.
  - vm_compute. reflexivity.
Defined.

Lemma simulated_token_is_valid_witness :
  ∃ token m',
    simulate_oauth_flow Demo.lib demo_sim_world (VStr "bank") [] init = (Ok token, m')
    ∧ is_token_valid Demo.lib "bank" m' = (Ok true, m')
    ∧ get_access_token Demo.lib "bank" m' = (Ok (VStr "mock_access_token_r1"), m').
Proof.
  exact (OAuthMore.simulated_token_is_valid Demo.lib demo_sim_world "bank" [] init
           demo_cipher_correct).
Defined.

(** The configuration lacks the client id: the [KeyError] inside the [try]
    block leaves [refresh_token] as an [OAuthError]. *)
Lemma refresh_raises_oauth_error_only_witness :
  ∃ e m',
    refresh_token Demo.lib token_granted [] "bank" [] granted_manager = (Raise e, m')
    ∧ is_oauth_error e = true.
Proof.
  assert (E : ∃ e m', refresh_token Demo.lib token_granted [] "bank" []
                        granted_manager = (Raise e, m'))
    by (vm_compute; eauto).
  destruct E as (e & m' & E). exists e, m'. split; [exact E |].
  exact (OAuthMore.refresh_raises_oauth_error_only Demo.lib _ _ _ _ _ _ _ E).
Defined.

(** The same configuration in [exchange_code_for_token]: the [KeyError]
    comes before the [try] block and leaves as it is. *)
Lemma exchange_raises_oauth_or_key_error_witness :
  ∃ e m',
    exchange_code_for_token Demo.lib token_granted [] (VStr "ABC") [] "s" init
    = (Raise e, m')
    ∧ (is_oauth_error e = true
       ∨ ∃ k, e = KeyError k ∧ dict_item [] k = None
              ∧ In k ["redirect_uri"; "client_id"; "client_secret"]).
Proof.
  assert (E : ∃ e m', exchange_code_for_token Demo.lib token_granted []
                        (VStr "ABC") [] "s" init = (Raise e, m'))
    by (vm_compute; eauto).
  destruct E as (e & m' & E). exists e, m'. split; [exact E |].
  exact (OAuthMore.exchange_raises_oauth_or_key_error Demo.lib _ _ _ _ _ _ _ _ E).
Defined.

Definition sandbox_user : list (string * value) :=
  [("username", VStr "u"); ("password", VStr "p")] ++ bank_endpoints.

Lemma password_grant_lets_transport_errors_through_witness :
  password_grant_for_token Demo.lib (Fails TimeoutError) [] sandbox_user init
  = (Raise TimeoutError,
     OAuthMore.with_events init
       [Post (VStr "https://bank/token")
             [("grant_type", VStr "password"); ("username", VStr "u");
              ("password", VStr "p"); ("client_id", VStr "x");
              ("client_secret", VStr "y")]]).
Proof.
  apply (OAuthMore.password_grant_lets_transport_errors_through Demo.lib
           TimeoutError [] sandbox_user init);
    reflexivity.
Defined.

(** The bank answers the refresh of the simulated token with an access
    token alone; a second refresh finds no refresh token. *)
Lemma refresh_token_is_not_carried_over_witness :
  ∃ error,
    fst (refresh_token Demo.lib token_granted [] "bank" bank_endpoints
           (snd (refresh_token Demo.lib token_granted [x03] "bank" bank_endpoints
                   granted_manager)))
    = Raise (OAuthError error).
Proof.
  apply (OAuthMore.refresh_token_is_not_carried_over Demo.lib token_granted [x03]
           "bank" bank_endpoints granted_manager _
           [("access_token", VStr "real")] token_granted [] bank_endpoints
           demo_cipher_correct).
  - reflexivity.
  - reflexivity.
  - vm_compute. reflexivity.
Defined.

Lemma flow_without_tls_stays_inside_witness :
  ∃ e added,
    authorization_code_flow Demo.lib (Main.flow no_browser_world) primary
      without_tls init
    = (Raise e, OAuthMore.with_events init added)
    ∧ forallb OAuthMore.is_log added = true.
Proof.
  apply (OAuthMore.flow_without_tls_stays_inside Demo.lib).
  left. reflexivity.
Defined.

(** Nobody comes back from the bank: the listener times out. *)
Definition nobody_back : flow_world := {|
  nonce := "n0";
  browser := Ok true;
  listener := CallbackFacts.idle_world;
  token_endpoint := token_granted;
  flow_iv := [x01]
|}.

Lemma flow_without_code_posts_nothing_witness :
  ∃ e added,
    authorization_code_flow Demo.lib nobody_back primary with_tls init
    = (Raise e, OAuthMore.with_events init added)
    ∧ existsb OAuthMore.is_post added = false.
Proof.
  apply (OAuthMore.flow_without_code_posts_nothing Demo.lib nobody_back primary
           with_tls init
           [("error", VStr "timeout"); ("error_description", VStr "No callback received")]).
  - intros host port cert key. reflexivity.
  - left. reflexivity.
Defined.

Lemma flow_success_stores_witness :
  ∃ v m',
    authorization_code_flow Demo.lib (Main.flow no_browser_world) primary with_tls init
    = (Ok v, m')
    ∧ ∃ c, _encrypt_token Demo.lib [x01] v = Ok c
           ∧ _tokens m' = <["commerzbank_sandbox" := c]> (_tokens init).
Proof.
  assert (E : ∃ v m', authorization_code_flow Demo.lib (Main.flow no_browser_world)
                        primary with_tls init = (Ok v, m'))
    by (vm_compute; eauto).
  destruct E as (v & m' & E). exists v, m'. split; [exact E |].
  exact (proj1 (OAuthMore.flow_success_stores Demo.lib _ _ _ _ _ _ E)
           "commerzbank_sandbox" eq_refl).
Defined.

Lemma failed_flow_keeps_store_witness :
  ∃ e m',
    authorization_code_flow Demo.lib nobody_back primary with_tls granted_manager
    = (Raise e, m')
    ∧ _tokens m' = _tokens granted_manager.
Proof.
  assert (E : ∃ e m', authorization_code_flow Demo.lib nobody_back primary with_tls
                        granted_manager = (Raise e, m'))
    by (vm_compute; eauto).
  destruct E as (e & m' & E). exists e, m'. split; [exact E |].
  exact (OAuthMore.failed_flow_keeps_store Demo.lib _ _ _ _ _ _ E).
Defined.

Lemma ensure_valid_token_ensures_witness :
  ∃ m',
    Connector._ensure_valid_token Demo.lib demo_sim_world "primary" primary init
    = (Ok tt, m')
    ∧ is_token_valid Demo.lib "commerzbank_sandbox" m' = (Ok true, m')
    ∧ (fst (is_token_valid Demo.lib "commerzbank_sandbox" init) = Ok true → m' = init).
Proof.
  apply (ConnectorFacts.ensure_valid_token_ensures Demo.lib demo_sim_world
           "primary" "commerzbank_sandbox" primary init demo_cipher_correct).
  reflexivity.
Defined.

Lemma connector_keeps_token_of_main_witness :
  ∃ m1,
    Main.main Demo.lib no_browser_world primary without_tls init = (Ok tt, m1)
    ∧ Connector._ensure_valid_token Demo.lib demo_sim_world "primary" primary m1
      = (Ok tt, m1).
Proof.
  apply (ConnectorFacts.connector_keeps_token_of_main Demo.lib no_browser_world
           demo_sim_world "primary" "commerzbank_sandbox" primary without_tls init
           demo_cipher_correct).
  - reflexivity.
  - discriminate.
  - left. reflexivity.
Defined.

(** Decimal numbers for [int]; [lower] left as the identity. *)
Definition demo_platform : Settings.platform := {|
  Settings.int_of_str := λ s, option_map Z.of_int (NilEmpty.int_of_string s);
  Settings.lower := λ s, s
|}.

(** Client credentials in the environment, no TLS paths. *)
Definition demo_environment : Settings.world := {|
  Settings.dotenv := None;
  Settings.environ := {[ "BANK_CLIENT_ID" := "x"; "BANK_CLIENT_SECRET" := "y";
                         "OAUTH_TIMEOUT" := "45" ]};
  Settings.token_hex := "00ff"
|}.

Lemma loaded_config_selects_grant_witness :
  ∃ config m1,
    Settings.load_config demo_platform demo_environment init = (Ok config, m1)
    ∧ ∃ primary app_cfg,
        SettingsFacts.path config ["banks"; "primary"] = Some (VDict primary)
        ∧ SettingsFacts.path config ["app"] = Some (VDict app_cfg)
        ∧ fst (Main.main Demo.lib no_browser_world primary app_cfg m1) = Ok tt
        ∧ truthy (dict_get primary "client_id")
          && truthy (dict_get primary "client_secret")
          && truthy (dict_get app_cfg "tls_cert_path")
          && truthy (dict_get app_cfg "tls_key_path")
          = false.
Proof.
  assert (E : ∃ config m1, Settings.load_config demo_platform demo_environment init
                           = (Ok config, m1))
    by (vm_compute; eauto).
  destruct E as (config & m1 & E). exists config, m1. split; [exact E |].
  exact (StartupFacts.loaded_config_selects_grant Demo.lib demo_platform
           demo_environment no_browser_world init m1 config E).
Defined.

Lemma timeout_iff_nothing_routed_witness :
  let served := firstn (Z.to_nat 120) (Callback.arrivals CallbackFacts.redirect_world) in
  let result :=
    fst (fst (Callback.run_https_callback_server CallbackFacts.redirect_world
                (VStr "localhost") (VInt 8443) (VStr "cert.pem") (VStr "key.pem") 120)) in
  (result = Ok Callback.timeout_result ↔ forallb CallbackMore.unrouted served = true)
  ∧ (forallb CallbackMore.unrouted served = false →
       ∃ req, In req (concat served) ∧ Callback.routes_to_callback req = true
              ∧ result = Ok (Callback._handle_callback req)).
Proof.
  apply (CallbackMore.timeout_iff_nothing_routed CallbackFacts.redirect_world).
  reflexivity.
Defined.

(** The redirect is followed twice within the second; a POST to
    [/callback] comes last and is not routed. *)
Definition second_try : Callback.request :=
  {| Callback.method := "GET"; Callback.path := "/callback";
     Callback.query := [("code", "SECOND")] |}.

Definition hasty_world : Callback.world := {|
  Callback.setup := None;
  Callback.arrivals :=
    [[{| Callback.method := "GET"; Callback.path := "/"; Callback.query := [] |}];
     [{| Callback.method := "GET"; Callback.path := "/callback";
         Callback.query := [("code", "FIRST")] |};
      second_try;
      {| Callback.method := "POST"; Callback.path := "/callback";
         Callback.query := [("code", "THIRD")] |}];
     []]
|}.

Lemma last_callback_of_the_second_wins_witness :
  Callback.run_https_callback_server hasty_world (VStr "localhost") (VInt 8443)
    (VStr "cert.pem") (VStr "key.pem") 120
  = (Ok (Callback._handle_callback second_try),
     {| Callback.auth_result := Callback._handle_callback second_try;
        Callback.running := false |}, [[]]).
Proof.
  apply (CallbackMore.last_callback_of_the_second_wins hasty_world _ _ _ _ 120
           [[{| Callback.method := "GET"; Callback.path := "/"; Callback.query := [] |}]]
           [{| Callback.method := "GET"; Callback.path := "/callback";
               Callback.query := [("code", "FIRST")] |}]
           [{| Callback.method := "POST"; Callback.path := "/callback";
               Callback.query := [("code", "THIRD")] |}]
           [[]] second_try).
  - reflexivity.
  - reflexivity.
  - cbn. lia.
  - reflexivity.
  - reflexivity.
  - reflexivity.
Defined.

End MoreExamples.
